(** * ScanFlowWeb: the decision engine and its access layer

    A shallow embedding of the helpers of [src/services/keepaApi.ts] and
    [src/services/ebayApi.ts] and of the routes of [src/app/api] that call
    them, the properties the specification states about them, and further
    properties that the code has. The definitions come first, one module
    for each part of the source; the properties follow.

    Conventions.
    - A JavaScript string is the list of its code units; this development
      covers strings whose code units are below 256 ([list ascii]).
    - [null] and [undefined] are [None].
    - A number that holds an integer (a price in cents, a count, a rank, a
      delay in milliseconds, a score) is a [Z]; sums and differences of
      such numbers are exact in the source as long as they stay below
      2^53 in magnitude. Where NaN can arise from [parseInt], the number
      is an [option Z] with [None] for NaN.
    - Where the source multiplies by a decimal fraction or divides
      ([Math.round(x * 0.15)], [profit / cost * 100]) the arithmetic is
      that of IEEE-754 binary64, Rocq's primitive [float], and the
      arguments of [makeDecision], which are only compared with constants,
      are arbitrary binary64 numbers.
    - What a function awaits or reads from its environment (a response, a
      token, the clock, the calendar of the host) is an argument of its
      model; a function that changes a variable of its module takes the
      old value and returns the new one. *)

From Stdlib Require Import ZArith List Bool Ascii String Lia.
From Stdlib Require Import DecimalString.
From Stdlib Require Import Floats.
Import ListNotations.

Open Scope Z_scope.

(** ** JavaScript strings *)

Module JS.

Definition jsstring : Type := list ascii.

Definition js (s : string) : jsstring := list_ascii_of_string s.

Definition code (c : ascii) : Z := Z.of_nat (nat_of_ascii c).

(** [\s] restricted to code units below 256: TAB, LF, VT, FF, CR, SP, NBSP. *)
Definition is_space (c : ascii) : bool :=
  let n := code c in
  (n =? 9) || (n =? 10) || (n =? 11) || (n =? 12) || (n =? 13)
  || (n =? 32) || (n =? 160).

Definition is_hyphen (c : ascii) : bool := code c =? 45.

(** [s.replace(/[-\s]/g, '')] *)
Definition strip (s : jsstring) : jsstring :=
  filter (fun c => negb (is_hyphen c || is_space c)) s.

Definition is_digit (c : ascii) : bool := (48 <=? code c) && (code c <=? 57).

(** A number that is an integer or NaN. *)
Definition num : Type := option Z.
Definition NaN : num := None.

Definition lift2 (f : Z -> Z -> Z) (a b : num) : num :=
  match a, b with
  | Some x, Some y => Some (f x y)
  | _, _ => None
  end.

Definition add : num -> num -> num := lift2 Z.add.
Definition sub : num -> num -> num := lift2 Z.sub.
Definition mul : num -> num -> num := lift2 Z.mul.

(** [a % b]: the remainder has the sign of the dividend, and is NaN when
    the divisor is zero. *)
Definition rem (a b : num) : num :=
  match a, b with
  | Some x, Some y => if y =? 0 then None else Some (Z.rem x y)
  | _, _ => None
  end.

(** [a === b] on numbers: NaN equals nothing. *)
Definition strict_eq (a b : num) : bool :=
  match a, b with
  | Some x, Some y => x =? y
  | _, _ => false
  end.

(** [parseInt(c, 10)] where [c] is [s[i]]: one code unit, or [undefined]. *)
Definition parseInt_char (c : option ascii) : num :=
  match c with
  | Some a => if is_digit a then Some (code a - 48) else None
  | None => None
  end.

(** Number to string, as string concatenation and [toString] do it. *)
Definition to_string (n : num) : jsstring :=
  match n with
  | Some z => js (NilZero.string_of_int (Z.to_int z))
  | None => js "NaN"
  end.

(** [s.substring(a, b)] for [a <= b]. *)
Definition substring (a b : nat) (s : jsstring) : jsstring :=
  firstn (b - a) (skipn a s).

Fixpoint startsWith (p s : jsstring) : bool :=
  match p, s with
  | [], _ => true
  | _ :: _, [] => false
  | a :: p', b :: s' => Ascii.eqb a b && startsWith p' s'
  end.

(** Truthiness of [string | null | undefined]: a non-empty string. *)
Definition nonempty_string (h : option jsstring) : option jsstring :=
  match h with
  | Some (c :: s) => Some (c :: s)
  | _ => None
  end.

(** [for (let i = 0; i < n; i++) acc = body(i, acc)] *)
Definition for_upto {A : Type} (n : nat) (body : nat -> A -> A) (init : A) : A :=
  fold_left (fun acc i => body i acc) (seq 0 n) init.

(** *** Binary64 arithmetic

    An integer of magnitude up to 2^53 held in a number is a [Z];
    [of_Z] is the binary64 value that holds it, for the places where the
    code multiplies it by a decimal fraction or divides it. *)
Definition of_Z (z : Z) : float :=
  SF2Prim (binary_normalize prec emax z 0 false).

(** [Math.round(x)] for a finite [x = (-1)^s * m * 2^e]: the integer
    nearest to [x], the one towards plus infinity when two are equally
    near, that is the floor of [x + 1/2] taken exactly. The value is read
    as an integer, so that [-0] is [0]. NaN and the infinities, which
    [Math.round] returns as they are, arise from no integer below 2^53 in
    the places where it is called; the value 0 stands for them. *)
Definition Math_round (x : float) : Z :=
  match Prim2SF x with
  | S754_finite s m e =>
      let n := if s then Z.neg m else Z.pos m in
      if 0 <=? e then n * 2 ^ e
      else (2 * n + 2 ^ (- e)) / 2 ^ (1 - e)
  | _ => 0
  end.

End JS.

(** ** ISBN conversion ([keepaApi.ts], lines 28-51) *)

Module Isbn.
Import JS.

Definition isbn10to13 (isbn10 : jsstring) : option jsstring :=
  let clean := strip isbn10 in
  if negb (Nat.eqb (List.length clean) 10) then None
  else
    let base := js "978" ++ substring 0 9 clean in
    let sum :=
      for_upto 12
        (fun i sum =>
           add sum (mul (parseInt_char (nth_error base i))
                        (Some (if Nat.eqb (Nat.modulo i 2) 0 then 1 else 3))))
        (Some 0) in
    let checkDigit := rem (sub (Some 10) (rem sum (Some 10))) (Some 10) in
    Some (base ++ to_string checkDigit).

Definition isbn13to10 (isbn13 : jsstring) : option jsstring :=
  let clean := strip isbn13 in
  if negb (Nat.eqb (List.length clean) 13) || negb (startsWith (js "978") clean)
  then None
  else
    let base := substring 3 12 clean in
    let sum :=
      for_upto 9
        (fun i sum =>
           add sum (mul (parseInt_char (nth_error base i))
                        (Some (10 - Z.of_nat i))))
        (Some 0) in
    let remainder := rem sum (Some 11) in
    let checkDigit :=
      if strict_eq remainder (Some 0) then js "0"
      else if strict_eq remainder (Some 1) then js "X"
      else to_string (sub (Some 11) remainder) in
    Some (base ++ checkDigit).

(** The ISBN-10 validity rule, independent of the code: ten characters,
    the first nine decimal digits, the last a digit or [X] (worth ten), and
    the sum of the values weighted 10 down to 1 a multiple of eleven. *)
Definition check_value (c : ascii) : option Z :=
  if is_digit c then Some (code c - 48)
  else if code c =? 88 then Some 10
  else None.

Fixpoint weighted (w : Z) (vs : list Z) : Z :=
  match vs with
  | [] => 0
  | v :: vs' => w * v + weighted (w - 1) vs'
  end.

Definition valid_isbn10 (x : jsstring) : bool :=
  Nat.eqb (List.length x) 10
  && forallb is_digit (firstn 9 x)
  && match nth_error x 9 with
     | Some c =>
         match check_value c with
         | Some v =>
             (weighted 10 (map (fun d => code d - 48) (firstn 9 x) ++ [v])) mod 11 =? 0
         | None => false
         end
     | None => false
     end.

(** The composition [isbn13to10(isbn10to13(x))], null propagated. *)
Definition isbn_there_and_back (x : jsstring) : option jsstring :=
  match isbn10to13 x with
  | Some y => isbn13to10 y
  | None => None
  end.

(** Malformed input in the specification's sense: after cleaning, the
    length is wrong, the prefix is wrong (ISBN-13), or a character is not
    numeric (the last character of an ISBN-10 may be [X]). *)
Definition malformed_isbn10 (s : jsstring) : bool :=
  let clean := strip s in
  negb (Nat.eqb (List.length clean) 10)
  || negb (forallb is_digit (firstn 9 clean))
  || negb (forallb (fun c => is_digit c || (code c =? 88)) (skipn 9 clean)).

Definition malformed_isbn13 (s : jsstring) : bool :=
  let clean := strip s in
  negb (Nat.eqb (List.length clean) 13)
  || negb (startsWith (js "978") clean)
  || negb (forallb is_digit clean).

End Isbn.

(** ** The check-digit rule of ISBN-13

    The validity rule of the standard, independent of the code: thirteen
    decimal digits whose values, weighted 1 and 3 in turn, add up to a
    multiple of ten. *)

Module Isbn13.
Import JS.

Fixpoint ean_sum (weight_one : bool) (vs : list Z) : Z :=
  match vs with
  | [] => 0
  | v :: vs' => (if weight_one then v else 3 * v) + ean_sum (negb weight_one) vs'
  end.

Definition valid_isbn13 (y : jsstring) : bool :=
  Nat.eqb (List.length y) 13
  && forallb is_digit y
  && (ean_sum true (map (fun d => code d - 48) y) mod 10 =? 0).

(** The composition [isbn10to13(isbn13to10(y))], null propagated. *)
Definition isbn_back_and_there (y : jsstring) : option jsstring :=
  match Isbn.isbn13to10 y with
  | Some x => Isbn.isbn10to13 x
  | None => None
  end.

End Isbn13.

(** ** Fee calculation ([keepaApi.ts], lines 265-289)

    The prices are integers (cents). The two fees and the two ROI are
    computed in binary64 and rounded by [Math.round]; everything else is
    integer arithmetic, which is exact in the source as long as the
    values stay below 2^53: the properties take prices of magnitude below
    2^45. *)

Module Fees.
Import JS.

Record FeeBreakdown : Type := mkFees {
  fbaProfit : Z;
  fbmProfit : Z;
  fbaRoi : Z;
  fbmRoi : Z;
  referralFee : Z;
  fulfillmentFee : Z
}.

Local Set Warnings "-inexact-float".

(** [Math.round(amazonPriceCents * 0.15)] *)
Definition referralFee_of (amazonPriceCents : Z) : Z :=
  Math_round (of_Z amazonPriceCents * 0.15)%float.

(** [Math.round(ebayPriceCents * 0.13)] *)
Definition ebayFee_of (ebayPriceCents : Z) : Z :=
  Math_round (of_Z ebayPriceCents * 0.13)%float.

Definition totalEbayCost_of (ebayPriceCents : Z) : Z :=
  ebayPriceCents + ebayFee_of ebayPriceCents.

(** [totalEbayCost > 0 ? Math.round((profit / totalEbayCost) * 100) : 0] *)
Definition roi_of (profit totalEbayCost : Z) : Z :=
  if 0 <? totalEbayCost
  then Math_round ((of_Z profit / of_Z totalEbayCost) * 100)%float
  else 0.

Definition calculateFees (ebayPriceCents amazonPriceCents : Z) : FeeBreakdown :=
  let referralFee := referralFee_of amazonPriceCents in
  let fulfillmentFee := 354 in
  let inboundShipping := 50 in
  let closingFee := 180 in
  let fbmShipping := 399 in

  let ebayFee := ebayFee_of ebayPriceCents in
  let totalEbayCost := ebayPriceCents + ebayFee in

  let fbaProfit :=
    amazonPriceCents - referralFee - fulfillmentFee - inboundShipping
    - totalEbayCost in
  let fbmProfit :=
    amazonPriceCents - referralFee - closingFee - fbmShipping - totalEbayCost in

  let fbaRoi := roi_of fbaProfit totalEbayCost in
  let fbmRoi := roi_of fbmProfit totalEbayCost in

  {| fbaProfit := fbaProfit; fbmProfit := fbmProfit;
     fbaRoi := fbaRoi; fbmRoi := fbmRoi;
     referralFee := referralFee; fulfillmentFee := fulfillmentFee |}.

(** *** The formulas of the specification, in exact arithmetic *)

(** The integer nearest to [n / d], the upper one of two equally near. *)
Definition round_half_up (n d : Z) : Z := (2 * n + d) / (2 * d).

Definition spec_referralFee (sellPrice : Z) : Z := round_half_up (15 * sellPrice) 100.
Definition spec_marketplaceFee (buyPrice : Z) : Z := round_half_up (13 * buyPrice) 100.
Definition spec_totalCost (buyPrice : Z) : Z := buyPrice + spec_marketplaceFee buyPrice.

Definition spec_platformProfit (buyPrice sellPrice : Z) : Z :=
  sellPrice - spec_referralFee sellPrice - 354 - 50 - spec_totalCost buyPrice.
Definition spec_merchantProfit (buyPrice sellPrice : Z) : Z :=
  sellPrice - spec_referralFee sellPrice - 180 - 399 - spec_totalCost buyPrice.

(** [round(profit / totalCost * 100)] when [totalCost > 0], else 0. *)
Definition spec_roi (profit totalCost : Z) : Z :=
  if 0 <? totalCost then round_half_up (100 * profit) totalCost else 0.

End Fees.

(** ** Rounding in binary64: what the proofs speak of *)

Module Rounding.

(** The record after some right shifts of [M], [A] being two to the number
    of shifts: the quotient, and where the remainder lies with respect to
    the half of [A]. *)
Definition shifted (M A : Z) (rec : shr_record) : Prop :=
  exists rem,
    M = shr_m rec * A + rem /\ 0 <= rem < A /\ 0 <= shr_m rec
    /\ (shr_r rec = true <-> A <= 2 * rem)
    /\ (shr_s rec = false <-> rem = 0 \/ 2 * rem = A).

Definition signed (negative : bool) (m : Z) : Z := if negative then - m else m.

End Rounding.

(** ** The sign of a binary64 value *)

Module Sign.

(** The value is NaN, or a zero, a finite number or an infinity whose sign
    bit is [sx] ([true] for minus). *)
Definition sign_or_nan (sx : bool) (x : spec_float) : Prop :=
  match x with
  | S754_zero s | S754_infinity s | S754_finite s _ _ => s = sx
  | S754_nan => True
  end.

End Sign.

(** ** Decision logic ([keepaApi.ts], lines 292-338)

    The arguments are arbitrary binary64 numbers (NaN, infinities and
    fractions included); they are only compared with constants. The score
    is built from integer constants alone. *)

Module Decision.
Import JS.

Inductive verdict : Type := BUY | REVIEW | REJECT.

Record result : Type := mkResult {
  decision : verdict;
  reason : jsstring;
  score : Z
}.

(** Truthiness of a number: every number but [0], [-0] and NaN. *)
Definition truthy (x : float) : bool := negb (is_zero x || is_nan x).

(** [v && p(v)] in a condition, for [v : number | null]. *)
Definition truthy_and (v : option float) (p : float -> bool) : bool :=
  match v with
  | Some x => truthy x && p x
  | None => false
  end.

(** [v !== null && p(v)] *)
Definition present_and (v : option float) (p : float -> bool) : bool :=
  match v with
  | Some x => p x
  | None => false
  end.

Definition profit_bonus (profit : float) (score : Z) : Z :=
  if (1000 <=? profit)%float then score + 20
  else if (500 <=? profit)%float then score + 10
  else score.

Definition roi_bonus (roi : float) (score : Z) : Z :=
  if (100 <=? roi)%float then score + 15
  else if (50 <=? roi)%float then score + 10
  else score.

Definition rank_bonus (salesRank : option float) (score : Z) : Z :=
  match salesRank with
  | Some r =>
      if truthy r then
        if (r <? 100000)%float then score + 15
        else if (r <? 500000)%float then score + 10
        else if (r <? 1000000)%float then score + 5
        else score
      else score
  | None => score
  end.

Definition velocity_bonus (salesDrops30 : option float) (score : Z) : Z :=
  if truthy_and salesDrops30 (fun d => (10 <=? d)%float) then score + 10
  else if truthy_and salesDrops30 (fun d => (5 <=? d)%float) then score + 5
  else score.

Definition competition_penalty (fbaCount : float) (score : Z) : Z :=
  if (10 <? fbaCount)%float then score - 10
  else if (5 <? fbaCount)%float then score - 5
  else score.

(** Lines 307-337: the scoring stage. *)
Definition scoring
    (profit roi : float) (salesRank salesDrops30 : option float)
    (fbaCount : float) : result :=
  let score := 50 in
  let score := profit_bonus profit score in
  let score := roi_bonus roi score in
  let score := rank_bonus salesRank score in
  let score := velocity_bonus salesDrops30 score in
  let score := competition_penalty fbaCount score in
  let score := Z.min 100 (Z.max 0 score) in
  if 70 <=? score then mkResult BUY (js "Strong opportunity") score
  else if 50 <=? score then mkResult REVIEW (js "Needs review") score
  else mkResult REJECT (js "Below threshold") score.

Definition makeDecision
    (profit roi : float) (salesRank salesDrops30 : option float)
    (fbaCount : float) (isAmazon : bool) : result :=
  if (profit <? 300)%float then mkResult REJECT (js "Profit below $3") 0
  else if (roi <? 30)%float then mkResult REJECT (js "ROI below 30%") 0
  else if truthy_and salesRank (fun r => (3000000 <? r)%float)
  then mkResult REJECT (js "Rank too high (>3M)") 0
  else if present_and salesDrops30 (fun d => (d <? 2)%float)
  then mkResult REJECT (js "No sales velocity") 0
  else if isAmazon then mkResult REJECT (js "Amazon is selling") 0
  else scoring profit roi salesRank salesDrops30 fbaCount.

(** *** The policy as the specification words it *)

Record inputs : Type := mkInputs {
  in_profit : float;
  in_roi : float;
  in_salesRank : option float;
  in_salesDrops30 : option float;
  in_fbaCount : float;
  in_isAmazon : bool
}.

Definition decide (i : inputs) : result :=
  makeDecision (in_profit i) (in_roi i) (in_salesRank i) (in_salesDrops30 i)
    (in_fbaCount i) (in_isAmazon i).

(** The knockout rules in their precedence order, each with its reason. *)
Definition knockout_rules : list ((inputs -> bool) * jsstring) :=
  [ (fun i => (in_profit i <? 300)%float, js "Profit below $3");
    (fun i => (in_roi i <? 30)%float, js "ROI below 30%");
    (fun i => present_and (in_salesRank i) (fun r => (3000000 <? r)%float),
     js "Rank too high (>3M)");
    (fun i => present_and (in_salesDrops30 i) (fun d => (d <? 2)%float),
     js "No sales velocity");
    (fun i => in_isAmazon i, js "Amazon is selling") ].

Definition first_knockout (i : inputs) : option jsstring :=
  option_map snd (find (fun rule => fst rule i) knockout_rules).

(** The additive adjustments, each read off the specification's list. *)
Definition adj_profit (i : inputs) : Z :=
  if (1000 <=? in_profit i)%float then 20
  else if (500 <=? in_profit i)%float then 10 else 0.

Definition adj_roi (i : inputs) : Z :=
  if (100 <=? in_roi i)%float then 15
  else if (50 <=? in_roi i)%float then 10 else 0.

Definition adj_rank (i : inputs) : Z :=
  match in_salesRank i with
  | Some r =>
      if (r <? 100000)%float then 15
      else if (r <? 500000)%float then 10
      else if (r <? 1000000)%float then 5 else 0
  | None => 0
  end.

Definition adj_velocity (i : inputs) : Z :=
  match in_salesDrops30 i with
  | Some d =>
      if (10 <=? d)%float then 10
      else if (5 <=? d)%float then 5 else 0
  | None => 0
  end.

Definition adj_competition (i : inputs) : Z :=
  if (10 <? in_fbaCount i)%float then -10
  else if (5 <? in_fbaCount i)%float then -5 else 0.

Definition clamp (z : Z) : Z := Z.min 100 (Z.max 0 z).

Definition spec_score (i : inputs) : Z :=
  clamp (50 + adj_profit i + adj_roi i + adj_rank i + adj_velocity i
         + adj_competition i).

(** The rank adjustment of the code: a rank of zero counts as unknown. *)
Definition adj_rank_nonzero (i : inputs) : Z :=
  match in_salesRank i with
  | Some r => if is_zero r then 0 else adj_rank i
  | None => 0
  end.

Definition code_score (i : inputs) : Z :=
  clamp (50 + adj_profit i + adj_roi i + adj_rank_nonzero i + adj_velocity i
         + adj_competition i).

Definition verdict_of_score (s : Z) : verdict :=
  if 70 <=? s then BUY else if 50 <=? s then REVIEW else REJECT.

End Decision.

(** ** The retrying fetch wrapper ([ebayApi.ts], lines 94-100, 140-201)

    The transport is the sequence of outcomes of the successive calls of
    [fetch]: the call of attempt [n] resolves with a response or rejects.
    A run is the list of the calls and waits it makes, in order, and how
    it ends. *)

Module Retry.
Import JS.

Record config : Type := mkConfig {
  maxRetries : nat;
  initialDelayMs : Z;
  maxDelayMs : Z;
  backoffMultiplier : Z
}.

Definition RATE_LIMIT_CONFIG : config :=
  {| maxRetries := 2; initialDelayMs := 1000; maxDelayMs := 30000;
     backoffMultiplier := 2 |}.

(** What the wrapper reads of a response: the status, and
    [headers.get('Retry-After')]. *)
Record response : Type := mkResponse {
  status : Z;
  retryAfter : option jsstring;
  payload : jsstring
}.

Inductive error : Type :=
  | RateLimitExceeded (context : jsstring) (retries : nat)
      (* `${context}: Rate limit exceeded after ${maxRetries} retries` *)
  | ServerError (context : jsstring) (status : Z)
      (* `${context}: Server error ${status} after retries` *)
  | TransportError (message : jsstring)
      (* what [fetch] rejected with *)
  | RequestFailed (context : jsstring).
      (* `${context}: Request failed after retries` *)

Inductive outcome : Type :=
  | Responded (r : response)
  | Rejected (e : error).

Definition transport : Type := nat -> outcome.

Inductive event : Type :=
  | Fetch
  | Sleep (ms : Z).

Inductive result : Type :=
  | Return (r : response)
  | Throw (e : error).

(** [parseInt(s, 10)]: leading white space, an optional sign, then the
    longest run of decimal digits; NaN when there is no digit. The value
    is the integer that the digits write, which is the number the source
    holds as long as its magnitude is below 2^53. *)
Fixpoint skip_spaces (s : jsstring) : jsstring :=
  match s with
  | c :: s' => if is_space c then skip_spaces s' else s
  | [] => []
  end.

Fixpoint leading_digits (s : jsstring) (acc : num) : num :=
  match s with
  | c :: s' =>
      if is_digit c
      then leading_digits s'
             (Some (10 * match acc with Some a => a | None => 0 end
                    + (code c - 48)))
      else acc
  | [] => acc
  end.

Definition parseInt (s : jsstring) : num :=
  match skip_spaces s with
  | c :: s' =>
      if code c =? 45 then option_map Z.opp (leading_digits s' None)
      else if code c =? 43 then leading_digits s' None
      else leading_digits (c :: s') None
  | [] => None
  end.

Section FetchWithRetry.

Variable cfg : config.
Variable context : jsstring.
Variable net : transport.

(** [Math.min(delay * backoffMultiplier, maxDelayMs)] *)
Definition backoff (delay : Z) : Z :=
  Z.min (delay * backoffMultiplier cfg) (maxDelayMs cfg).

(** Lines 157-167: the wait after a 429. The product
    [retrySeconds * 1000] is the one of the source as long as it is exact
    in binary64, that is for a magnitude of [retrySeconds] below 2^43;
    the properties that give the value of this wait take the header in
    that range. *)
Definition waitTime429 (r : response) (delay : Z) : Z :=
  let waitTime := delay in
  let waitTime :=
    match nonempty_string (retryAfter r) with
    | Some h =>
        match parseInt h with
        | Some retrySeconds => retrySeconds * 1000
        | None => waitTime
        end
    | None => waitTime
    end in
  Z.min waitTime (maxDelayMs cfg).

(** The [for] loop of lines 148-198, by recursion on the number [k] of
    iterations left: [attempt + k = maxRetries + 1], so that [k = 0] is the
    exit [attempt > maxRetries] and line 200. *)
Fixpoint attempts (k attempt : nat) (delay : Z) (lastError : option error)
  : list event * result :=
  match k with
  | O =>
      ([], Throw (match lastError with
                  | Some e => e
                  | None => RequestFailed context
                  end))
  | S k' =>
      let continue (evs : list event) (delay' : Z) (lastError' : option error) :=
        let '(t, r) := attempts k' (S attempt) delay' lastError' in
        (evs ++ t, r) in
      (* the [catch] block, lines 188-197 *)
      let catch (evs : list event) (e : error) :=
        if (attempt <? maxRetries cfg)%nat
        then continue (evs ++ [Sleep delay]) (backoff delay) (Some e)
        else continue evs delay (Some e) in
      match net attempt with
      | Rejected e => catch [Fetch] e
      | Responded r =>
          if status r =? 429 then
            if (attempt =? maxRetries cfg)%nat
            then catch [Fetch] (RateLimitExceeded context (maxRetries cfg))
            else continue [Fetch; Sleep (waitTime429 r delay)]
                   (backoff delay) lastError
          else if (500 <=? status r) && (status r <? 600) then
            if (attempt =? maxRetries cfg)%nat
            then catch [Fetch] (ServerError context (status r))
            else continue [Fetch; Sleep delay] (backoff delay) lastError
          else ([Fetch], Return r)
      end
  end.

Definition fetchWithRetry : list event * result :=
  attempts (S (maxRetries cfg)) 0 (initialDelayMs cfg) None.

(** *** Reading a run *)

Definition is_fetch (e : event) : bool :=
  match e with Fetch => true | Sleep _ => false end.

Definition calls (evs : list event) : nat :=
  List.length (filter is_fetch evs).

Fixpoint sleeps (evs : list event) : list Z :=
  match evs with
  | Sleep ms :: evs' => ms :: sleeps evs'
  | Fetch :: evs' => sleeps evs'
  | [] => []
  end.

(** An outcome the wrapper retries: a 429, a 5xx, or a rejection. *)
Definition retryable (o : outcome) : bool :=
  match o with
  | Responded r =>
      (status r =? 429) || ((500 <=? status r) && (status r <? 600))
  | Rejected _ => true
  end.

(** The backoff delay in force at attempt [n]. *)
Fixpoint delay_at (n : nat) : Z :=
  match n with
  | O => initialDelayMs cfg
  | S n' => backoff (delay_at n')
  end.

(** The wait that follows the retried attempt [n]. *)
Definition wait_after (n : nat) : Z :=
  match net n with
  | Responded r =>
      if status r =? 429 then waitTime429 r (delay_at n) else delay_at n
  | Rejected _ => delay_at n
  end.

(** [n] rounds of a call and its wait, from attempt [from]. *)
Definition rounds (from n : nat) : list event :=
  flat_map (fun i => [Fetch; Sleep (wait_after i)]) (seq from n).

(** What is thrown when the last attempt's outcome is still retryable. *)
Definition final_error (o : outcome) : error :=
  match o with
  | Responded r =>
      if status r =? 429 then RateLimitExceeded context (maxRetries cfg)
      else ServerError context (status r)
  | Rejected e => e
  end.

(** The wait after a 429 as the specification words it: the header's
    seconds in milliseconds when present and parseable, else the backoff
    delay. *)
Definition claimed_wait429 (r : response) (delay : Z) : Z :=
  match retryAfter r with
  | Some h =>
      match parseInt h with
      | Some retrySeconds => retrySeconds * 1000
      | None => delay
      end
  | None => delay
  end.

Definition rate_limit_or_server_error (e : error) : bool :=
  match e with
  | RateLimitExceeded _ _ | ServerError _ _ => true
  | _ => false
  end.

End FetchWithRetry.

(** Sample transports. *)
Definition ok200 : response := mkResponse 200 None (js "{}").
Definition busy429 (h : option jsstring) : response := mkResponse 429 h (js "").
Definition down503 : response := mkResponse 503 None (js "").

(** 429 without header, then 503, then success. *)
Definition net_recovers : transport :=
  fun n =>
    match n with
    | O => Responded (busy429 None)
    | S O => Responded down503
    | _ => Responded ok200
    end.

(** 429 with [Retry-After: 60], then the connection fails twice. *)
Definition net_retry_after_60 : transport :=
  fun n =>
    match n with
    | O => Responded (busy429 (Some (js "60")))
    | _ => Rejected (TransportError (js "fetch failed"))
    end.

(** 429 without header on every call. *)
Definition net_always_429 : transport := fun _ => Responded (busy429 None).

End Retry.

(** ** The shape of a run of the retrying wrapper *)

Module RetryRun.
Import JS. Import Retry.

(** A run of at most [k] calls: the calls are separated by single waits,
    the last event is a call, no wait is longer than [maxDelayMs], and a
    response that is returned is neither a 429 nor a 5xx. *)
Definition run_shape (cfg : config) (k : nat) (run : list event * result) : Prop :=
  calls (fst run) = S (List.length (sleeps (fst run)))
  /\ (calls (fst run) <= k)%nat
  /\ last (fst run) Fetch = Fetch
  /\ Forall (fun ms => ms <= maxDelayMs cfg) (sleeps (fst run))
  /\ match snd run with
     | Return r => retryable (Responded r) = false
     | Throw _ => True
     end.

(** The sum of the waits of a run. *)
Definition total_wait (evs : list event) : Z := fold_right Z.add 0 (sleeps evs).

End RetryRun.

(** ** ISBN extraction from a listing ([ebayApi.ts], lines 438-455) *)

Module Extract.
Import JS.

Record aspect : Type := mkAspect {
  aspect_type : jsstring;
  name : jsstring;
  value : jsstring
}.

(** The fields of [EbayItemSummary] that [extractISBN] reads; an optional
    field that is absent is [None]. *)
Record EbayItemSummary : Type := mkItem {
  title : jsstring;
  isbn : option (list jsstring);
  gtin : option jsstring;
  localizedAspects : option (list aspect)
}.

(** [toLowerCase] on code units below 256: A-Z, and the Latin-1 capitals
    U+00C0-U+00DE but the multiplication sign. *)
Definition toLowerCase_char (c : ascii) : ascii :=
  let n := code c in
  if ((65 <=? n) && (n <=? 90))
     || ((192 <=? n) && (n <=? 222) && negb (n =? 215))
  then ascii_of_nat (Z.to_nat (n + 32))
  else c.

Definition toLowerCase (s : jsstring) : jsstring := map toLowerCase_char s.

(** [hay.includes(needle)] *)
Fixpoint includes (needle hay : jsstring) : bool :=
  startsWith needle hay
  || match hay with
     | _ :: hay' => includes needle hay'
     | [] => false
     end.

(** [\w] without the unicode flag: [A-Za-z0-9_]. *)
Definition is_word (c : ascii) : bool :=
  let n := code c in
  is_digit c || ((65 <=? n) && (n <=? 90)) || ((97 <=? n) && (n <=? 122))
  || (n =? 95).

Definition is_word_at (c : option ascii) : bool :=
  match c with
  | Some a => is_word a
  | None => false
  end.

(** [\b] between the character before and the character after. *)
Definition boundary (prev next : option ascii) : bool :=
  xorb (is_word_at prev) (is_word_at next).

(** [\d{n}] at the head of [s]: the digits and what follows them. *)
Fixpoint take_digits (n : nat) (s : jsstring) : option (jsstring * jsstring) :=
  match n with
  | O => Some ([], s)
  | S n' =>
      match s with
      | c :: s' =>
          if is_digit c then
            match take_digits n' s' with
            | Some (ds, rest) => Some (c :: ds, rest)
            | None => None
            end
          else None
      | [] => None
      end
  end.

(** [\b\d{n}\b] at a position, [prev] being the character before it. *)
Definition digits_here (n : nat) (prev : option ascii) (s : jsstring)
  : option jsstring :=
  if boundary prev (hd_error s) then
    match take_digits n s with
    | Some (ds, rest) =>
        if boundary (Some (last ds "0"%char)) (hd_error rest) then Some ds
        else None
    | None => None
    end
  else None.

(** [/\b(\d{10}|\d{13})\b/] at a position: the first alternative, then
    the second. *)
Definition isbn_here (prev : option ascii) (s : jsstring) : option jsstring :=
  match digits_here 10 prev s with
  | Some ds => Some ds
  | None => digits_here 13 prev s
  end.

(** The leftmost position at which the pattern matches; the result is the
    capture group. *)
Fixpoint scan (prev : option ascii) (s : jsstring) : option jsstring :=
  match isbn_here prev s with
  | Some ds => Some ds
  | None =>
      match s with
      | c :: s' => scan (Some c) s'
      | [] => None
      end
  end.

(** [title.match(/\b(\d{10}|\d{13})\b/)], then [isbnMatch[1]] *)
Definition title_match (title : jsstring) : option jsstring := scan None title.

(** Each [if (...) return ...;] is a match whose other branch is the rest
    of the body, bound first. *)
Definition extractISBN (item : EbayItemSummary) : option jsstring :=
  let from_title :=
    match title_match (title item) with
    | Some group1 => Some group1
    | None => None
    end in
  let from_aspects :=
    match localizedAspects item with
    | Some aspects =>
        match find (fun a => includes (js "isbn") (toLowerCase (name a)))
                aspects with
        | Some isbnAspect => Some (value isbnAspect)
        | None => from_title
        end
    | None => from_title
    end in
  let from_gtin :=
    match gtin item with
    | Some (c :: g) =>
        let cleanGtin := strip (c :: g) in
        if Nat.eqb (List.length cleanGtin) 10
           || Nat.eqb (List.length cleanGtin) 13
        then Some cleanGtin
        else from_aspects
    | _ => from_aspects
    end in
  match isbn item with
  | Some (first :: _) => Some first
  | _ => from_gtin
  end.

(** *** The four rules as the specification lists them *)

Definition rule_explicit (item : EbayItemSummary) : option jsstring :=
  match isbn item with
  | Some l => hd_error l
  | None => None
  end.

Definition rule_gtin (item : EbayItemSummary) : option jsstring :=
  match gtin item with
  | Some g =>
      let n := List.length (strip g) in
      if Nat.eqb n 10 || Nat.eqb n 13 then Some (strip g) else None
  | None => None
  end.

Definition rule_aspect (item : EbayItemSummary) : option jsstring :=
  match localizedAspects item with
  | Some aspects =>
      option_map value
        (find (fun a => includes (js "isbn") (toLowerCase (name a))) aspects)
  | None => None
  end.

Definition rule_title (item : EbayItemSummary) : option jsstring :=
  title_match (title item).

(** What the words of the rules mean, written without the functions of
    the code. A hyphen or a white-space character (of those below 256:
    space, TAB, LF, VT, FF, CR and the no-break space): *)
Definition separator (c : ascii) : Prop :=
  In c ["-"; " "; "009"; "010"; "011"; "012"; "013"; "160"]%char.

(** [clean] is [g] without its hyphens and white space. *)
Inductive cleaned : jsstring -> jsstring -> Prop :=
  | cleaned_nil : cleaned [] []
  | cleaned_skip (c : ascii) (g clean : jsstring) :
      separator c -> cleaned g clean -> cleaned (c :: g) clean
  | cleaned_keep (c : ascii) (g clean : jsstring) :
      ~ separator c -> cleaned g clean -> cleaned (c :: g) (c :: clean).

(** A name that contains "isbn" in any letter case: the four letters in
    a row, each one small or capital. *)
Definition names_isbn (name : jsstring) : Prop :=
  exists (pre : jsstring) (i s b n : ascii) (post : jsstring),
    name = pre ++ [i; s; b; n] ++ post
    /\ (i = "i" \/ i = "I")%char
    /\ (s = "s" \/ s = "S")%char
    /\ (b = "b" \/ b = "B")%char
    /\ (n = "n" \/ n = "N")%char.

Fixpoint first_match {A B : Type} (rules : list (A -> option B)) (x : A)
  : option B :=
  match rules with
  | rule :: rules' =>
      match rule x with
      | Some y => Some y
      | None => first_match rules' x
      end
  | [] => None
  end.

(** The character just before the position that follows [pre], [prev]
    being the character before [pre]. *)
Definition char_before (prev : option ascii) (pre : jsstring) : option ascii :=
  fold_left (fun _ c => Some c) pre prev.

(** What the pattern tests at a position: [ds] are 10 or 13 characters
    that pass [\d], and neither the character just before (after [prev]
    and [pre]) nor the one just after (at the head of [post]) passes
    [\w]. *)
Definition pattern_at (prev : option ascii) (pre ds post : jsstring) : Prop :=
  (List.length ds = 10%nat \/ List.length ds = 13%nat)
  /\ forallb is_digit ds = true
  /\ is_word_at (char_before prev pre) = false
  /\ is_word_at (hd_error post) = false.

(** The same in the words of the rule, written without the functions of
    the code: a decimal digit, and a character of a word (a letter of the
    English alphabet, a decimal digit or the underscore). *)
Definition digit_char (c : ascii) : Prop := In c (js "0123456789").

Definition word_char (c : ascii) : Prop :=
  In c (js "abcdefghijklmnopqrstuvwxyzABCDEFGHIJKLMNOPQRSTUVWXYZ0123456789_").

Definition word_at (c : option ascii) : Prop :=
  match c with
  | Some a => word_char a
  | None => False
  end.

(** A standalone number of 10 or 13 digits at a position: the digits
    [ds], no character of a word just before (after [prev] and [pre]) and
    none just after (at the head of [post]). *)
Definition standalone (prev : option ascii) (pre ds post : jsstring) : Prop :=
  (List.length ds = 10%nat \/ List.length ds = 13%nat)
  /\ Forall digit_char ds
  /\ ~ word_at (char_before prev pre)
  /\ ~ word_at (hd_error post).

End Extract.

(** ** Normalization of a product payload ([keepaApi.ts], lines 81-120,
    149-227)

    The numbers of the payload are the integers of the upstream API
    (prices in cents, ranks, counts); an optional field that is absent is
    [None]. *)

Module Keepa.
Import JS.

Module PRICE_TYPES.
Definition AMAZON : nat := 0.
Definition NEW : nat := 1.
Definition USED : nat := 2.
Definition SALES_RANK : nat := 3.
Definition NEW_FBA : nat := 7.
Definition COUNT_NEW : nat := 11.
Definition COUNT_USED : nat := 12.
Definition RATING : nat := 16.
Definition COUNT_REVIEWS : nat := 17.
Definition BUY_BOX_USED : nat := 23.
Definition COUNT_NEW_FBA : nat := 28.
End PRICE_TYPES.

Record KeepaStats : Type := mkStats {
  current : option (list Z);
  avg30 : option (list Z);
  avg90 : option (list Z);
  stats_salesRankDrops90 : option Z;
  stats_salesRankDrops30 : option Z;
  stats_buyBoxPrice : option Z;
  offerCountNew : option Z;
  offerCountUsed : option Z;
  offerCountFBA : option Z;
  stats_outOfStockPercentage90 : option Z
}.

Record KeepaProductRaw : Type := mkRaw {
  raw_asin : jsstring;
  raw_title : option jsstring;
  csv : option (list (option (list Z)));
  stats : option KeepaStats;
  raw_lastUpdate : option Z
}.

(** The fields of [KeepaProduct] that are numbers or flags read off the
    payload. ([daysWithSales30], [daysWithSales90], which read the clock,
    and [imageUrl], [category] are left out.) *)
Record KeepaProduct : Type := mkProduct {
  asin : jsstring;
  title : jsstring;
  salesRank : option Z;
  amazonPrice : option Z;
  newPrice : option Z;
  usedPrice : option Z;
  newFbaPrice : option Z;
  buyBoxPrice : option Z;
  newOfferCount : Z;
  usedOfferCount : Z;
  fbaOfferCount : Z;
  rating : option Z;
  reviewCount : Z;
  salesRank30DayAvg : option Z;
  salesRank90DayAvg : option Z;
  salesRankDrops30 : option Z;
  salesRankDrops90 : option Z;
  avgPrice90 : option Z;
  outOfStockPercentage90 : option Z;
  isAmazon : bool;
  lastUpdate : Z
}.

(** [a ?? b] *)
Definition nullish {A : Type} (a : option A) (b : option A) : option A :=
  match a with
  | Some x => Some x
  | None => b
  end.

(** [a ?? d] with a value for [d] *)
Definition nullish_or {A : Type} (a : option A) (d : A) : A :=
  match a with
  | Some x => x
  | None => d
  end.

(** [o?.f] *)
Definition chain {A B : Type} (o : option A) (f : A -> option B) : option B :=
  match o with
  | Some x => f x
  | None => None
  end.

(** [a[i]], [undefined] out of range *)
Definition index {A : Type} (a : list A) (i : nat) : option A := nth_error a i.

(** [csv[i]] for [csv : (number[] | null)[]]: null and undefined alike
    are no series. *)
Definition series (csv : list (option (list Z))) (i : nat) : option (list Z) :=
  match nth_error csv i with
  | Some (Some s) => Some s
  | _ => None
  end.

Definition getLatestValue (csv : option (list Z)) : option Z :=
  match csv with
  | None => None
  | Some csv =>
      if (List.length csv <? 2)%nat then None
      else
        match nth_error csv (List.length csv - 1) with
        | Some value => if value <? 0 then None else Some value
        | None => None
        end
  end.

Definition keepaPriceToCents (price : option Z) : option Z :=
  match price with
  | None => None
  | Some price => if price <? 0 then None else Some price
  end.

Definition parseKeepaProduct (raw : KeepaProductRaw) : KeepaProduct :=
  let csv := nullish_or (csv raw) [] in
  let stats := stats raw in
  let currentStats := nullish_or (chain stats current) [] in

  let salesRank := getLatestValue (series csv PRICE_TYPES.SALES_RANK) in
  let salesRank30DayAvg :=
    chain (chain stats avg30) (fun a => index a PRICE_TYPES.SALES_RANK) in
  let salesRank90DayAvg :=
    chain (chain stats avg90) (fun a => index a PRICE_TYPES.SALES_RANK) in

  let price_of (i : nat) :=
    keepaPriceToCents
      (nullish (index currentStats i) (getLatestValue (series csv i))) in
  let amazonPrice := price_of PRICE_TYPES.AMAZON in
  let newPrice := price_of PRICE_TYPES.NEW in
  let usedPrice := price_of PRICE_TYPES.USED in
  let newFbaPrice := price_of PRICE_TYPES.NEW_FBA in

  let rawBuyBoxPrice := chain stats stats_buyBoxPrice in
  let buyBoxPrice :=
    match rawBuyBoxPrice with
    | Some p => if 0 <? p then Some p else None
    | None => None
    end in

  let newOfferCount :=
    nullish_or (nullish (chain stats offerCountNew)
                  (index currentStats PRICE_TYPES.COUNT_NEW)) 0 in
  let usedOfferCount :=
    nullish_or (nullish (chain stats offerCountUsed)
                  (index currentStats PRICE_TYPES.COUNT_USED)) 0 in
  let fbaOfferCount :=
    nullish_or (nullish (chain stats offerCountFBA)
                  (index currentStats PRICE_TYPES.COUNT_NEW_FBA)) 0 in

  let rating :=
    nullish (index currentStats PRICE_TYPES.RATING)
      (getLatestValue (series csv PRICE_TYPES.RATING)) in
  let reviewCount :=
    nullish_or
      (nullish (index currentStats PRICE_TYPES.COUNT_REVIEWS)
         (getLatestValue (series csv PRICE_TYPES.COUNT_REVIEWS))) 0 in

  let salesRankDrops90 := chain stats stats_salesRankDrops90 in
  let salesRankDrops30 :=
    nullish (chain stats stats_salesRankDrops30)
      (match salesRankDrops90 with
       | Some d => Some (Math_round (of_Z d / 3)%float)
       | None => None
       end) in

  let avgPrice90 :=
    keepaPriceToCents
      (chain (chain stats avg90) (fun a => index a PRICE_TYPES.NEW)) in

  let rawOos := chain stats stats_outOfStockPercentage90 in
  let outOfStockPercentage90 :=
    match rawOos with
    | Some o => if (0 <=? o) && (o <=? 100) then Some o else None
    | None => None
    end in

  {| asin := raw_asin raw;
     title := nullish_or (nonempty_string (raw_title raw)) [];
     salesRank := salesRank;
     amazonPrice := amazonPrice;
     newPrice := newPrice;
     usedPrice := usedPrice;
     newFbaPrice := newFbaPrice;
     buyBoxPrice := buyBoxPrice;
     newOfferCount := Z.max 0 newOfferCount;
     usedOfferCount := Z.max 0 usedOfferCount;
     fbaOfferCount := Z.max 0 fbaOfferCount;
     rating :=
       match rating with
       | Some r => if 0 <=? r then Some r else None
       | None => None
       end;
     reviewCount := Z.max 0 reviewCount;
     salesRank30DayAvg := salesRank30DayAvg;
     salesRank90DayAvg := salesRank90DayAvg;
     salesRankDrops30 := salesRankDrops30;
     salesRankDrops90 := salesRankDrops90;
     avgPrice90 := avgPrice90;
     outOfStockPercentage90 := outOfStockPercentage90;
     isAmazon :=
       match amazonPrice with
       | Some p => 0 <? p
       | None => false
       end;
     lastUpdate := nullish_or (raw_lastUpdate raw) 0 |}.


(** A payload whose raw numbers are negative or zero sentinels. *)
Definition raw_sentinels : KeepaProductRaw :=
  {| raw_asin := js "0441172717";
     raw_title := Some (js "Dune");
     csv := Some [Some [100; -1]; Some [100; 1299; 200; -1]; None;
                  Some [100; 52000; 200; -1]];
     stats :=
       Some {| current := Some [-1; -1; 899; 52000; -1; -1; -1; -2; -1; -1;
                                -1; -3; 4; -1; -1; -1; -1; -7];
               avg30 := Some [-1; 1200; 900; -1];
               avg90 := Some [-1; -1; 900; 48000];
               stats_salesRankDrops90 := Some 7;
               stats_salesRankDrops30 := None;
               stats_buyBoxPrice := Some 0;
               offerCountNew := Some (-1);
               offerCountUsed := None;
               offerCountFBA := Some (-2);
               stats_outOfStockPercentage90 := Some 101 |};
     raw_lastUpdate := None |}.

End Keepa.

(** ** The access-token cache ([ebayApi.ts], lines 89-92, 207-267)

    The program runs on one thread: a call of [getAccessToken] runs
    without interruption up to its first [await], and the continuation of
    an awaited request runs without interruption when the request ends.
    These two pieces are the transitions below, over the three variables
    of the module and the promises they hold; the environment chooses in
    which order callers arrive and requests end. *)

Module Token.
Import JS.

Record OAuthToken : Type := mkToken {
  access_token : jsstring;
  expires_in : Z;
  token_type : jsstring
}.

Inductive failure : Type :=
  | NotConfigured                            (* 'eBay API credentials not configured' *)
  | OAuthFailed (status : Z) (body : jsstring) (* `eBay OAuth failed: ...` *)
  | RequestError (e : Retry.error).          (* thrown by fetchWithRetry *)

Inductive settlement : Type :=
  | Fulfilled (token : jsstring)
  | Failed (e : failure).

(** How the awaited token request ends: [fetchWithRetry] returns a
    response that is ok and holds a token, or one that is not ok, or it
    throws. *)
Inductive upstream : Type :=
  | TokenResponse (t : OAuthToken)
  | ErrorResponse (status : Z) (body : jsstring)
  | Thrown (e : Retry.error).

Definition promise_id : Type := nat.

Record state : Type := mkState {
  cachedToken : option OAuthToken;
  tokenExpiresAt : Z;
  tokenFetchPromise : option promise_id;
  (** the promise whose body is suspended on the token request *)
  in_flight : option promise_id;
  (** the promises settled so far *)
  settled : list (promise_id * settlement);
  (** the number of promises created *)
  created : nat;
  (** the number of token requests sent upstream *)
  requests : nat
}.

Definition initial : state :=
  {| cachedToken := None; tokenExpiresAt := 0; tokenFetchPromise := None;
     in_flight := None; settled := []; created := 0; requests := 0 |}.

(** What a caller holds when [getAccessToken] returns. *)
Inductive handle : Type :=
  | Returned (token : jsstring)
  | Threw (e : failure)
  | Awaiting (p : promise_id).

(** [cachedToken && Date.now() < tokenExpiresAt - 300000] *)
Definition cache_valid (s : state) (now : Z) : option OAuthToken :=
  match cachedToken s with
  | Some t => if now <? tokenExpiresAt s - 300000 then Some t else None
  | None => None
  end.

Section GetAccessToken.

(** [CLIENT_ID] and [CLIENT_SECRET] are both set. *)
Variable configured : bool.

(** A call, at time [now], up to its return. *)
Definition getAccessToken (now : Z) (s : state) : handle * state :=
  if negb configured then (Threw NotConfigured, s)
  else
    match cache_valid s now with
    | Some t => (Returned (access_token t), s)
    | None =>
        match tokenFetchPromise s with
        | Some p => (Awaiting p, s)
        | None =>
            (* the body of the async arrow function, up to its await *)
            let p := created s in
            match cache_valid s now with
            | Some t =>
                (* it returns at once; [finally] clears the variable, and
                   the assignment then stores the promise *)
                (Awaiting p,
                 {| cachedToken := cachedToken s;
                    tokenExpiresAt := tokenExpiresAt s;
                    tokenFetchPromise := Some p;
                    in_flight := in_flight s;
                    settled := (p, Fulfilled (access_token t)) :: settled s;
                    created := S (created s);
                    requests := requests s |})
            | None =>
                (* fetchWithRetry is called: the request leaves *)
                (Awaiting p,
                 {| cachedToken := cachedToken s;
                    tokenExpiresAt := tokenExpiresAt s;
                    tokenFetchPromise := Some p;
                    in_flight := Some p;
                    settled := settled s;
                    created := S (created s);
                    requests := S (requests s) |})
            end
        end
    end.

(** The rest of the body, lines 248-263, when the request ends at time
    [now]. *)
Definition resume (u : upstream) (now : Z) (s : state) : state :=
  match in_flight s with
  | None => s
  | Some p =>
      match u with
      | TokenResponse token =>
          {| cachedToken := Some token;
             tokenExpiresAt := now + expires_in token * 1000;
             tokenFetchPromise := None;
             in_flight := None;
             settled := (p, Fulfilled (access_token token)) :: settled s;
             created := created s;
             requests := requests s |}
      | ErrorResponse status body =>
          {| cachedToken := cachedToken s;
             tokenExpiresAt := tokenExpiresAt s;
             tokenFetchPromise := None;
             in_flight := None;
             settled := (p, Failed (OAuthFailed status body)) :: settled s;
             created := created s;
             requests := requests s |}
      | Thrown e =>
          {| cachedToken := cachedToken s;
             tokenExpiresAt := tokenExpiresAt s;
             tokenFetchPromise := None;
             in_flight := None;
             settled := (p, Failed (RequestError e)) :: settled s;
             created := created s;
             requests := requests s |}
      end
  end.

(** What the environment does. *)
Inductive event : Type :=
  | Call (now : Z)
  | RequestEnds (u : upstream) (now : Z).

Definition step (e : event) (s : state) : list handle * state :=
  match e with
  | Call now => let '(h, s') := getAccessToken now s in ([h], s')
  | RequestEnds u now => ([], resume u now s)
  end.

(** A schedule: the handles given to the callers, in order, and the final
    state. *)
Fixpoint run (es : list event) (s : state) : list handle * state :=
  match es with
  | [] => ([], s)
  | e :: es' =>
      let '(hs, s1) := step e s in
      let '(hs', s2) := run es' s1 in
      (hs ++ hs', s2)
  end.

End GetAccessToken.

(** What the caller holding [h] receives, once it is known. *)
Fixpoint lookup (p : promise_id) (l : list (promise_id * settlement))
  : option settlement :=
  match l with
  | (q, r) :: l' => if Nat.eqb p q then Some r else lookup p l'
  | [] => None
  end.

Definition received (h : handle) (s : state) : option settlement :=
  match h with
  | Returned t => Some (Fulfilled t)
  | Threw e => Some (Failed e)
  | Awaiting p => lookup p (settled s)
  end.

Definition outcome_of (u : upstream) : settlement :=
  match u with
  | TokenResponse t => Fulfilled (access_token t)
  | ErrorResponse status body => Failed (OAuthFailed status body)
  | Thrown e => Failed (RequestError e)
  end.

(** In every reachable state the variable holds exactly the promise of
    the request in flight, and every request sent but the one in flight
    has ended. *)
Definition consistent (s : state) : Prop :=
  tokenFetchPromise s = in_flight s
  /\ requests s
     = (List.length (settled s)
        + match in_flight s with Some _ => 1 | None => 0 end)%nat.

End Token.

(** ** Equality of strings *)

Module JSString.
Import JS.

(** [a === b] on strings *)
Fixpoint string_eqb (a b : jsstring) : bool :=
  match a, b with
  | [], [] => true
  | x :: a', y :: b' => Ascii.eqb x y && string_eqb a' b'
  | _, _ => false
  end.

End JSString.

(** ** The item cache and [getEbayItem] ([ebayApi.ts], lines 102-131,
    313-348)

    The cache is a [Map] from strings: here the list of its entries in
    insertion order, one for each key. The clock is read once in each of
    the three cache functions; its value is an argument. *)

Module ItemCache.
Import JS. Import JSString.

Local Set Warnings "-register-all".

(** A value that [response.json()] can produce. *)
Inductive json : Type :=
  | JNull
  | JBool (b : bool)
  | JNumber (x : float)
  | JString (s : jsstring)
  | JArray (items : list json)
  | JObject (members : list (jsstring * json)).

(** Truthiness: all but [null], [false], [0], [-0], NaN and [""]. *)
Definition truthy (v : json) : bool :=
  match v with
  | JNull => false
  | JBool b => b
  | JNumber x => negb (is_zero x || is_nan x)
  | JString s => negb (Nat.eqb (List.length s) 0)
  | JArray _ | JObject _ => true
  end.

Record entry : Type := mkEntry {
  data : json;
  timestamp : Z
}.

Definition cache : Type := list (jsstring * entry).

(** [map.get(key)] *)
Fixpoint Map_get (m : cache) (key : jsstring) : option entry :=
  match m with
  | [] => None
  | (k, v) :: m' => if string_eqb k key then Some v else Map_get m' key
  end.

(** [map.set(key, v)]: the value of an existing key is replaced where it
    stands, a new key is added at the end. *)
Fixpoint Map_set (m : cache) (key : jsstring) (v : entry) : cache :=
  match m with
  | [] => [(key, v)]
  | (k, v0) :: m' =>
      if string_eqb k key then (k, v) :: m' else (k, v0) :: Map_set m' key v
  end.

(** [map.delete(key)] *)
Fixpoint Map_delete (m : cache) (key : jsstring) : cache :=
  match m with
  | [] => []
  | (k, v) :: m' =>
      if string_eqb k key then Map_delete m' key else (k, v) :: Map_delete m' key
  end.

(** The keys of a [Map] are distinct. *)
Definition well_formed (m : cache) : Prop := NoDup (map fst m).

Definition CACHE_TTL_MS : Z := 24 * 60 * 60 * 1000.

(** The result, [null] for a miss, and the cache after the call. *)
Definition getCachedItem (now : Z) (key : jsstring) (itemCache : cache)
  : json * cache :=
  match Map_get itemCache key with
  | Some cached =>
      if now - timestamp cached <? CACHE_TTL_MS then (data cached, itemCache)
      else (JNull, Map_delete itemCache key)
  | None => (JNull, itemCache)
  end.

Definition setCachedItem (now : Z) (key : jsstring) (data : json)
    (itemCache : cache) : cache :=
  Map_set itemCache key {| data := data; timestamp := now |}.

Definition expired (now : Z) (value : entry) : bool :=
  CACHE_TTL_MS <=? now - timestamp value.

Definition cleanupCache (now : Z) (itemCache : cache) : cache :=
  let keysToDelete :=
    map fst (filter (fun kv => expired now (snd kv)) itemCache) in
  fold_left Map_delete keysToDelete itemCache.

(** *** Calls that overlap

    The cache belongs to the module and every call of [getEbayItem]
    works on it. A call runs without interruption from one [await] to the
    next; while it waits, other calls run, and what they do to the cache
    is a sequence of the three operations above, each at the time it
    reads from the clock. *)

Inductive operation : Type :=
  | Lookup (now : Z) (key : jsstring)                (* getCachedItem *)
  | Store (now : Z) (key : jsstring) (data : json)   (* setCachedItem *)
  | Cleanup (now : Z).                               (* cleanupCache *)

Definition perform (itemCache : cache) (op : operation) : cache :=
  match op with
  | Lookup now key => snd (getCachedItem now key itemCache)
  | Store now key data => setCachedItem now key data itemCache
  | Cleanup now => cleanupCache now itemCache
  end.

Definition interleave (ops : list operation) (itemCache : cache) : cache :=
  fold_left perform ops itemCache.

Definition time_of (op : operation) : Z :=
  match op with
  | Lookup now _ | Store now _ _ | Cleanup now => now
  end.

(** What an operation stores under [key], if it does. *)
Definition stored_under (key : jsstring) (op : operation) : option json :=
  match op with
  | Store _ k data => if string_eqb k key then Some data else None
  | Lookup _ _ | Cleanup _ => None
  end.

(** The item stored last under [key] by [ops], [item] if none is. *)
Definition last_stored (key : jsstring) (ops : list operation) (item : json)
  : json :=
  fold_left
    (fun latest op =>
       match stored_under key op with
       | Some data => data
       | None => latest
       end)
    ops item.

(** *** [getEbayItem]

    The two awaited calls are arguments: how [getAccessToken] settles,
    and the transport that [fetchWithRetry] runs against. The clock is
    read when the cache is looked up ([now]) and again when the item is
    stored ([later]). The lookup is followed, when it misses, by the
    awaits of lines 321, 324 and 342: [others] are the operations of the
    other calls on the cache from the lookup to the point where this
    call stores its item or fails. [response.json()] is the function
    [parse], [None] when it throws. *)

Inductive failure : Type :=
  | TokenFailure (e : Token.failure)
  | FetchFailure (e : Retry.error)
  | GetItemFailed (status : Z)          (* `eBay get item failed: ${status}` *)
  | InvalidJson.

Inductive outcome : Type :=
  | Resolved (item : json)
  | RejectedWith (e : failure).

(** [response.ok] *)
Definition ok (r : Retry.response) : bool :=
  (200 <=? Retry.status r) && (Retry.status r <=? 299).

Definition cacheKey_of (itemId : jsstring) : jsstring := js "item:" ++ itemId.

Section GetEbayItem.

Variable parse : jsstring -> option json.

(** The outcome, the calls and waits made upstream, and the cache when
    the call settles. *)
Definition getEbayItem (itemId : jsstring) (now : Z)
    (token : Token.settlement) (net : Retry.transport) (later : Z)
    (others : list operation) (itemCache : cache)
  : outcome * list Retry.event * cache :=
  let cacheKey := cacheKey_of itemId in
  let '(cached, itemCache) := getCachedItem now cacheKey itemCache in
  if truthy cached then (Resolved cached, [], itemCache)
  else
    let itemCache := interleave others itemCache in
    match token with
    | Token.Failed e => (RejectedWith (TokenFailure e), [], itemCache)
    | Token.Fulfilled accessToken =>
        let '(events, fetched) :=
          Retry.fetchWithRetry Retry.RATE_LIMIT_CONFIG (js "eBay Get Item") net in
        match fetched with
        | Retry.Throw e => (RejectedWith (FetchFailure e), events, itemCache)
        | Retry.Return response =>
            if negb (ok response) then
              if Retry.status response =? 404
              then (Resolved JNull, events, itemCache)
              else (RejectedWith (GetItemFailed (Retry.status response)),
                    events, itemCache)
            else
              match parse (Retry.payload response) with
              | None => (RejectedWith InvalidJson, events, itemCache)
              | Some item =>
                  (Resolved item, events,
                   setCachedItem later cacheKey item itemCache)
              end
        end
    end.

End GetEbayItem.

End ItemCache.

(** ** Days with sales ([keepaApi.ts], lines 122-147)

    The series is Keepa's: times in minutes since its epoch and ranks, in
    turn. The clock is read once; its value is the argument [now]. The
    local calendar day of a time in milliseconds, the string
    [`${date.getFullYear()}-${date.getMonth()}-${date.getDate()}`], depends
    on the time zone of the host and is the function [dayKey]. *)

Module DaysWithSales.
Import JS. Import JSString.

(** [set.add(key)] on a [Set] of strings, here the list of its elements in
    insertion order. *)
Definition Set_add (s : list jsstring) (key : jsstring) : list jsstring :=
  if existsb (string_eqb key) s then s else s ++ [key].

Record loop_state : Type := mkLoop {
  daysWithDrops : list jsstring;
  prevRank : option Z
}.

Section CalculateDaysWithSales.

Variable dayKey : Z -> jsstring.

(** The body of the loop for one observation. *)
Definition visit (cutoffTime keepaTime rank : Z) (st : loop_state) : loop_state :=
  let timestamp := (keepaTime + 21564000) * 60000 in
  if timestamp <? cutoffTime
  then {| daysWithDrops := daysWithDrops st;
          prevRank := if 0 <? rank then Some rank else None |}
  else if rank <? 0 then st
  else
    {| daysWithDrops :=
         match prevRank st with
         | Some prev =>
             if rank <? prev
             then Set_add (daysWithDrops st) (dayKey timestamp)
             else daysWithDrops st
         | None => daysWithDrops st
         end;
       prevRank := Some rank |}.

(** [for (let i = 0; i < rankCsv.length - 1; i += 2)]: the observations
    two numbers at a time, a last number without partner left out. *)
Fixpoint loop (cutoffTime : Z) (rankCsv : list Z) (st : loop_state) : loop_state :=
  match rankCsv with
  | keepaTime :: rank :: rest => loop cutoffTime rest (visit cutoffTime keepaTime rank st)
  | _ => st
  end.

Definition calculateDaysWithSales (now : Z) (rankCsv : option (list Z)) (days : Z)
  : Z :=
  match rankCsv with
  | None => 0
  | Some rankCsv =>
      if (List.length rankCsv <? 4)%nat then 0
      else
        let cutoffTime := now - days * 24 * 60 * 60 * 1000 in
        let final := loop cutoffTime rankCsv {| daysWithDrops := []; prevRank := None |} in
        Z.of_nat (List.length (daysWithDrops final))
  end.

End CalculateDaysWithSales.

(** The number of observations the loop visits. *)
Fixpoint observations (rankCsv : list Z) : nat :=
  match rankCsv with
  | _ :: _ :: rest => S (observations rest)
  | _ => O
  end.

(** Two runs of the loop over the same series, one with a later cutoff
    (the narrow window) than the other (the wide window): the days found
    in the narrow window are among those of the wide one, and the
    remembered rank of the narrow run is none or that of the wide run. *)
Definition simulates (narrow wide : loop_state) : Prop :=
  incl (daysWithDrops narrow) (daysWithDrops wide)
  /\ (prevRank narrow = None \/ prevRank narrow = prevRank wide)
  /\ NoDup (daysWithDrops narrow)
  /\ NoDup (daysWithDrops wide).

End DaysWithSales.

(** ** Building a book search ([ebayApi.ts], lines 272-286, 366-433)

    The numbers of the options are integers. [searchEbayBooks] is its
    body up to the call of [searchEbayListings]: the parameters it hands
    over; [queryParams] is the list of name and value that
    [searchEbayListings] puts in the query string, before
    [URLSearchParams] encodes it. The ISO date of the day a number of days
    before today, which reads the clock, is the function [daysAgo]. *)

Module Search.
Import JS.

Inductive BookCondition : Type := NEW | LIKE_NEW | VERY_GOOD | GOOD | ACCEPTABLE.

Definition BOOK_CONDITIONS (c : BookCondition) : jsstring :=
  match c with
  | NEW => js "1000"
  | LIKE_NEW => js "2750"
  | VERY_GOOD => js "4000"
  | GOOD => js "5000"
  | ACCEPTABLE => js "6000"
  end.

Record options : Type := mkOptions {
  limit : option Z;
  minPrice : option Z;
  maxPrice : option Z;
  conditions : option (list BookCondition);
  sellers : option (list jsstring);
  maxListingAgeDays : option Z
}.

Record EbaySearchParams : Type := mkParams {
  query : jsstring;
  category_ids : option jsstring;
  params_limit : option Z;
  offset : option Z;
  filter : option jsstring;
  sort : option jsstring
}.

(** [options?.f] *)
Definition opt {A : Type} (o : option options) (f : options -> option A) : option A :=
  match o with
  | Some x => f x
  | None => None
  end.

(** Truthiness of an optional integer: present and not zero. *)
Definition truthy_num (v : option Z) : option Z :=
  match v with
  | Some n => if n =? 0 then None else Some n
  | None => None
  end.

Definition is_truthy (v : option Z) : bool :=
  match truthy_num v with
  | Some _ => true
  | None => false
  end.

(** [v < c] and [v > c], false for [undefined]. *)
Definition below (v : option Z) (c : Z) : bool :=
  match v with
  | Some n => n <? c
  | None => false
  end.

Definition above (v : option Z) (c : Z) : bool :=
  match v with
  | Some n => c <? n
  | None => false
  end.

(** [`${v}`] *)
Definition text (v : option Z) : jsstring :=
  match v with
  | Some n => to_string (Some n)
  | None => js "undefined"
  end.

(** [a.join(sep)] *)
Fixpoint join (sep : jsstring) (a : list jsstring) : jsstring :=
  match a with
  | [] => []
  | [x] => x
  | x :: rest => x ++ sep ++ join sep rest
  end.

Section SearchEbayBooks.

Variable daysAgo : Z -> jsstring.

(** Lines 401-407. *)
Definition price_filter (o : option options) : list jsstring :=
  let minPrice := opt o minPrice in
  let maxPrice := opt o maxPrice in
  if is_truthy minPrice && is_truthy maxPrice && below maxPrice 100000
  then [js "price:[" ++ text minPrice ++ js ".." ++ text maxPrice ++ js "]"]
  else if is_truthy minPrice
  then [js "price:[" ++ text minPrice ++ js "..]"]
  else if is_truthy maxPrice && below maxPrice 100000
  then [js "price:[.." ++ text maxPrice ++ js "]"]
  else [].

Definition conditions_filter (o : option options) : list jsstring :=
  match opt o conditions with
  | Some (c :: cs) =>
      [js "conditionIds:{" ++ join (js "|") (map BOOK_CONDITIONS (c :: cs)) ++ js "}"]
  | _ => []
  end.

Definition sellers_filter (o : option options) : list jsstring :=
  match opt o sellers with
  | Some (s :: ss) => [js "sellers:{" ++ join (js "|") (s :: ss) ++ js "}"]
  | _ => []
  end.

Definition age_filter (o : option options) : list jsstring :=
  let maxListingAgeDays := opt o maxListingAgeDays in
  if is_truthy maxListingAgeDays && above maxListingAgeDays 0
  then [js "itemCreationDate:["
        ++ daysAgo (match maxListingAgeDays with Some d => d | None => 0 end)
        ++ js "]"]
  else [].

(** The array [filters] when it is joined. *)
Definition filters (o : option options) : list jsstring :=
  price_filter o ++ conditions_filter o ++ sellers_filter o ++ age_filter o
  ++ [js "buyingOptions:{FIXED_PRICE}"].

Definition searchEbayBooks (query : jsstring) (o : option options) : EbaySearchParams :=
  {| query := query;
     category_ids := Some (js "267");
     params_limit :=
       Some (match truthy_num (opt o limit) with
             | Some n => n
             | None => 200
             end);
     offset := None;
     filter :=
       if (0 <? List.length (filters o))%nat
       then Some (join (js ",") (filters o))
       else None;
     sort := Some (js "newlyListed") |}.

End SearchEbayBooks.

(** Lines 275-284 of [searchEbayListings]. *)
Definition queryParams (params : EbaySearchParams) : list (jsstring * jsstring) :=
  [ (js "q", query params);
    (js "limit",
     to_string (Some (match truthy_num (params_limit params) with
                      | Some n => n
                      | None => 200
                      end)));
    (js "offset",
     to_string (Some (match truthy_num (offset params) with
                      | Some n => n
                      | None => 0
                      end)));
    (js "fieldgroups", js "EXTENDED") ]
  ++ match nonempty_string (category_ids params) with
     | Some v => [(js "category_ids", v)]
     | None => []
     end
  ++ match nonempty_string (filter params) with
     | Some v => [(js "filter", v)]
     | None => []
     end
  ++ match nonempty_string (sort params) with
     | Some v => [(js "sort", v)]
     | None => []
     end.

(** The options with every value that the body treats as absent taken
    out: a number that is zero, an upper price of 100000 or more, an age
    that is not positive, an empty list. *)
Definition significant (o : options) : options :=
  {| limit := truthy_num (limit o);
     minPrice := truthy_num (minPrice o);
     maxPrice :=
       match truthy_num (maxPrice o) with
       | Some hi => if hi <? 100000 then Some hi else None
       | None => None
       end;
     conditions :=
       match conditions o with
       | Some (c :: cs) => Some (c :: cs)
       | _ => None
       end;
     sellers :=
       match sellers o with
       | Some (s :: ss) => Some (s :: ss)
       | _ => None
       end;
     maxListingAgeDays :=
       match truthy_num (maxListingAgeDays o) with
       | Some d => if 0 <? d then Some d else None
       | None => None
       end |}.

Definition no_options : options :=
  {| limit := None; minPrice := None; maxPrice := None; conditions := None;
     sellers := None; maxListingAgeDays := None |}.

End Search.

(** ** Scoring a deal in the routes ([app/api/featured/route.ts], lines
    88-113 and 246-262)

    The numbers that the routes hand to [calculateFees] and
    [makeDecision] are integers, or null: the price of the listing in
    cents, and the fields of the normalized product. *)

Module Analysis.
Import JS.

(** Lines 91-98 and 248-255. *)
Definition decide_deal (ebayPrice buyBoxPrice : Z) (product : Keepa.KeepaProduct)
  : Fees.FeeBreakdown * Decision.result :=
  let fees := Fees.calculateFees ebayPrice buyBoxPrice in
  let decision :=
    Decision.makeDecision
      (of_Z (Z.max (Fees.fbaProfit fees) (Fees.fbmProfit fees)))
      (of_Z (Z.max (Fees.fbaRoi fees) (Fees.fbmRoi fees)))
      (option_map of_Z (Keepa.salesRank product))
      (option_map of_Z (Keepa.salesRankDrops30 product))
      (of_Z (Keepa.fbaOfferCount product))
      (Keepa.isAmazon product) in
  (fees, decision).

(** Truthiness of a number that may be absent. *)
Definition truthy_price (v : option Z) : option Z :=
  match v with
  | Some p => if p =? 0 then None else Some p
  | None => None
  end.

(** The featured route: [if (product && product.buyBoxPrice)]. *)
Definition score_deal (ebayPrice : Z) (product : option Keepa.KeepaProduct)
  : option (Fees.FeeBreakdown * Decision.result) :=
  match product with
  | Some product =>
      match truthy_price (Keepa.buyBoxPrice product) with
      | Some buyBoxPrice => Some (decide_deal ebayPrice buyBoxPrice product)
      | None => None
      end
  | None => None
  end.

(** The Keepa route: [if (ebayPrice && product.buyBoxPrice)], the
    analysis being null otherwise. *)
Definition analysis (ebayPrice : option Z) (product : Keepa.KeepaProduct)
  : option (Fees.FeeBreakdown * Decision.result) :=
  match truthy_price ebayPrice, truthy_price (Keepa.buyBoxPrice product) with
  | Some ebayPrice, Some buyBoxPrice =>
      Some (decide_deal ebayPrice buyBoxPrice product)
  | _, _ => None
  end.

(** *** The decision on integers

    [makeDecision] read with the comparisons of integers. *)
Definition present_and (v : option Z) (p : Z -> bool) : bool :=
  match v with
  | Some x => p x
  | None => false
  end.

Definition truthy_and (v : option Z) (p : Z -> bool) : bool :=
  present_and v (fun x => negb (x =? 0) && p x).

Definition score_int (profit roi : Z) (salesRank salesDrops30 : option Z)
    (fbaCount : Z) : Z :=
  let score := 50 in
  let score :=
    if 1000 <=? profit then score + 20
    else if 500 <=? profit then score + 10 else score in
  let score :=
    if 100 <=? roi then score + 15
    else if 50 <=? roi then score + 10 else score in
  let score :=
    match salesRank with
    | Some r =>
        if negb (r =? 0) then
          if r <? 100000 then score + 15
          else if r <? 500000 then score + 10
          else if r <? 1000000 then score + 5
          else score
        else score
    | None => score
    end in
  let score :=
    if truthy_and salesDrops30 (fun d => 10 <=? d) then score + 10
    else if truthy_and salesDrops30 (fun d => 5 <=? d) then score + 5
    else score in
  let score :=
    if 10 <? fbaCount then score - 10
    else if 5 <? fbaCount then score - 5 else score in
  Z.min 100 (Z.max 0 score).

Definition makeDecision_int (profit roi : Z) (salesRank salesDrops30 : option Z)
    (fbaCount : Z) (isAmazon : bool) : Decision.result :=
  if profit <? 300 then Decision.mkResult Decision.REJECT (js "Profit below $3") 0
  else if roi <? 30 then Decision.mkResult Decision.REJECT (js "ROI below 30%") 0
  else if truthy_and salesRank (fun r => 3000000 <? r)
  then Decision.mkResult Decision.REJECT (js "Rank too high (>3M)") 0
  else if present_and salesDrops30 (fun d => d <? 2)
  then Decision.mkResult Decision.REJECT (js "No sales velocity") 0
  else if isAmazon then Decision.mkResult Decision.REJECT (js "Amazon is selling") 0
  else
    let score := score_int profit roi salesRank salesDrops30 fbaCount in
    if 70 <=? score then Decision.mkResult Decision.BUY (js "Strong opportunity") score
    else if 50 <=? score then Decision.mkResult Decision.REVIEW (js "Needs review") score
    else Decision.mkResult Decision.REJECT (js "Below threshold") score.

End Analysis.

(** ** Reporting a failure ([app/api/featured/route.ts], lines 138-161)

    The messages are those of the errors that [ebayApi.ts] throws on the
    way of a search (lines 154, 177, 200, 209, 251 and 304); the route
    reads the message and picks the code it reports. *)

Module Errors.
Import JS.

Definition retry_message (e : Retry.error) : jsstring :=
  match e with
  | Retry.RateLimitExceeded context retries =>
      context ++ js ": Rate limit exceeded after "
      ++ to_string (Some (Z.of_nat retries)) ++ js " retries"
  | Retry.ServerError context status =>
      context ++ js ": Server error " ++ to_string (Some status)
      ++ js " after retries"
  | Retry.TransportError message => message
  | Retry.RequestFailed context => context ++ js ": Request failed after retries"
  end.

Definition token_message (e : Token.failure) : jsstring :=
  match e with
  | Token.NotConfigured => js "eBay API credentials not configured"
  | Token.OAuthFailed status body =>
      js "eBay OAuth failed: " ++ to_string (Some status) ++ js " - " ++ body
  | Token.RequestError e => retry_message e
  end.

(** [`eBay search failed: ${response.status} - ${error}`] *)
Definition search_message (status : Z) (body : jsstring) : jsstring :=
  js "eBay search failed: " ++ to_string (Some status) ++ js " - " ++ body.

Inductive errorCode : Type := RATE_LIMIT | AUTH_ERROR | CONFIG_ERROR | UNKNOWN_ERROR.

Definition classify (errorMessage : jsstring) : errorCode :=
  if Extract.includes (js "429") errorMessage
     || Extract.includes (js "Rate limit") errorMessage
  then RATE_LIMIT
  else if Extract.includes (js "401") errorMessage
          || Extract.includes (js "Unauthorized") errorMessage
  then AUTH_ERROR
  else if Extract.includes (js "credentials not configured") errorMessage
  then CONFIG_ERROR
  else UNKNOWN_ERROR.

End Errors.

(** ** The featured deals ([app/api/featured/route.ts], lines 28-137)

    The awaited calls are arguments: the listings that the search
    returned; for the listing at each position, how [getEbayItem] ends;
    and for the candidate at each position, what [getProductByIsbn]
    returns. A run gives the deals of the response and the positions for
    which the two services were called. Of a listing the model keeps the
    id, the fields that [extractISBN] reads, and the price in cents that
    [convertToDeal] computes from its price and shipping cost. *)

Module Featured.
Import JS. Import JSString.

Record Listing : Type := mkListing {
  itemId : jsstring;
  summary : Extract.EbayItemSummary;
  total_cents : Z
}.

(** The Amazon data of a scored deal (lines 100-112). *)
Record Scoring : Type := mkScoring {
  asin : jsstring;
  buyBoxPrice : Z;
  salesRank : option Z;
  salesRankDrops30 : option Z;
  fbaProfit : Z;
  fbmProfit : Z;
  fbaRoi : Z;
  decision : Decision.verdict;
  score : Z
}.

Record FeaturedDeal : Type := mkDeal {
  ebayItemId : jsstring;
  ebayPrice : Z;
  isbn : option jsstring;
  scoring : option Scoring
}.

(** [convertToDeal(item)], the fields above. *)
Definition convertToDeal (item : Listing) : FeaturedDeal :=
  {| ebayItemId := itemId item;
     ebayPrice := total_cents item;
     isbn := Extract.extractISBN (summary item);
     scoring := None |}.

(** [{ ...item, isbn: [isbn] }] *)
Definition with_isbn (item : Listing) (isbn : jsstring) : Listing :=
  {| itemId := itemId item;
     summary :=
       {| Extract.title := Extract.title (summary item);
          Extract.isbn := Some [isbn];
          Extract.gtin := Extract.gtin (summary item);
          Extract.localizedAspects := Extract.localizedAspects (summary item) |};
     total_cents := total_cents item |}.

(** How [getEbayItem] ends. *)
Inductive detail : Type :=
  | FullItem (fullItem : Extract.EbayItemSummary)
  | NoItem          (* null *)
  | Rejects.

(** [d.score || 0] *)
Definition score_or_0 (d : FeaturedDeal) : Z :=
  match scoring d with
  | Some s => score s
  | None => 0
  end.

(** [scoredDeals.sort((a, b) => (b.score || 0) - (a.score || 0))]: the
    sort is stable, so that the result is the one of inserting each deal
    before the deals after it that do not have a higher score. *)
Fixpoint insert (a : FeaturedDeal) (sorted : list FeaturedDeal) : list FeaturedDeal :=
  match sorted with
  | [] => [a]
  | b :: rest =>
      if score_or_0 a <? score_or_0 b then b :: insert a rest
      else a :: b :: rest
  end.

Definition sort_by_score (deals : list FeaturedDeal) : list FeaturedDeal :=
  fold_right insert [] deals.

(** [topDeals.find(td => td.ebayItemId === d.ebayItemId)], as a test *)
Definition listed (topDeals : list FeaturedDeal) (d : FeaturedDeal) : bool :=
  existsb (fun td => string_eqb (ebayItemId td) (ebayItemId d)) topDeals.

(** Lines 122-132. *)
Definition select (scoredDeals dealsWithIsbn : list FeaturedDeal) : list FeaturedDeal :=
  let scoredDeals := sort_by_score scoredDeals in
  let topDeals := firstn 3 scoredDeals in
  if (List.length topDeals <? 3)%nat then
    let remaining :=
      firstn (3 - List.length topDeals)
        (filter (fun d => negb (listed topDeals d)) dealsWithIsbn) in
    topDeals ++ remaining
  else topDeals.

Section GET.

Variable details : nat -> detail.
Variable products : nat -> option Keepa.KeepaProduct.

(** Lines 51-72, from the listing at position [i] on: the candidates, and
    the positions for which [getEbayItem] was called. *)
Fixpoint collect (i : nat) (items : list Listing)
    (dealsWithIsbn : list FeaturedDeal) (fetched : list nat)
  : list FeaturedDeal * list nat :=
  match items with
  | [] => (dealsWithIsbn, fetched)
  | item :: rest =>
      let isbn := Extract.extractISBN (summary item) in
      let '(isbn, fetched) :=
        match nonempty_string isbn with
        | Some _ => (isbn, fetched)
        | None =>
            (match details i with
             | FullItem fullItem => Extract.extractISBN fullItem
             | NoItem | Rejects => isbn
             end,
             fetched ++ [i])
        end in
      match nonempty_string isbn with
      | Some isbn =>
          let deal := convertToDeal (with_isbn item isbn) in
          let dealsWithIsbn :=
            dealsWithIsbn
            ++ [{| ebayItemId := ebayItemId deal; ebayPrice := ebayPrice deal;
                   isbn := Some isbn; scoring := scoring deal |}] in
          if (10 <=? List.length dealsWithIsbn)%nat then (dealsWithIsbn, fetched)
          else collect (S i) rest dealsWithIsbn fetched
      | None => collect (S i) rest dealsWithIsbn fetched
      end
  end.

(** Lines 91-112: the deal with its Amazon data. *)
Definition scored (deal : FeaturedDeal) (product : Keepa.KeepaProduct)
    (buyBoxPrice : Z) : FeaturedDeal :=
  let '(fees, decision) := Analysis.decide_deal (ebayPrice deal) buyBoxPrice product in
  {| ebayItemId := ebayItemId deal;
     ebayPrice := ebayPrice deal;
     isbn := isbn deal;
     scoring :=
       Some {| asin := Keepa.asin product;
               buyBoxPrice := buyBoxPrice;
               salesRank := Keepa.salesRank product;
               salesRankDrops30 := Keepa.salesRankDrops30 product;
               fbaProfit := Fees.fbaProfit fees;
               fbmProfit := Fees.fbmProfit fees;
               fbaRoi := Fees.fbaRoi fees;
               decision := Decision.decision decision;
               score := Decision.score decision |} |}.

(** Lines 84-120, from the candidate at position [j] on: the scored
    deals, and the positions for which [getProductByIsbn] was called. *)
Fixpoint evaluate (j : nat) (candidates : list FeaturedDeal)
    (scoredDeals : list FeaturedDeal) (looked_up : list nat)
  : list FeaturedDeal * list nat :=
  match candidates with
  | [] => (scoredDeals, looked_up)
  | deal :: rest =>
      match nonempty_string (isbn deal) with
      | None => evaluate (S j) rest scoredDeals looked_up
      | Some _ =>
          let product := products j in
          let looked_up := looked_up ++ [j] in
          let scoredDeals :=
            match product with
            | Some product =>
                match Analysis.truthy_price (Keepa.buyBoxPrice product) with
                | Some buyBoxPrice => scoredDeals ++ [scored deal product buyBoxPrice]
                | None => scoredDeals
                end
            | None => scoredDeals
            end in
          if (3 <=? List.length scoredDeals)%nat then (scoredDeals, looked_up)
          else evaluate (S j) rest scoredDeals looked_up
      end
  end.

Record run : Type := mkRun {
  deals : list FeaturedDeal;
  message : option jsstring;
  detail_calls : list nat;
  product_calls : list nat
}.

(** The body of the [try], after the search has returned. *)
Definition GET (itemSummaries : option (list Listing)) : run :=
  match itemSummaries with
  | None | Some [] =>
      {| deals := []; message := Some (js "No books found");
         detail_calls := []; product_calls := [] |}
  | Some items =>
      let '(dealsWithIsbn, fetched) := collect 0 (firstn 20 items) [] [] in
      if Nat.eqb (List.length dealsWithIsbn) 0 then
        {| deals := map convertToDeal (firstn 3 items);
           message := Some (js "No books with ISBN found");
           detail_calls := fetched; product_calls := [] |}
      else
        let '(scoredDeals, looked_up) := evaluate 0 (firstn 6 dealsWithIsbn) [] [] in
        {| deals := select scoredDeals dealsWithIsbn;
           message := None;
           detail_calls := fetched; product_calls := looked_up |}
  end.

End GET.

(** Deals in the order of their scores, the highest first. *)
Fixpoint descending (l : list FeaturedDeal) : Prop :=
  match l with
  | [] => True
  | a :: rest =>
      (forall b, In b rest -> score_or_0 b <= score_or_0 a) /\ descending rest
  end.

End Featured.
(** ** The featured route with its search ([app/api/featured/route.ts],
    lines 28-162; [ebayApi.ts], lines 272-308)

    The search is the first call of the route and the only one outside
    an inner [try]: what it throws reaches the handler of lines 138-161,
    which reads the message and reports a code with status 500. The
    token and the transport of the search are arguments, as are the item
    details and the products; of a response the model keeps the deals or
    the code. The listings of a result have the fields of their type, so
    that nothing but the awaited calls can throw. *)

Module FeaturedRoute.
Import JS.

(** How [searchEbayListings] fails. *)
Inductive search_failure : Type :=
  | NoToken (e : Token.failure)                    (* getAccessToken rejects *)
  | NoResponse (e : Retry.error)                   (* fetchWithRetry throws *)
  | SearchFailed (status : Z) (body : jsstring)    (* the response is not ok *)
  | BodyRejected (message : jsstring).             (* response.json() rejects *)

(** [error.message] *)
Definition message_of (e : search_failure) : jsstring :=
  match e with
  | NoToken e => Errors.token_message e
  | NoResponse e => Errors.retry_message e
  | SearchFailed status body => Errors.search_message status body
  | BodyRejected message => message
  end.

Inductive response : Type :=
  | Deals (r : Featured.run)               (* status 200 *)
  | Failure (errorCode : Errors.errorCode) (* status 500, with no deals *).

Section Route.

(** [response.json()]: the message of the error it rejects with, or the
    [itemSummaries] of the result. *)
Variable parse : jsstring -> jsstring + option (list Featured.Listing).
Variable details : nat -> Featured.detail.
Variable products : nat -> option Keepa.KeepaProduct.

(** Lines 272-308: the calls and waits made upstream, and the result. *)
Definition searchEbayListings (token : Token.settlement) (net : Retry.transport)
  : list Retry.event * (search_failure + option (list Featured.Listing)) :=
  match token with
  | Token.Failed e => ([], inl (NoToken e))
  | Token.Fulfilled accessToken =>
      let '(events, fetched) :=
        Retry.fetchWithRetry Retry.RATE_LIMIT_CONFIG (js "eBay Search") net in
      match fetched with
      | Retry.Throw e => (events, inl (NoResponse e))
      | Retry.Return response =>
          if negb (ItemCache.ok response)
          then (events,
                inl (SearchFailed (Retry.status response) (Retry.payload response)))
          else
            match parse (Retry.payload response) with
            | inl message => (events, inl (BodyRejected message))
            | inr itemSummaries => (events, inr itemSummaries)
            end
      end
  end.

(** Lines 28-162. *)
Definition GET (token : Token.settlement) (net : Retry.transport)
  : list Retry.event * response :=
  let '(events, results) := searchEbayListings token net in
  match results with
  | inr itemSummaries =>
      (events, Deals (Featured.GET details products itemSummaries))
  | inl error =>
      (events, Failure (Errors.classify (message_of error)))
  end.

End Route.

End FeaturedRoute.

(** * Properties *)

Import JS.
Import Rounding.

(** ** Rounding to nearest in SpecFloat, from its definition *)

Lemma iter_pos_nat {A : Type} (f : A -> A) (p : positive) (x : A) :
  iter_pos f p x = Nat.iter (Pos.to_nat p) f x.
Proof.
  revert x. induction p as [p IH | p IH |]; intros x; cbn [iter_pos].
  - rewrite !IH, Pos2Nat.inj_xI.
    replace (S (2 * Pos.to_nat p))%nat with (Pos.to_nat p + Pos.to_nat p + 1)%nat by lia.
    rewrite !Nat.iter_add. reflexivity.
  - rewrite !IH, Pos2Nat.inj_xO.
    replace (2 * Pos.to_nat p)%nat with (Pos.to_nat p + Pos.to_nat p)%nat by lia.
    rewrite Nat.iter_add. reflexivity.
  - reflexivity.
Qed.

Lemma shr_1_nonneg (m : Z) (r s : bool) :
  0 <= m ->
  shr_1 {| shr_m := m; shr_r := r; shr_s := s |}
  = {| shr_m := Z.div2 m; shr_r := Z.odd m; shr_s := r || s |}.
Proof.
  intros Hm. destruct m as [|p|p]; [reflexivity | | lia].
  destruct p; reflexivity.
Qed.

Lemma shifted_0 (M : Z) :
  0 <= M -> shifted M 1 {| shr_m := M; shr_r := false; shr_s := false |}.
Proof.
  intros HM. exists 0. cbn. repeat split; try lia; intros; try lia; auto; discriminate.
Qed.

Lemma shifted_step (M A : Z) (rec : shr_record) :
  0 < A -> shifted M A rec -> shifted M (2 * A) (shr_1 rec).
Proof.
  intros HA (rem & HM & Hrem & Hq & Hr & Hs).
  destruct rec as [q r s]. cbn [shr_m shr_r shr_s] in *.
  rewrite shr_1_nonneg by assumption.
  pose proof (Z.div2_odd q) as Hq2.
  exists ((if Z.odd q then 1 else 0) * A + rem).
  cbn [shr_m shr_r shr_s].
  assert (0 <= Z.div2 q) by (rewrite Z.div2_nonneg; assumption).
  assert (Hrs : r || s = false <-> rem = 0).
  { split.
    - intros H'. apply orb_false_iff in H' as [Er Es].
      destruct (proj1 Hs Es) as [E|E]; [exact E|]. exfalso.
      assert (r = true) by (apply Hr; lia). congruence.
    - intros E. apply orb_false_iff. split.
      + destruct r; [|reflexivity]. pose proof (proj1 Hr eq_refl). lia.
      + apply Hs. now left. }
  destruct (Z.odd q); cbn [Z.b2z] in Hq2.
  - split; [nia|]. split; [lia|]. split; [lia|]. split.
    + split; intros; [lia | reflexivity].
    + rewrite Hrs. split; intros; lia.
  - split; [nia|]. split; [lia|]. split; [lia|]. split.
    + split; intros; [discriminate | lia].
    + rewrite Hrs. split; intros; lia.
Qed.

Lemma shifted_iter (M : Z) (k : nat) :
  0 <= M ->
  shifted M (2 ^ Z.of_nat k)
    (Nat.iter k shr_1 {| shr_m := M; shr_r := false; shr_s := false |}).
Proof.
  intros HM. induction k as [|k IH].
  - apply shifted_0, HM.
  - rewrite Nat2Z.inj_succ, Z.pow_succ_r by lia. cbn [Nat.iter].
    apply shifted_step; [apply Z.pow_pos_nonneg; lia | exact IH].
Qed.

(** Rounding the shifted record to nearest even: the result is within half
    a step of [M]. *)
Lemma round_nearest_even_bounds (M A : Z) (rec : shr_record) :
  0 < A -> shifted M A rec ->
  let m1 := round_nearest_even (shr_m rec) (loc_of_shr_record rec) in
  A * (2 * m1 - 1) <= 2 * M <= A * (2 * m1 + 1)
  /\ shr_m rec <= m1 <= shr_m rec + 1.
Proof.
  intros HA (rem & HM & Hrem & Hq & Hr & Hs). cbv zeta.
  destruct rec as [q r s]. cbn [shr_m shr_r shr_s] in *.
  destruct r, s; cbn [loc_of_shr_record round_nearest_even].
  - destruct Hr as [Hr _]. specialize (Hr eq_refl). nia.
  - destruct Hr as [Hr _]. specialize (Hr eq_refl).
    destruct Hs as [Hs _]. specialize (Hs eq_refl).
    destruct (Z.even q); nia.
  - assert (~ A <= 2 * rem) by (intros C; apply Hr in C; discriminate). nia.
  - destruct Hs as [Hs _]. specialize (Hs eq_refl).
    assert (~ A <= 2 * rem) by (intros C; apply Hr in C; discriminate). nia.
Qed.

(** ** Number of binary digits *)

Lemma digits2_pos_size (p : positive) : digits2_pos p = Pos.size p.
Proof. induction p; cbn; congruence. Qed.

Lemma Zdigits2_bounds (p : positive) :
  2 ^ (Zdigits2 (Z.pos p) - 1) <= Z.pos p < 2 ^ Zdigits2 (Z.pos p).
Proof.
  cbn [Zdigits2]. rewrite digits2_pos_size.
  pose proof (Pos.size_gt p) as Hgt. pose proof (Pos.size_le p) as Hle.
  assert (E : 2 ^ Z.pos (Pos.size p) = Z.pos (2 ^ Pos.size p))
    by (rewrite Pos2Z.inj_pow; reflexivity).
  split.
  - assert (2 ^ Z.pos (Pos.size p) = 2 * 2 ^ (Z.pos (Pos.size p) - 1)).
    { rewrite <- Z.pow_succ_r by lia. f_equal. lia. }
    assert (Z.pos (2 ^ Pos.size p) <= Z.pos p~0) by exact Hle.
    lia.
  - rewrite E. exact Hgt.
Qed.

Lemma Zdigits2_unique (m d : Z) :
  0 < m -> 2 ^ (d - 1) <= m < 2 ^ d -> Zdigits2 m = d.
Proof.
  intros Hm [Hlo Hhi]. destruct m as [|p|p]; try lia.
  pose proof (Zdigits2_bounds p) as [Blo Bhi].
  set (d' := Zdigits2 (Z.pos p)) in *.
  assert (0 < d') by (subst d'; cbn; lia).
  assert (0 < d).
  { destruct (Z.ltb_spec 0 d); [assumption|]. exfalso.
    assert (2 ^ d <= 2 ^ 0) by (destruct (Z.eqb_spec d 0);
      [subst; lia | rewrite Z.pow_neg_r by lia; cbn; lia]).
    cbn in *. lia. }
  destruct (Z.lt_trichotomy d' d) as [L | [E | G]]; [| exact E |].
  - exfalso. assert (2 ^ d' <= 2 ^ (d - 1)) by (apply Z.pow_le_mono_r; lia). lia.
  - exfalso. assert (2 ^ d <= 2 ^ (d' - 1)) by (apply Z.pow_le_mono_r; lia). lia.
Qed.

Lemma pos_iter_xO (p d : positive) :
  Z.pos (Pos.iter xO p d) = Z.pos p * 2 ^ Z.pos d.
Proof.
  induction d as [|d IH] using Pos.peano_ind.
  - cbn [Pos.iter]. lia.
  - rewrite Pos.iter_succ, Pos2Z.inj_succ, Z.pow_succ_r by lia.
    rewrite Pos2Z.inj_xO, IH. lia.
Qed.

(** ** Rounding a positive mantissa in the normal range *)

Lemma fexp_normal (x : Z) :
  -1074 <= x - 53 -> fexp prec emax x = x - 53.
Proof.
  intros H. unfold fexp, SpecFloat.emin, prec, emax. lia.
Qed.

Lemma shr_fexp_normal (M e d : Z) :
  0 < M -> 2 ^ (d - 1) <= M < 2 ^ d -> 53 <= d -> -1074 <= e + d - 53 ->
  exists rec,
    shr_fexp prec emax M e loc_Exact = (rec, e + d - 53)
    /\ shifted M (2 ^ (d - 53)) rec
    /\ (d = 53 -> rec = {| shr_m := M; shr_r := false; shr_s := false |}).
Proof.
  intros HM Hd H53 Hmin.
  unfold shr_fexp. rewrite (Zdigits2_unique M d HM Hd).
  rewrite fexp_normal by lia.
  replace (d + e - 53 - e) with (d - 53) by lia.
  cbn [shr_record_of_loc].
  destruct (d - 53) as [|p|p] eqn:En; [| |lia].
  - exists {| shr_m := M; shr_r := false; shr_s := false |}.
    cbn [shr]. split; [f_equal; lia|]. split; [|reflexivity].
    apply shifted_0. lia.
  - eexists. cbn [shr]. split; [f_equal; lia|]. split; [|lia].
    rewrite iter_pos_nat. rewrite <- (positive_nat_Z p).
    apply shifted_iter. lia.
Qed.

Lemma binary_round_aux_normal (sx : bool) (M e d : Z) :
  0 < M -> 2 ^ (d - 1) <= M < 2 ^ d -> 53 <= d ->
  -1074 <= e + d - 53 -> e + d - 53 < 971 ->
  exists (m1 : Z) (m' : positive),
    2 ^ (d - 53) * (2 * m1 - 1) <= 2 * M <= 2 ^ (d - 53) * (2 * m1 + 1)
    /\ (d = 53 -> m1 = M)
    /\ 2 ^ 52 <= Z.pos m' < 2 ^ 53
    /\ ((m1 < 2 ^ 53 /\ Z.pos m' = m1
         /\ binary_round_aux prec emax sx M e loc_Exact
            = S754_finite sx m' (e + d - 53))
        \/ (m1 = 2 ^ 53 /\ Z.pos m' = 2 ^ 52
            /\ binary_round_aux prec emax sx M e loc_Exact
               = S754_finite sx m' (e + d - 52))).
Proof.
  intros HM Hd H53 Hmin Hmax.
  destruct (shr_fexp_normal M e d HM Hd H53 Hmin) as (rec & E1 & Hsh & Hexact).
  assert (HA : 0 < 2 ^ (d - 53)) by (apply Z.pow_pos_nonneg; lia).
  pose proof (round_nearest_even_bounds M _ rec HA Hsh) as Hb. cbv zeta in Hb.
  set (m1 := round_nearest_even (shr_m rec) (loc_of_shr_record rec)) in *.
  destruct Hb as [Hb Hq].
  assert (Hqr : 2 ^ 52 <= shr_m rec < 2 ^ 53).
  { destruct Hsh as (rem & HMq & Hrem & Hq0 & _).
    assert (E52 : 2 ^ (d - 1) = 2 ^ 52 * 2 ^ (d - 53))
      by (rewrite <- Z.pow_add_r by lia; f_equal; lia).
    assert (E53 : 2 ^ d = 2 ^ 53 * 2 ^ (d - 53))
      by (rewrite <- Z.pow_add_r by lia; f_equal; lia).
    rewrite E52, E53 in Hd. clear E52 E53.
    set (A := 2 ^ (d - 53)) in *. split; nia. }
  assert (Hm1 : 2 ^ 52 <= m1 <= 2 ^ 53) by lia.
  assert (Hex : d = 53 -> m1 = M).
  { intros E53. unfold m1. rewrite (Hexact E53). reflexivity. }
  assert (Hbra :
    binary_round_aux prec emax sx M e loc_Exact
    = let '(mrs, e2) := shr_fexp prec emax m1 (e + d - 53) loc_Exact in
      match shr_m mrs with
      | 0 => S754_zero sx
      | Z.pos m =>
          if e2 <=? emax - prec then S754_finite sx m e2 else S754_infinity sx
      | Z.neg _ => S754_nan
      end).
  { unfold binary_round_aux. rewrite E1. reflexivity. }
  rewrite Hbra. clear Hbra.
  clearbody m1.
  destruct (Z.eq_dec m1 (2 ^ 53)) as [Etop | Ntop].
  - exists m1, (Z.to_pos (2 ^ 52)).
    split; [exact Hb|]. split; [exact Hex|].
    split; [cbn; lia|]. right.
    split; [exact Etop|]. split; [reflexivity|].
    rewrite Etop.
    unfold shr_fexp.
    change (Zdigits2 (2 ^ 53)) with 54.
    rewrite fexp_normal by lia.
    replace (54 + (e + d - 53) - 53 - (e + d - 53)) with 1 by lia.
    cbn [shr_record_of_loc shr iter_pos shr_m].
    change (shr_m (shr_1 {| shr_m := 2 ^ 53; shr_r := false; shr_s := false |}))
      with (Z.pos (Z.to_pos (2 ^ 52))).
    cbv iota beta.
    replace (e + d - 53 + 1) with (e + d - 52) by lia.
    assert (Hle : (e + d - 52 <=? emax - prec) = true)
      by (apply Z.leb_le; unfold emax, prec; lia).
    rewrite Hle. reflexivity.
  - assert (Hlt : m1 < 2 ^ 53) by lia.
    destruct m1 as [|m'|m']; [cbn in Hm1; lia | | cbn in Hm1; lia].
    exists (Z.pos m'), m'.
    split; [exact Hb|]. split; [exact Hex|].
    split; [lia|]. left.
    split; [exact Hlt|]. split; [reflexivity|].
    destruct (shr_fexp_normal (Z.pos m') (e + d - 53) 53 ltac:(lia) ltac:(cbn in *; lia)
                ltac:(lia) ltac:(lia)) as (rec2 & E2 & _ & Hrec2).
    rewrite E2. rewrite (Hrec2 eq_refl). cbn [shr_m].
    replace (e + d - 53 + 53 - 53) with (e + d - 53) by lia.
    assert (Hle : (e + d - 53 <=? emax - prec) = true)
      by (apply Z.leb_le; unfold emax, prec; lia).
    rewrite Hle. reflexivity.
Qed.

(** ** The binary64 value of an integer *)

Lemma valid_normal (s : bool) (m : positive) (e : Z) :
  2 ^ 52 <= Z.pos m < 2 ^ 53 -> -1074 <= e <= 971 ->
  valid_binary (S754_finite s m e) = true.
Proof.
  intros Hm He. cbn [SpecFloat.valid_binary]. unfold bounded, canonical_mantissa.
  change (Z.pos (digits2_pos m)) with (Zdigits2 (Z.pos m)).
  rewrite (Zdigits2_unique (Z.pos m) 53) by (cbn in *; lia).
  rewrite fexp_normal by lia.
  apply andb_true_iff. split.
  - apply Z.eqb_eq. lia.
  - apply Z.leb_le. unfold emax, prec. lia.
Qed.

Lemma binary_round_small (s : bool) (p : positive) :
  Z.pos p < 2 ^ 53 ->
  exists (k : Z) (mz : positive),
    0 <= k <= 52
    /\ Z.pos mz = Z.pos p * 2 ^ k
    /\ 2 ^ 52 <= Z.pos mz < 2 ^ 53
    /\ binary_round prec emax s p 0 = S754_finite s mz (- k).
Proof.
  intros Hp.
  pose proof (Zdigits2_bounds p) as Hd.
  set (d := Zdigits2 (Z.pos p)) in *.
  assert (Hd1 : 1 <= d) by (subst d; cbn; lia).
  assert (Hd53 : d <= 53).
  { destruct (Z.leb_spec d 53); [assumption|]. exfalso.
    assert (2 ^ 53 <= 2 ^ (d - 1)) by (apply Z.pow_le_mono_r; lia). lia. }
  unfold binary_round.
  change (Z.pos (digits2_pos p)) with d.
  rewrite fexp_normal by lia.
  unfold shl_align.
  replace (d + 0 - 53 - 0) with (d - 53) by lia.
  assert (Hfin : forall mz : positive,
             Z.pos mz = Z.pos p * 2 ^ (53 - d) ->
             2 ^ 52 <= Z.pos mz < 2 ^ 53
             /\ binary_round_aux prec emax s (Z.pos mz) (d - 53) loc_Exact
                = S754_finite s mz (d - 53)).
  { intros mz Emz.
    assert (Hmz : 2 ^ 52 <= Z.pos mz < 2 ^ 53).
    { rewrite Emz.
      replace (2 ^ 52) with (2 ^ (d - 1) * 2 ^ (53 - d))
        by (rewrite <- Z.pow_add_r by lia; f_equal; lia).
      replace (2 ^ 53) with (2 ^ d * 2 ^ (53 - d))
        by (rewrite <- Z.pow_add_r by lia; f_equal; lia).
      assert (0 < 2 ^ (53 - d)) by (apply Z.pow_pos_nonneg; lia).
      nia. }
    split; [exact Hmz|].
    assert (H52 : 2 ^ (53 - 1) <= Z.pos mz < 2 ^ 53) by exact Hmz.
    destruct (binary_round_aux_normal s (Z.pos mz) (d - 53) 53
                ltac:(lia) H52 ltac:(lia) ltac:(lia) ltac:(lia))
      as (m1 & m' & _ & Hex & _ & [(_ & Em' & E) | (Etop & _ & _)]).
    - rewrite E. rewrite (Hex eq_refl) in Em'. injection Em' as ->.
      f_equal. lia.
    - rewrite (Hex eq_refl) in Etop. lia. }
  destruct (d - 53) as [|q|q] eqn:Ed; [| lia |].
  - exists 0, p. assert (d = 53) by lia.
    destruct (Hfin p) as [Hmz E].
    { replace (53 - d) with 0 by lia. lia. }
    split; [lia|]. split; [lia|]. split; [exact Hmz|].
    replace (d + 0 - 53) with 0 by lia. exact E.
  - exists (Z.pos q), (Pos.iter xO p q).
    assert (Eq : Z.pos q = 53 - d) by lia.
    destruct (Hfin (Pos.iter xO p q)) as [Hmz E].
    { rewrite pos_iter_xO, Eq. reflexivity. }
    split; [lia|]. split; [apply pos_iter_xO|]. split; [exact Hmz|].
    replace (d + 0 - 53) with (Z.neg q) by lia. exact E.
Qed.

Lemma Prim2SF_of_Z (z : Z) :
  0 < Z.abs z < 2 ^ 53 ->
  exists (k : Z) (mz : positive),
    0 <= k <= 52
    /\ Z.pos mz = Z.abs z * 2 ^ k
    /\ 2 ^ 52 <= Z.pos mz < 2 ^ 53
    /\ Prim2SF (of_Z z) = S754_finite (z <? 0) mz (- k).
Proof.
  intros Hz. unfold of_Z.
  destruct z as [|p|p]; [cbn in Hz; lia | |];
    cbn [binary_normalize Z.abs] in *.
  - destruct (binary_round_small false p (proj2 Hz))
      as (k & mz & Hk & Emz & Hmz & E).
    exists k, mz. repeat split; try lia.
    rewrite E. apply Prim2SF_SF2Prim, valid_normal; lia.
  - destruct (binary_round_small true p (proj2 Hz))
      as (k & mz & Hk & Emz & Hmz & E).
    exists k, mz. repeat split; try lia.
    rewrite E. apply Prim2SF_SF2Prim, valid_normal; lia.
Qed.

(** ** Rounding the product of an integer and a constant *)

Lemma Math_round_mul (z : Z) (c : float) (C : positive) :
  Prim2SF c = S754_finite false C (-55) ->
  2 ^ 52 <= Z.pos C < 2 ^ 53 ->
  0 < Z.abs z < 2 ^ 45 ->
  exists A H m1 : Z,
    0 < A /\ 2 ^ 9 <= H /\ A * H = 2 ^ 54
    /\ A * (2 * m1 - 1) <= 2 * (Z.abs z * Z.pos C) <= A * (2 * m1 + 1)
    /\ A * 2 ^ 52 <= Z.abs z * Z.pos C < A * 2 ^ 53
    /\ Math_round (of_Z z * c) = (signed (z <? 0) m1 + H) / (2 * H).
Proof.
  intros Hc HC Hz.
  destruct (Prim2SF_of_Z z ltac:(lia)) as (k & mz & Hk & Emz & Hmz & Ez).
  unfold Math_round.
  rewrite mul_spec, Ez, Hc. unfold SF64mul. cbn [SFmul].
  rewrite xorb_false_r.
  set (M := Z.pos (mz * C)).
  assert (EM : M = Z.abs z * Z.pos C * 2 ^ k) by (subst M; rewrite Pos2Z.inj_mul; lia).
  assert (HM : 2 ^ 104 <= M < 2 ^ 106).
  { subst M. rewrite Pos2Z.inj_mul.
    change (2 ^ 104) with (2 ^ 52 * 2 ^ 52). change (2 ^ 106) with (2 ^ 53 * 2 ^ 53).
    nia. }
  pose proof (Zdigits2_bounds (mz * C)) as Hd. fold M in Hd.
  set (d := Zdigits2 M) in *.
  assert (Hd105 : 105 <= d <= 106).
  { split.
    - destruct (Z.leb_spec 105 d); [assumption|]. exfalso.
      assert (2 ^ d <= 2 ^ 104)
        by (destruct (Z.ltb_spec d 0);
            [rewrite Z.pow_neg_r by lia; cbn; lia | apply Z.pow_le_mono_r; lia]).
      lia.
    - destruct (Z.leb_spec d 106); [assumption|]. exfalso.
      assert (2 ^ 106 <= 2 ^ (d - 1)) by (apply Z.pow_le_mono_r; lia). lia. }
  assert (Hzk : Z.abs z * 2 ^ k < 2 ^ 53) by lia.
  assert (Hk7 : 8 <= k).
  { destruct (Z.leb_spec 8 k); [assumption|]. exfalso.
    assert (2 ^ k <= 2 ^ 7) by (apply Z.pow_le_mono_r; lia).
    change (2 ^ 7) with 128 in *. change (2 ^ 45) with 35184372088832 in *.
    change (2 ^ 52) with 4503599627370496 in *. nia. }
  destruct (binary_round_aux_normal (z <? 0) M (- k + -55) d
              ltac:(lia) Hd ltac:(lia) ltac:(lia) ltac:(lia))
    as (m1 & m' & Hb & _ & Hm' & Hcase).
  set (s := 107 + k - d).
  exists (2 ^ (d - 53 - k)), (2 ^ s), m1.
  assert (HA : 0 < 2 ^ (d - 53 - k)) by (apply Z.pow_pos_nonneg; lia).
  assert (H2k : 0 < 2 ^ k) by (apply Z.pow_pos_nonneg; lia).
  assert (EA : 2 ^ (d - 53) = 2 ^ (d - 53 - k) * 2 ^ k)
    by (rewrite <- Z.pow_add_r by lia; f_equal; lia).
  assert (Ed1 : 2 ^ (d - 1) = 2 ^ (d - 53 - k) * 2 ^ 52 * 2 ^ k)
    by (rewrite <- !Z.pow_add_r by lia; f_equal; lia).
  assert (Ed : 2 ^ d = 2 ^ (d - 53 - k) * 2 ^ 53 * 2 ^ k)
    by (rewrite <- !Z.pow_add_r by lia; f_equal; lia).
  split; [exact HA|]. split.
  { change (2 ^ 9) with (2 ^ 9). apply Z.pow_le_mono_r; subst s; lia. }
  split.
  { rewrite <- Z.pow_add_r by (subst s; lia). f_equal. subst s. lia. }
  split.
  { rewrite EA, EM in Hb. set (A := 2 ^ (d - 53 - k)) in *.
    set (P := Z.abs z * Z.pos C) in *. split; nia. }
  split.
  { rewrite Ed1, Ed, EM in Hd. set (A := 2 ^ (d - 53 - k)) in *.
    set (P := Z.abs z * Z.pos C) in *. split; nia. }
  assert (Hs : 1 <= s) by (subst s; lia).
  assert (HH : 0 < 2 ^ s) by (apply Z.pow_pos_nonneg; lia).
  destruct Hcase as [(Hlt & Em' & E) | (Etop & Em' & E)]; rewrite E.
  - replace (- k + -55 + d - 53) with (- (s + 1)) by (subst s; lia).
    destruct (Z.leb_spec 0 (- (s + 1))); [lia|].
    rewrite Z.opp_involutive.
    replace (1 - - (s + 1)) with (1 + (1 + s)) by lia.
    rewrite (Z.pow_add_r 2 1 (1 + s)), (Z.pow_add_r 2 1 s), (Z.add_comm s 1),
      (Z.pow_add_r 2 1 s) by lia.
    change (2 ^ 1) with 2.
    replace (2 * (if z <? 0 then Z.neg m' else Z.pos m') + 2 * 2 ^ s)
      with (2 * (signed (z <? 0) m1 + 2 ^ s))
      by (unfold signed; destruct (z <? 0); lia).
    rewrite Z.div_mul_cancel_l by lia. reflexivity.
  - replace (- k + -55 + d - 52) with (- s) by (subst s; lia).
    destruct (Z.leb_spec 0 (- s)); [lia|].
    rewrite Z.opp_involutive.
    replace (1 - - s) with (1 + s) by lia.
    rewrite (Z.pow_add_r 2 1 s) by lia. change (2 ^ 1) with 2.
    f_equal. unfold signed. destruct (z <? 0); lia.
Qed.


(** ** The integer nearest to a decimal fraction of an integer

    [C / 2^55] is the binary64 constant nearest to [num / den], off by
    [delta / (den * 2^55)]; [m1 / (2 * H)] is the product [w * C / 2^55]
    rounded to nearest. Rounding it half up gives the same integer as
    rounding [num * w / den] half up. *)

Section NearestInteger.

Variables num den delta C : Z.
Hypothesis Hden : 0 < den <= 100.
Hypothesis Hdelta : 4 * Z.abs delta <= den.
Hypothesis HC : den * C = num * 2 ^ 55 + delta.
Hypothesis HC52 : 2 ^ 52 <= C.

Variables A H m1 w : Z.
Hypothesis HA : 0 < A.
Hypothesis HH : 2 ^ 9 <= H.
Hypothesis HAH : A * H = 2 ^ 54.
Hypothesis Hw : 0 < w.
Hypothesis Hm1 : A * (2 * m1 - 1) <= 2 * (w * C) <= A * (2 * m1 + 1).
Hypothesis HP : w * C < A * 2 ^ 53.

Lemma scaled_bounds :
  4 * 2 ^ 55 * (num * w) + 4 * (delta * w) - 2 * (den * A) <= 4 * (den * (A * m1))
  /\ 4 * (den * (A * m1)) <= 4 * 2 ^ 55 * (num * w) + 4 * (delta * w) + 2 * (den * A).
Proof.
  assert (E : 4 * (den * (w * C)) = 4 * 2 ^ 55 * (num * w) + 4 * (delta * w)).
  { replace (den * (w * C)) with (w * (den * C)) by ring. rewrite HC. ring. }
  destruct Hm1 as [Lo Hi].
  apply (Z.mul_le_mono_nonneg_l _ _ (2 * den)) in Lo; [|lia].
  apply (Z.mul_le_mono_nonneg_l _ _ (2 * den)) in Hi; [|lia].
  replace (2 * den * (2 * (w * C))) with (4 * (den * (w * C))) in Lo, Hi by ring.
  rewrite E in Lo, Hi.
  replace (2 * den * (A * (2 * m1 - 1)))
    with (4 * (den * (A * m1)) - 2 * (den * A)) in Lo by ring.
  replace (2 * den * (A * (2 * m1 + 1)))
    with (4 * (den * (A * m1)) + 2 * (den * A)) in Hi by ring.
  split; lia.
Qed.

Lemma slack :
  2 * Z.abs (delta * w) < den * A /\ den * A <= 2 ^ 52.
Proof.
  change (2 ^ 9) with 512 in *. change (2 ^ 54) with 18014398509481984 in *.
  change (2 ^ 52) with 4503599627370496 in *.
  change (2 ^ 53) with 9007199254740992 in *.
  assert (Hw2 : w < 2 * A).
  { assert (w * 4503599627370496 <= w * C)
      by (apply Z.mul_le_mono_nonneg_l; lia).
    lia. }
  assert (HA45 : A * 512 <= 18014398509481984).
  { rewrite <- HAH. apply Z.mul_le_mono_nonneg_l; lia. }
  split.
  - rewrite Z.abs_mul, (Z.abs_eq w) by lia.
    assert (4 * Z.abs delta * w <= den * w)
      by (apply Z.mul_le_mono_nonneg_r; lia).
    assert (den * w < den * (2 * A))
      by (apply Z.mul_lt_mono_pos_l; lia).
    lia.
  - assert (den * A <= 100 * A) by (apply Z.mul_le_mono_nonneg_r; lia).
    lia.
Qed.

Lemma nearest_positive :
  (m1 + H) / (2 * H) = (2 * (num * w) + den) / (2 * den).
Proof.
  destruct scaled_bounds as [Lo Hi]. destruct slack as [Sl SA].
  set (N := (2 * (num * w) + den) / (2 * den)).
  pose proof (Z.div_mod (2 * (num * w) + den) (2 * den) ltac:(lia)) as Hdm.
  pose proof (Z.mod_pos_bound (2 * (num * w) + den) (2 * den) ltac:(lia)) as Hmod.
  fold N in Hdm.
  set (r := (2 * (num * w) + den) mod (2 * den)) in *.
  replace (2 * den * N) with (2 * (den * N)) in Hdm by ring.
  change (2 ^ 55) with 36028797018963968 in *.
  change (2 ^ 54) with 18014398509481984 in *.
  change (2 ^ 52) with 4503599627370496 in *.
  change (2 ^ 9) with 512 in *.
  assert (Habs : - (den * A) < 2 * (delta * w) < den * A) by lia.
  assert (EH : forall x, 4 * (den * (A * (x * H))) = 4 * 18014398509481984 * (den * x)).
  { intros x. replace (4 * (den * (A * (x * H)))) with (4 * (A * H) * (den * x)) by ring.
    now rewrite HAH. }
  symmetry. apply (Z.div_unique _ _ _ (m1 + H - 2 * H * N)); [|ring].
  left.
  split.
  - (* (2N - 1) H <= m1 *)
    assert (L : 4 * (den * (A * ((2 * N - 1) * H - 1))) < 4 * (den * (A * m1))).
    { replace (4 * (den * (A * ((2 * N - 1) * H - 1))))
        with (4 * (den * (A * ((2 * N - 1) * H))) - 4 * (den * A)) by ring.
      rewrite EH.
      replace (den * (2 * N - 1)) with (2 * (den * N) - den) by ring.
      lia. }
    assert ((2 * N - 1) * H - 1 < m1).
    { apply (Z.mul_lt_mono_pos_l (4 * den * A)); [nia|].
      replace (4 * den * A * ((2 * N - 1) * H - 1))
        with (4 * (den * (A * ((2 * N - 1) * H - 1)))) by ring.
      replace (4 * den * A * m1) with (4 * (den * (A * m1))) by ring.
      exact L. }
    lia.
  - (* m1 < (2N + 1) H *)
    assert (L : 4 * (den * (A * m1)) < 4 * (den * (A * ((2 * N + 1) * H)))).
    { rewrite EH.
      replace (den * (2 * N + 1)) with (2 * (den * N) + den) by ring.
      lia. }
    assert (m1 < (2 * N + 1) * H).
    { apply (Z.mul_lt_mono_pos_l (4 * den * A)); [nia|].
      replace (4 * den * A * ((2 * N + 1) * H))
        with (4 * (den * (A * ((2 * N + 1) * H)))) by ring.
      replace (4 * den * A * m1) with (4 * (den * (A * m1))) by ring.
      exact L. }
    lia.
Qed.

Lemma nearest_negative :
  (- m1 + H) / (2 * H) = (2 * (num * (- w)) + den) / (2 * den).
Proof.
  destruct scaled_bounds as [Lo Hi]. destruct slack as [Sl SA].
  set (N := (2 * (num * (- w)) + den) / (2 * den)).
  pose proof (Z.div_mod (2 * (num * (- w)) + den) (2 * den) ltac:(lia)) as Hdm.
  pose proof (Z.mod_pos_bound (2 * (num * (- w)) + den) (2 * den) ltac:(lia)) as Hmod.
  fold N in Hdm.
  set (r := (2 * (num * (- w)) + den) mod (2 * den)) in *.
  replace (2 * den * N) with (2 * (den * N)) in Hdm by ring.
  replace (num * (- w)) with (- (num * w)) in Hdm by ring.
  change (2 ^ 55) with 36028797018963968 in *.
  change (2 ^ 54) with 18014398509481984 in *.
  change (2 ^ 52) with 4503599627370496 in *.
  change (2 ^ 9) with 512 in *.
  assert (Habs : - (den * A) < 2 * (delta * w) < den * A) by lia.
  assert (EH : forall x, 4 * (den * (A * (x * H))) = 4 * 18014398509481984 * (den * x)).
  { intros x. replace (4 * (den * (A * (x * H)))) with (4 * (A * H) * (den * x)) by ring.
    now rewrite HAH. }
  symmetry. apply (Z.div_unique _ _ _ (- m1 + H - 2 * H * N)); [|ring].
  left.
  split.
  - (* m1 <= (1 - 2N) H *)
    assert (L : 4 * (den * (A * m1)) < 4 * (den * (A * ((1 - 2 * N) * H + 1)))).
    { replace (4 * (den * (A * ((1 - 2 * N) * H + 1))))
        with (4 * (den * (A * ((1 - 2 * N) * H))) + 4 * (den * A)) by ring.
      rewrite EH.
      replace (den * (1 - 2 * N)) with (den - 2 * (den * N)) by ring.
      lia. }
    assert (m1 < (1 - 2 * N) * H + 1).
    { apply (Z.mul_lt_mono_pos_l (4 * den * A)); [nia|].
      replace (4 * den * A * ((1 - 2 * N) * H + 1))
        with (4 * (den * (A * ((1 - 2 * N) * H + 1)))) by ring.
      replace (4 * den * A * m1) with (4 * (den * (A * m1))) by ring.
      exact L. }
    lia.
  - (* - (2N + 1) H < m1 *)
    assert (L : 4 * (den * (A * ((- (2 * N + 1)) * H))) < 4 * (den * (A * m1))).
    { rewrite EH.
      replace (den * - (2 * N + 1)) with (- (2 * (den * N)) - den) by ring.
      lia. }
    assert ((- (2 * N + 1)) * H < m1).
    { apply (Z.mul_lt_mono_pos_l (4 * den * A)); [nia|].
      replace (4 * den * A * ((- (2 * N + 1)) * H))
        with (4 * (den * (A * ((- (2 * N + 1)) * H)))) by ring.
      replace (4 * den * A * m1) with (4 * (den * (A * m1))) by ring.
      exact L. }
    lia.
Qed.

End NearestInteger.

(** ** Rounding a quotient to nearest *)

Lemma shifted_iter_from (N D : Z) (rec : shr_record) (k : nat) :
  0 < D -> shifted N D rec ->
  shifted N (D * 2 ^ Z.of_nat k) (Nat.iter k shr_1 rec).
Proof.
  intros HD Hrec. induction k as [|k IH].
  - cbn [Nat.iter Z.of_nat]. now rewrite Z.pow_0_r, Z.mul_1_r.
  - rewrite Nat2Z.inj_succ, Z.pow_succ_r by lia. cbn [Nat.iter].
    replace (D * (2 * 2 ^ Z.of_nat k)) with (2 * (D * 2 ^ Z.of_nat k)) by ring.
    apply shifted_step; [|exact IH].
    apply Z.mul_pos_pos; [exact HD | apply Z.pow_pos_nonneg; lia].
Qed.

(** The quotient of a division with the place of its remainder. *)
Lemma new_location_shifted (a b : Z) :
  0 <= a -> 0 < b ->
  shifted a b (shr_record_of_loc (a / b) (new_location b (a mod b))).
Proof.
  intros Ha Hb.
  pose proof (Z.div_mod a b ltac:(lia)) as Hdm.
  pose proof (Z.mod_pos_bound a b Hb) as Hr.
  pose proof (Z.div_pos a b Ha Hb) as Hq.
  set (q := a / b) in *. set (r := a mod b) in *.
  exists r. unfold new_location, new_location_even, new_location_odd.
  destruct (Z.even b) eqn:Eb.
  - destruct (Z.eqb_spec r 0) as [E0 | N0]; cbn [shr_record_of_loc shr_m shr_r shr_s].
    + repeat split; try lia; intros; try lia; try discriminate; auto.
    + destruct (Z.compare_spec (2 * r) b) as [E | L | G];
        cbn [shr_record_of_loc shr_m shr_r shr_s];
        repeat split; try lia; intros; try lia; try discriminate; auto.
  - assert (Hodd : 2 * r <> b).
    { intros E. rewrite <- E, Z.even_mul in Eb. discriminate Eb. }
    destruct (Z.eqb_spec r 0) as [E0 | N0]; cbn [shr_record_of_loc shr_m shr_r shr_s].
    + repeat split; try lia; intros; try lia; try discriminate; auto.
    + destruct (Z.compare_spec (2 * r + 1) b) as [E | L | G];
        cbn [shr_record_of_loc shr_m shr_r shr_s];
        repeat split; try lia; intros; try lia; try discriminate; auto.
Qed.

Lemma shr_record_of_loc_m (q : Z) (l : location) :
  shr_m (shr_record_of_loc q l) = q.
Proof. destruct l as [|[| |]]; reflexivity. Qed.

Lemma shr_fexp_quotient (N D q e d : Z) (l : location) :
  0 < D -> 0 < q -> 2 ^ (d - 1) <= q < 2 ^ d -> 53 <= d ->
  -1074 <= e + d - 53 ->
  shifted N D (shr_record_of_loc q l) ->
  exists rec,
    shr_fexp prec emax q e l = (rec, e + d - 53)
    /\ shifted N (D * 2 ^ (d - 53)) rec.
Proof.
  intros HD Hq Hd H53 Hmin Hsh.
  unfold shr_fexp. rewrite (Zdigits2_unique q d Hq Hd).
  rewrite fexp_normal by lia.
  replace (d + e - 53 - e) with (d - 53) by lia.
  destruct (d - 53) as [|p|p] eqn:En; [| |lia].
  - exists (shr_record_of_loc q l). cbn [shr]. split; [f_equal; lia|].
    now rewrite Z.pow_0_r, Z.mul_1_r.
  - eexists. cbn [shr]. split; [f_equal; lia|].
    rewrite iter_pos_nat. rewrite <- (positive_nat_Z p).
    apply shifted_iter_from; assumption.
Qed.

Lemma binary_round_aux_quotient (sx : bool) (N D q e d : Z) (l : location) :
  0 < D -> 0 < q -> 2 ^ (d - 1) <= q < 2 ^ d -> 53 <= d ->
  -1074 <= e + d - 53 -> e + d - 53 < 971 ->
  shifted N D (shr_record_of_loc q l) ->
  exists (m1 : Z) (m' : positive),
    D * 2 ^ (d - 53) * (2 * m1 - 1) <= 2 * N <= D * 2 ^ (d - 53) * (2 * m1 + 1)
    /\ 2 ^ 52 <= Z.pos m' < 2 ^ 53
    /\ ((m1 < 2 ^ 53 /\ Z.pos m' = m1
         /\ binary_round_aux prec emax sx q e l = S754_finite sx m' (e + d - 53))
        \/ (m1 = 2 ^ 53 /\ Z.pos m' = 2 ^ 52
            /\ binary_round_aux prec emax sx q e l
               = S754_finite sx m' (e + d - 52))).
Proof.
  intros HD Hq Hd H53 Hmin Hmax Hsh.
  destruct (shr_fexp_quotient N D q e d l HD Hq Hd H53 Hmin Hsh) as (rec & E1 & Hrec).
  assert (HK : 0 < 2 ^ (d - 53)) by (apply Z.pow_pos_nonneg; lia).
  assert (HA : 0 < D * 2 ^ (d - 53)) by (apply Z.mul_pos_pos; assumption).
  pose proof (round_nearest_even_bounds N _ rec HA Hrec) as Hb. cbv zeta in Hb.
  set (m1 := round_nearest_even (shr_m rec) (loc_of_shr_record rec)) in *.
  destruct Hb as [Hb Hq1].
  assert (Hqr : 2 ^ 52 <= shr_m rec < 2 ^ 53).
  { destruct Hrec as (rem & HN & Hrem & Hq0 & _).
    destruct Hsh as (rem0 & HN0 & Hrem0 & _).
    rewrite shr_record_of_loc_m in HN0.
    assert (E52 : 2 ^ (d - 1) = 2 ^ 52 * 2 ^ (d - 53))
      by (rewrite <- Z.pow_add_r by lia; f_equal; lia).
    assert (E53 : 2 ^ d = 2 ^ 53 * 2 ^ (d - 53))
      by (rewrite <- Z.pow_add_r by lia; f_equal; lia).
    rewrite E52, E53 in Hd. clear E52 E53.
    set (K := 2 ^ (d - 53)) in *. set (q' := shr_m rec) in *.
    change (2 ^ 52) with 4503599627370496 in *.
    change (2 ^ 53) with 9007199254740992 in *.
    split.
    - destruct (Z.leb_spec 4503599627370496 q') as [|Hlt]; [assumption|]. exfalso.
      assert (H1 : (q' + 1) * (D * K) <= 4503599627370496 * (D * K))
        by (apply Z.mul_le_mono_nonneg_r; lia).
      assert (H2 : 4503599627370496 * K * D <= q * D)
        by (apply Z.mul_le_mono_nonneg_r; lia).
      replace (4503599627370496 * (D * K)) with (4503599627370496 * K * D) in H1 by ring.
      replace ((q' + 1) * (D * K)) with (q' * (D * K) + D * K) in H1 by ring.
      lia.
    - destruct (Z.ltb_spec q' 9007199254740992) as [|Hge]; [assumption|]. exfalso.
      assert (H1 : 9007199254740992 * (D * K) <= q' * (D * K))
        by (apply Z.mul_le_mono_nonneg_r; lia).
      assert (H2 : (q + 1) * D <= 9007199254740992 * K * D)
        by (apply Z.mul_le_mono_nonneg_r; lia).
      replace (9007199254740992 * (D * K)) with (9007199254740992 * K * D) in H1 by ring.
      replace ((q + 1) * D) with (q * D + D) in H2 by ring.
      lia. }
  assert (Hm1 : 2 ^ 52 <= m1 <= 2 ^ 53) by lia.
  assert (Hbra :
    binary_round_aux prec emax sx q e l
    = let '(mrs, e2) := shr_fexp prec emax m1 (e + d - 53) loc_Exact in
      match shr_m mrs with
      | 0 => S754_zero sx
      | Z.pos m =>
          if e2 <=? emax - prec then S754_finite sx m e2 else S754_infinity sx
      | Z.neg _ => S754_nan
      end).
  { unfold binary_round_aux. rewrite E1. reflexivity. }
  rewrite Hbra. clear Hbra.
  clearbody m1.
  destruct (Z.eq_dec m1 (2 ^ 53)) as [Etop | Ntop].
  - exists m1, (Z.to_pos (2 ^ 52)).
    split; [exact Hb|].
    split; [cbn; lia|]. right.
    split; [exact Etop|]. split; [reflexivity|].
    rewrite Etop.
    unfold shr_fexp.
    change (Zdigits2 (2 ^ 53)) with 54.
    rewrite fexp_normal by lia.
    replace (54 + (e + d - 53) - 53 - (e + d - 53)) with 1 by lia.
    cbn [shr_record_of_loc shr iter_pos shr_m].
    change (shr_m (shr_1 {| shr_m := 2 ^ 53; shr_r := false; shr_s := false |}))
      with (Z.pos (Z.to_pos (2 ^ 52))).
    cbv iota beta.
    replace (e + d - 53 + 1) with (e + d - 52) by lia.
    assert (Hle : (e + d - 52 <=? emax - prec) = true)
      by (apply Z.leb_le; unfold emax, prec; lia).
    rewrite Hle. reflexivity.
  - assert (Hlt : m1 < 2 ^ 53) by lia.
    destruct m1 as [|m'|m']; [cbn in Hm1; lia | | cbn in Hm1; lia].
    exists (Z.pos m'), m'.
    split; [exact Hb|].
    split; [lia|]. left.
    split; [exact Hlt|]. split; [reflexivity|].
    destruct (shr_fexp_normal (Z.pos m') (e + d - 53) 53 ltac:(lia) ltac:(cbn in *; lia)
                ltac:(lia) ltac:(lia)) as (rec2 & E2 & _ & Hrec2).
    rewrite E2. rewrite (Hrec2 eq_refl). cbn [shr_m].
    replace (e + d - 53 + 53 - 53) with (e + d - 53) by lia.
    assert (Hle : (e + d - 53 <=? emax - prec) = true)
      by (apply Z.leb_le; unfold emax, prec; lia).
    rewrite Hle. reflexivity.
Qed.

(** ** Rounding the third of an integer *)

Lemma Prim2SF_3 : Prim2SF 3 = S754_finite false 6755399441055744 (-51).
Proof. vm_compute. reflexivity. Qed.

Lemma Math_round_third (z : Z) :
  0 < Z.abs z < 2 ^ 50 ->
  exists H m1 : Z,
    4 <= H
    /\ 3 * (2 * m1 - 1) <= 2 * (Z.abs z * H) <= 3 * (2 * m1 + 1)
    /\ Math_round (of_Z z / 3) = (2 * signed (z <? 0) m1 + H) / (2 * H).
Proof.
  intros Hz.
  destruct (Prim2SF_of_Z z ltac:(change (2 ^ 50) with 1125899906842624 in Hz;
                                 change (2 ^ 53) with 9007199254740992; lia))
    as (k & mz & Hk & Emz & Hmz & Ez).
  assert (Hk3 : 3 <= k).
  { destruct (Z.leb_spec 3 k); [assumption|]. exfalso.
    assert (2 ^ k <= 2 ^ 2) by (apply Z.pow_le_mono_r; lia).
    change (2 ^ 2) with 4 in *. change (2 ^ 50) with 1125899906842624 in *.
    change (2 ^ 52) with 4503599627370496 in *.
    assert (Z.abs z * 2 ^ k <= Z.abs z * 4) by (apply Z.mul_le_mono_nonneg_l; lia).
    lia. }
  set (D := 6755399441055744).
  set (N := Z.pos mz * 2 ^ 53).
  assert (HN : 2 ^ 105 <= N < 2 ^ 106).
  { subst N. change (2 ^ 105) with (2 ^ 52 * 2 ^ 53).
    change (2 ^ 106) with (2 ^ 53 * 2 ^ 53).
    change (2 ^ 52) with 4503599627370496 in *.
    change (2 ^ 53) with 9007199254740992 in *. lia. }
  assert (Ecore : SFdiv_core_binary prec emax (Z.pos mz) (- k) D (-51)
                  = (N / D, - k - 2, new_location D (N mod D))).
  { unfold SFdiv_core_binary.
    rewrite (Zdigits2_unique (Z.pos mz) 53) by (cbn in *; lia).
    change (Zdigits2 D) with 53.
    rewrite fexp_normal by lia.
    replace (Z.min (53 + - k - (53 + -51) - 53) (- k - -51)) with (- k - 2) by lia.
    replace (- k - -51 - (- k - 2)) with 53 by lia.
    rewrite Z.shiftl_mul_pow2 by lia. fold N.
    unfold Z.div, Z.modulo. destruct (Z.div_eucl N D) as [q r]. reflexivity. }
  unfold Math_round.
  rewrite div_spec, Ez, Prim2SF_3. unfold SF64div. cbn [SFdiv].
  fold D. rewrite Ecore, xorb_false_r.
  set (q := N / D).
  assert (Hq : 2 ^ 52 <= q < 2 ^ 54).
  { subst q D. change (2 ^ 105) with 40564819207303340847894502572032 in HN.
    change (2 ^ 106) with 81129638414606681695789005144064 in HN.
    change (2 ^ 52) with 4503599627370496. change (2 ^ 54) with 18014398509481984.
    split.
    - apply Z.div_le_lower_bound; lia.
    - apply Z.div_lt_upper_bound; lia. }
  assert (Hqpos : 0 < q) by (change (2 ^ 52) with 4503599627370496 in Hq; lia).
  destruct q as [|pq|pq] eqn:Eq; [lia | | lia].
  pose proof (Zdigits2_bounds pq) as Hd.
  set (d := Zdigits2 (Z.pos pq)) in *.
  assert (Hd53 : 53 <= d <= 54).
  { split.
    - destruct (Z.leb_spec 53 d); [assumption|]. exfalso.
      assert (2 ^ d <= 2 ^ 52)
        by (destruct (Z.ltb_spec d 0);
            [rewrite Z.pow_neg_r by lia; cbn; lia | apply Z.pow_le_mono_r; lia]).
      lia.
    - destruct (Z.leb_spec d 54); [assumption|]. exfalso.
      assert (2 ^ 54 <= 2 ^ (d - 1)) by (apply Z.pow_le_mono_r; lia). lia. }
  pose proof (new_location_shifted N D ltac:(subst N; lia) ltac:(subst D; lia)) as Hsh.
  fold q in Hsh. rewrite Eq in Hsh.
  destruct (binary_round_aux_quotient (z <? 0) N D (Z.pos pq) (- k - 2) d
              (new_location D (N mod D))
              ltac:(subst D; lia) ltac:(lia) Hd ltac:(lia) ltac:(lia) ltac:(lia) Hsh)
    as (m1 & m' & Hb & Hm' & Hcase).
  set (s := k + 54 - d).
  assert (Hs : 3 <= s) by (subst s; lia).
  assert (HH : 0 < 2 ^ s) by (apply Z.pow_pos_nonneg; lia).
  assert (HH8 : 8 <= 2 ^ s).
  { change 8 with (2 ^ 3). apply Z.pow_le_mono_r; lia. }
  exists (2 * 2 ^ s), m1.
  split; [lia|]. split.
  { set (K := 2 ^ (d - 53)) in *.
    assert (HK : 0 < K) by (apply Z.pow_pos_nonneg; lia).
    assert (EKH : K * (2 * 2 ^ s) = 4 * 2 ^ k).
    { subst K s. rewrite <- (Z.pow_succ_r 2 (k + 54 - d)) by lia.
      rewrite <- Z.pow_add_r by lia. change 4 with (2 ^ 2).
      rewrite <- Z.pow_add_r by lia. f_equal. lia. }
    assert (EN : 2 * N = (2 ^ 51 * K) * (2 * (Z.abs z * (2 * 2 ^ s)))).
    { subst N. rewrite Emz.
      replace (2 ^ 51 * K * (2 * (Z.abs z * (2 * 2 ^ s))))
        with (2 * Z.abs z * 2 ^ 51 * (K * (2 * 2 ^ s))) by ring.
      rewrite EKH. change (2 ^ 53) with (4 * 2 ^ 51). ring. }
    assert (ED : forall x, D * K * x = (2 ^ 51 * K) * (3 * x)).
    { intros x. subst D. change 6755399441055744 with (3 * 2 ^ 51). ring. }
    rewrite EN, !ED in Hb.
    assert (HP : 0 < 2 ^ 51 * K) by (apply Z.mul_pos_pos; [reflexivity | exact HK]).
    destruct Hb as [Lo Hi].
    apply Z.mul_le_mono_pos_l in Lo; [|exact HP].
    apply Z.mul_le_mono_pos_l in Hi; [|exact HP].
    split; assumption. }
  destruct Hcase as [(Hlt & Em' & E) | (Etop & Em' & E)]; rewrite E.
  - replace (- k - 2 + d - 53) with (- (s + 1)) by (subst s; lia).
    destruct (Z.leb_spec 0 (- (s + 1))); [lia|].
    rewrite Z.opp_involutive.
    replace (1 - - (s + 1)) with (1 + (1 + s)) by lia.
    rewrite (Z.pow_add_r 2 1 (1 + s)), (Z.pow_add_r 2 1 s), (Z.add_comm s 1),
      (Z.pow_add_r 2 1 s) by lia.
    change (2 ^ 1) with 2.
    f_equal. unfold signed. destruct (z <? 0); lia.
  - replace (- k - 2 + d - 52) with (- s) by (subst s; lia).
    destruct (Z.leb_spec 0 (- s)); [lia|].
    rewrite Z.opp_involutive.
    replace (1 - - s) with (1 + s) by lia.
    rewrite (Z.pow_add_r 2 1 s) by lia. change (2 ^ 1) with 2.
    replace (2 * signed (z <? 0) m1 + 2 * 2 ^ s)
      with (2 * (2 * (if z <? 0 then Z.neg m' else Z.pos m') + 2 ^ s)).
    + rewrite Z.div_mul_cancel_l by lia. reflexivity.
    + unfold signed. rewrite Etop.
      change (2 ^ 53) with (2 * 2 ^ 52). rewrite <- Em'.
      destruct (z <? 0); lia.
Qed.

Lemma nearest_third_positive (H m1 w : Z) :
  4 <= H -> 0 < w ->
  3 * (2 * m1 - 1) <= 2 * (w * H) <= 3 * (2 * m1 + 1) ->
  (2 * m1 + H) / (2 * H) = (2 * w + 3) / (2 * 3).
Proof.
  intros HH Hw [Lo Hi].
  set (R := (2 * w + 3) / (2 * 3)).
  pose proof (Z.div_mod (2 * w + 3) (2 * 3) ltac:(lia)) as Hdm.
  pose proof (Z.mod_pos_bound (2 * w + 3) (2 * 3) ltac:(lia)) as Hmod.
  fold R in Hdm. set (r := (2 * w + 3) mod (2 * 3)) in *.
  assert (Hr : r = 1 \/ r = 3 \/ r = 5) by lia.
  symmetry. apply (Z.div_unique _ _ _ (2 * m1 + H - 2 * H * R)); [|ring].
  left.
  assert (Ew : w = 3 * R - 1 \/ w = 3 * R \/ w = 3 * R + 1) by lia.
  clearbody R r. clear Hdm Hmod Hr.
  set (P := R * H).
  destruct Ew as [-> | [-> | ->]].
  - replace (2 * ((3 * R - 1) * H)) with (6 * P - 2 * H) in Lo, Hi by (subst P; ring).
    replace (2 * H * R) with (2 * P) by (subst P; ring). lia.
  - replace (2 * (3 * R * H)) with (6 * P) in Lo, Hi by (subst P; ring).
    replace (2 * H * R) with (2 * P) by (subst P; ring). lia.
  - replace (2 * ((3 * R + 1) * H)) with (6 * P + 2 * H) in Lo, Hi by (subst P; ring).
    replace (2 * H * R) with (2 * P) by (subst P; ring). lia.
Qed.

Lemma nearest_third_negative (H m1 w : Z) :
  4 <= H -> 0 < w ->
  3 * (2 * m1 - 1) <= 2 * (w * H) <= 3 * (2 * m1 + 1) ->
  (2 * - m1 + H) / (2 * H) = (2 * - w + 3) / (2 * 3).
Proof.
  intros HH Hw [Lo Hi].
  set (R := (2 * - w + 3) / (2 * 3)).
  pose proof (Z.div_mod (2 * - w + 3) (2 * 3) ltac:(lia)) as Hdm.
  pose proof (Z.mod_pos_bound (2 * - w + 3) (2 * 3) ltac:(lia)) as Hmod.
  fold R in Hdm. set (r := (2 * - w + 3) mod (2 * 3)) in *.
  assert (Hr : r = 1 \/ r = 3 \/ r = 5) by lia.
  symmetry. apply (Z.div_unique _ _ _ (2 * - m1 + H - 2 * H * R)); [|ring].
  left.
  assert (Ew : w = - (3 * R) - 1 \/ w = - (3 * R) \/ w = - (3 * R) + 1) by lia.
  clearbody R r. clear Hdm Hmod Hr.
  set (P := R * H).
  destruct Ew as [-> | [-> | ->]].
  - replace (2 * ((- (3 * R) - 1) * H)) with (- (6 * P) - 2 * H) in Lo, Hi
      by (subst P; ring).
    replace (2 * H * R) with (2 * P) by (subst P; ring). lia.
  - replace (2 * (- (3 * R) * H)) with (- (6 * P)) in Lo, Hi by (subst P; ring).
    replace (2 * H * R) with (2 * P) by (subst P; ring). lia.
  - replace (2 * ((- (3 * R) + 1) * H)) with (- (6 * P) + 2 * H) in Lo, Hi
      by (subst P; ring).
    replace (2 * H * R) with (2 * P) by (subst P; ring). lia.
Qed.

(** ** Comparing the binary64 values of two integers *)

Lemma scaled_lt (A B ka kb : Z) :
  0 < A -> 0 < B -> 0 <= kb < ka ->
  A * 2 ^ ka < 2 ^ 53 -> 2 ^ 52 <= B * 2 ^ kb ->
  A < B.
Proof.
  intros HA HB Hk Ha Hb.
  assert (Hp : 0 < 2 ^ kb) by (apply Z.pow_pos_nonneg; lia).
  assert (E : 2 ^ ka = 2 ^ (ka - kb) * 2 ^ kb)
    by (rewrite <- Z.pow_add_r by lia; f_equal; lia).
  assert (H2 : 2 <= 2 ^ (ka - kb)).
  { change 2 with (2 ^ 1) at 1. apply Z.pow_le_mono_r; lia. }
  rewrite E in Ha.
  assert (H3 : A * (2 * 2 ^ kb) <= A * (2 ^ (ka - kb) * 2 ^ kb)).
  { apply Z.mul_le_mono_nonneg_l; [lia|]. apply Z.mul_le_mono_nonneg_r; lia. }
  change (2 ^ 53) with (2 * 2 ^ 52) in Ha.
  apply (Z.mul_lt_mono_pos_r (2 ^ kb)); [exact Hp|]. lia.
Qed.

Lemma of_Z_compare (a b : Z) :
  Z.abs a < 2 ^ 53 -> Z.abs b < 2 ^ 53 ->
  SFcompare (Prim2SF (of_Z a)) (Prim2SF (of_Z b)) = Some (a ?= b).
Proof.
  intros Ha Hb.
  destruct (Z.eq_dec a 0) as [-> | Hna]; destruct (Z.eq_dec b 0) as [-> | Hnb].
  - reflexivity.
  - destruct (Prim2SF_of_Z b ltac:(lia)) as (kb & mb & _ & _ & _ & ->).
    change (Prim2SF (of_Z 0)) with (S754_zero false). cbn [SFcompare].
    destruct (Z.ltb_spec b 0); f_equal; symmetry;
      [apply Z.compare_gt_iff | apply Z.compare_lt_iff]; lia.
  - destruct (Prim2SF_of_Z a ltac:(lia)) as (ka & ma & _ & _ & _ & ->).
    change (Prim2SF (of_Z 0)) with (S754_zero false). cbn [SFcompare].
    destruct (Z.ltb_spec a 0); f_equal; symmetry;
      [apply Z.compare_lt_iff | apply Z.compare_gt_iff]; lia.
  - destruct (Prim2SF_of_Z a ltac:(lia)) as (ka & ma & Hka & Ema & Hma & ->).
    destruct (Prim2SF_of_Z b ltac:(lia)) as (kb & mb & Hkb & Emb & Hmb & ->).
    cbn [SFcompare].
    assert (Hsame : ka = kb -> (Z.pos ma ?= Z.pos mb) = (Z.abs a ?= Z.abs b)).
    { intros ->. rewrite Ema, Emb.
      assert (Hp : 0 < 2 ^ kb) by (apply Z.pow_pos_nonneg; lia).
      destruct (Z.compare_spec (Z.abs a) (Z.abs b)) as [E | L | G].
      - rewrite E. apply Z.compare_refl.
      - apply Z.compare_lt_iff. now apply Z.mul_lt_mono_pos_r.
      - apply Z.compare_gt_iff. now apply Z.mul_lt_mono_pos_r. }
    assert (Hlt : kb < ka -> Z.abs a < Z.abs b).
    { intros Hk. apply (scaled_lt _ _ ka kb); lia. }
    assert (Hgt : ka < kb -> Z.abs b < Z.abs a).
    { intros Hk. apply (scaled_lt _ _ kb ka); lia. }
    change (Pos.compare_cont Eq ma mb) with (Z.pos ma ?= Z.pos mb).
    destruct (Z.ltb_spec a 0) as [Na | Pa]; destruct (Z.ltb_spec b 0) as [Nb | Pb].
    + (* both negative *)
      destruct (Z.compare_spec (- ka) (- kb)) as [E | L | G]; f_equal; symmetry.
      * rewrite (Hsame ltac:(lia)).
        destruct (Z.compare_spec (Z.abs a) (Z.abs b)); cbn [CompOpp];
          [apply Z.compare_eq_iff | apply Z.compare_gt_iff | apply Z.compare_lt_iff];
          lia.
      * apply Z.compare_gt_iff. specialize (Hlt ltac:(lia)). lia.
      * apply Z.compare_lt_iff. specialize (Hgt ltac:(lia)). lia.
    + f_equal. symmetry. apply Z.compare_lt_iff. lia.
    + f_equal. symmetry. apply Z.compare_gt_iff. lia.
    + (* both positive *)
      destruct (Z.compare_spec (- ka) (- kb)) as [E | L | G]; f_equal; symmetry.
      * rewrite (Hsame ltac:(lia)).
        destruct (Z.compare_spec (Z.abs a) (Z.abs b));
          [apply Z.compare_eq_iff | apply Z.compare_lt_iff | apply Z.compare_gt_iff];
          lia.
      * apply Z.compare_lt_iff. specialize (Hlt ltac:(lia)). lia.
      * apply Z.compare_gt_iff. specialize (Hgt ltac:(lia)). lia.
Qed.

Lemma of_Z_ltb (a b : Z) :
  Z.abs a < 2 ^ 53 -> Z.abs b < 2 ^ 53 ->
  (of_Z a <? of_Z b)%float = (a <? b).
Proof.
  intros Ha Hb. rewrite ltb_spec. unfold SFltb, Z.ltb.
  now rewrite (of_Z_compare a b Ha Hb).
Qed.

Lemma of_Z_leb (a b : Z) :
  Z.abs a < 2 ^ 53 -> Z.abs b < 2 ^ 53 ->
  (of_Z a <=? of_Z b)%float = (a <=? b).
Proof.
  intros Ha Hb. rewrite leb_spec. unfold SFleb, Z.leb.
  rewrite (of_Z_compare a b Ha Hb). destruct (a ?= b); reflexivity.
Qed.

Lemma of_Z_eqb (a b : Z) :
  Z.abs a < 2 ^ 53 -> Z.abs b < 2 ^ 53 ->
  (of_Z a =? of_Z b)%float = (a =? b).
Proof.
  intros Ha Hb. rewrite eqb_spec. unfold SFeqb.
  rewrite (of_Z_compare a b Ha Hb).
  destruct (Z.compare_spec a b) as [-> | L | G].
  - symmetry. apply Z.eqb_refl.
  - symmetry. apply Z.eqb_neq. lia.
  - symmetry. apply Z.eqb_neq. lia.
Qed.
(** ** ISBN conversion *)

Import Isbn.

Example isbn13to10_vector :
  isbn13to10 (js "978-0-306-40615-7") = Some (js "0306406152").
Proof. vm_compute. reflexivity. Qed.

Example valid_isbn10_vector : valid_isbn10 (js "0306406152") = true.
Proof. vm_compute. reflexivity. Qed.

Example valid_isbn10_X : valid_isbn10 (js "080442957X") = true.
Proof. vm_compute. reflexivity. Qed.

Example isbn13to10_X :
  isbn13to10 (js "9780804429573") = Some (js "080442957X").
Proof. vm_compute. reflexivity. Qed.

Example isbn10to13_nonnumeric :
  isbn10to13 (js "abcdefghij") = Some (js "978abcdefghiNaN").
Proof. vm_compute. reflexivity. Qed.


(** Characters that survive [strip]. *)
Lemma digit_not_stripped (c : ascii) :
  is_digit c = true -> negb (is_hyphen c || is_space c) = true.
Proof.
  unfold is_digit, is_hyphen, is_space.
  intros H. apply andb_true_iff in H as [H1 H2].
  apply Z.leb_le in H1. apply Z.leb_le in H2.
  apply negb_true_iff.
  repeat (apply orb_false_iff; split); apply Z.eqb_neq; lia.
Qed.

Lemma check_char_not_stripped (c : ascii) (v : Z) :
  check_value c = Some v -> negb (is_hyphen c || is_space c) = true.
Proof.
  unfold check_value. destruct (is_digit c) eqn:Hd.
  - intros _. now apply digit_not_stripped.
  - destruct (code c =? 88) eqn:Hx; [intros _ | discriminate].
    apply Z.eqb_eq in Hx. unfold is_hyphen, is_space. rewrite Hx. reflexivity.
Qed.

Lemma strip_cons_keep (c : ascii) (s : jsstring) :
  negb (is_hyphen c || is_space c) = true -> strip (c :: s) = c :: strip s.
Proof. intros H. unfold strip. cbn [filter]. now rewrite H. Qed.

Lemma strip_nil : strip [] = [].
Proof. reflexivity. Qed.

(** A decimal digit is the string of its own value. *)
Lemma digit_to_string (c : ascii) :
  is_digit c = true -> to_string (Some (code c - 48)) = [c].
Proof.
  destruct c as [[] [] [] [] [] [] [] []]; vm_compute;
    first [ discriminate | reflexivity ].
Qed.

Lemma digit_range (c : ascii) :
  is_digit c = true -> 0 <= code c - 48 <= 9.
Proof.
  unfold is_digit. intros H. apply andb_true_iff in H as [H1 H2].
  apply Z.leb_le in H1. apply Z.leb_le in H2. lia.
Qed.

Lemma small_to_string_digit (k : Z) :
  0 <= k <= 9 ->
  exists c, to_string (Some k) = [c] /\ is_digit c = true /\ code c - 48 = k.
Proof.
  intros H.
  assert (Hk : k = 0 \/ k = 1 \/ k = 2 \/ k = 3 \/ k = 4 \/ k = 5 \/ k = 6
               \/ k = 7 \/ k = 8 \/ k = 9) by lia.
  repeat (destruct Hk as [Hk | Hk];
          [subst k; eexists; repeat split; vm_compute; reflexivity |]).
  subst k; eexists; repeat split; vm_compute; reflexivity.
Qed.

Lemma check_value_inv (c : ascii) (v : Z) :
  check_value c = Some v ->
  0 <= v <= 10 /\ (v = 10 -> [c] = js "X") /\ (v <= 9 -> to_string (Some v) = [c]).
Proof.
  destruct c as [[] [] [] [] [] [] [] []]; vm_compute; intros H;
    first [ discriminate
          | injection H as <-; repeat split; intros; first [ reflexivity | discriminate | congruence | lia ] ].
Qed.

(** The shape of a valid ISBN-10. *)
Lemma valid_isbn10_inv (x : jsstring) :
  valid_isbn10 x = true ->
  exists c0 c1 c2 c3 c4 c5 c6 c7 c8 c9 v,
    x = [c0; c1; c2; c3; c4; c5; c6; c7; c8; c9]
    /\ forallb is_digit [c0; c1; c2; c3; c4; c5; c6; c7; c8] = true
    /\ check_value c9 = Some v
    /\ (10 * (code c0 - 48) + 9 * (code c1 - 48) + 8 * (code c2 - 48)
        + 7 * (code c3 - 48) + 6 * (code c4 - 48) + 5 * (code c5 - 48)
        + 4 * (code c6 - 48) + 3 * (code c7 - 48) + 2 * (code c8 - 48)
        + v) mod 11 = 0.
Proof.
  unfold valid_isbn10. intros H.
  apply andb_true_iff in H as [H Hsum].
  apply andb_true_iff in H as [Hlen Hdig].
  apply Nat.eqb_eq in Hlen.
  destruct x as [|c0 [|c1 [|c2 [|c3 [|c4 [|c5 [|c6 [|c7 [|c8 [|c9 [|c10 x]]]]]]]]]]];
    try discriminate Hlen.
  cbn [nth_error firstn] in Hsum, Hdig.
  destruct (check_value c9) as [v|] eqn:Hv; [|discriminate].
  exists c0, c1, c2, c3, c4, c5, c6, c7, c8, c9, v.
  repeat split; try assumption.
  apply Z.eqb_eq in Hsum.
  cbn [map app weighted] in Hsum.
  rewrite <- Hsum. f_equal. lia.
Qed.

Ltac digits_of Hdig :=
  cbn [forallb] in Hdig;
  repeat match type of Hdig with
         | (_ && _) = true =>
             let H := fresh "D" in
             apply andb_true_iff in Hdig as [H Hdig]
         end.

(** C4: for every valid ISBN-10 [x], converting to ISBN-13 and back
    returns [x]. *)
Theorem isbn_roundtrip (x : jsstring) :
  valid_isbn10 x = true -> isbn_there_and_back x = Some x.
Proof.
  intros Hvalid.
  destruct (valid_isbn10_inv x Hvalid)
    as (c0 & c1 & c2 & c3 & c4 & c5 & c6 & c7 & c8 & c9 & v & -> & Hdig & Hv & Hsum).
  digits_of Hdig.
  pose proof (digit_range _ D) as R0. pose proof (digit_range _ D0) as R1.
  pose proof (digit_range _ D1) as R2. pose proof (digit_range _ D2) as R3.
  pose proof (digit_range _ D3) as R4. pose proof (digit_range _ D4) as R5.
  pose proof (digit_range _ D5) as R6. pose proof (digit_range _ D6) as R7.
  pose proof (digit_range _ D7) as R8.
  destruct (check_value_inv _ _ Hv) as (Rv & HX & Hlow).
  unfold isbn_there_and_back, isbn10to13.
  rewrite !strip_cons_keep, strip_nil
    by (first [ apply digit_not_stripped; assumption
              | eapply check_char_not_stripped; eassumption ]).
  cbn [List.length Nat.eqb negb substring Nat.sub skipn firstn js
       list_ascii_of_string app].
  unfold for_upto.
  cbn [seq fold_left nth_error Nat.modulo Nat.divmod Nat.sub snd fst Nat.eqb].
  unfold parseInt_char.
  rewrite D, D0, D1, D2, D3, D4, D5, D6, D7.
  change (is_digit "9") with true. change (is_digit "7") with true.
  change (is_digit "8") with true.
  change (code "9" - 48) with 9. change (code "7" - 48) with 7.
  change (code "8" - 48) with 8.
  set (v0 := code c0 - 48) in *. set (v1 := code c1 - 48) in *.
  set (v2 := code c2 - 48) in *. set (v3 := code c3 - 48) in *.
  set (v4 := code c4 - 48) in *. set (v5 := code c5 - 48) in *.
  set (v6 := code c6 - 48) in *. set (v7 := code c7 - 48) in *.
  set (v8 := code c8 - 48) in *.
  cbn [add mul sub rem lift2 Z.eqb].
  match goal with
  | |- context [to_string (Some ?k)] => set (k13 := k)
  end.
  assert (Hk : 0 <= k13 <= 9).
  { subst k13.
    match goal with
    | |- 0 <= Z.rem (10 - Z.rem ?s 10) 10 <= 9 =>
        assert (0 <= s) by lia;
        rewrite (Z.rem_mod_nonneg s 10) by lia;
        pose proof (Z.mod_pos_bound s 10 ltac:(lia));
        rewrite Z.rem_mod_nonneg by lia;
        pose proof (Z.mod_pos_bound (10 - s mod 10) 10 ltac:(lia)); lia
    end. }
  destruct (small_to_string_digit k13 Hk) as (ck & -> & Dk & _).
  clearbody k13.
  unfold isbn13to10.
  cbn [app].
  rewrite !strip_cons_keep, strip_nil
    by (first [ apply digit_not_stripped; first [assumption | reflexivity] ]).
  cbn [List.length Nat.eqb negb substring Nat.sub skipn firstn js
       list_ascii_of_string startsWith orb andb].
  change (Ascii.eqb "9" "9") with true. change (Ascii.eqb "7" "7") with true.
  change (Ascii.eqb "8" "8") with true.
  cbn [andb negb orb].
  unfold for_upto. cbn [seq fold_left nth_error].
  unfold parseInt_char.
  rewrite D, D0, D1, D2, D3, D4, D5, D6, D7.
  fold v0 v1 v2 v3 v4 v5 v6 v7 v8.
  cbn [add mul sub rem lift2 Z.eqb strict_eq Z.of_nat Pos.of_succ_nat Pos.succ].
  match goal with
  | |- context [Z.rem ?t 11] => set (T := t) in *
  end.
  assert (HT : 0 <= T) by (subst T; lia).
  rewrite (Z.rem_mod_nonneg T 11) by lia.
  pose proof (Z.mod_pos_bound T 11 ltac:(lia)) as Hr.
  assert (Hrel : (T mod 11 + v) mod 11 = 0).
  { rewrite Z.add_mod_idemp_l by lia. rewrite <- Hsum. f_equal. subst T. lia. }
  assert (Hv9 : v = (11 - T mod 11) mod 11).
  { generalize dependent (T mod 11). intros r Hr Hrel.
    apply Z.mod_divide in Hrel; [|lia]. destruct Hrel as [q Hq].
    assert (q = 0 \/ q = 1) as [-> | ->] by lia.
    - assert (r = 0) by lia. subst r. assert (v = 0) by lia. subst v. reflexivity.
    - assert (v = 11 - r) by lia. subst v.
      rewrite Z.mod_small by lia. reflexivity. }
  destruct (Z.eqb_spec (T mod 11) 0) as [E0 | N0].
  - rewrite E0 in Hv9. change ((11 - 0) mod 11) with 0 in Hv9.
    pose proof (Hlow ltac:(lia)) as Hc. rewrite Hv9 in Hc.
    vm_compute in Hc. injection Hc as <-. reflexivity.
  - destruct (Z.eqb_spec (T mod 11) 1) as [E1 | N1].
    + rewrite E1 in Hv9. change ((11 - 1) mod 11) with 10 in Hv9.
      pose proof (HX Hv9) as Hc. vm_compute in Hc. injection Hc as ->.
      reflexivity.
    + rewrite Z.mod_small in Hv9 by lia.
      rewrite <- Hv9. rewrite (Hlow ltac:(lia)). reflexivity.
Qed.

Lemma isbn_roundtrip_witness :
  valid_isbn10 (js "080442957X") = true
  /\ isbn_there_and_back (js "080442957X") = Some (js "080442957X").
Proof.
  split; [vm_compute; reflexivity | apply isbn_roundtrip; vm_compute; reflexivity].
Defined.

(** C5, as the code has it: the ISBN-13 of [0306406152] ends in the check
    digit 7 (the weighted sum of [978030640615] is 93). *)
Theorem isbn10to13_vector :
  isbn10to13 (js "0306406152") = Some (js "9780306406157").
Proof. vm_compute. reflexivity. Qed.

(** C5 as stated does not hold: the result is not [9780306406153]. *)
Lemma isbn10to13_vector_not_3 :
  isbn10to13 (js "0306406152") <> Some (js "9780306406153").
Proof. vm_compute. discriminate. Qed.

(** C6 as stated does not hold: input of the right cleaned length with
    letters in it is malformed, and both functions return a string. *)
Lemma isbn_malformed_not_null :
  ~ (forall s : jsstring,
        (malformed_isbn10 s = true -> isbn10to13 s = None)
        /\ (malformed_isbn13 s = true -> isbn13to10 s = None)).
Proof.
  intros H.
  destruct (H (js "abcdefghij")) as [H10 _].
  specialize (H10 eq_refl). vm_compute in H10. discriminate H10.
Qed.

Example isbn13to10_nonnumeric :
  malformed_isbn13 (js "978abcdefghij") = true
  /\ isbn13to10 (js "978abcdefghij") = Some (js "abcdefghiNaN").
Proof. vm_compute. split; reflexivity. Qed.

(** C6, as the code has it: each function returns null exactly when the
    cleaned length (and, for [isbn13to10], the prefix) is wrong; on every
    other input, numeric or not, it returns a string. Both are total: no
    operation of either body can throw on a string argument. *)
Theorem isbn_null_iff (s : jsstring) :
  (isbn10to13 s = None <-> List.length (strip s) <> 10%nat)
  /\ (isbn13to10 s = None <->
      (List.length (strip s) <> 13%nat \/ startsWith (js "978") (strip s) = false)).
Proof.
  split.
  - unfold isbn10to13.
    destruct (Nat.eqb_spec (List.length (strip s)) 10) as [E | N]; cbn [negb].
    + split; [discriminate | intros C; now elim C].
    + split; [intros _; exact N | reflexivity].
  - unfold isbn13to10.
    destruct (Nat.eqb_spec (List.length (strip s)) 13) as [E | N]; cbn [negb orb].
    + destruct (startsWith (js "978") (strip s)); cbn [negb].
      * split; [discriminate | intros [C | C]; [now elim C | discriminate C]].
      * split; [intros _; now right | reflexivity].
    + split; [intros _; now left | reflexivity].
Qed.

(** *** Check digits *)

Import Isbn13.

Ltac ranges_of_digits :=
  repeat match goal with
         | D : is_digit ?c = true |- _ =>
             lazymatch goal with
             | _ : 0 <= code c - 48 <= 9 |- _ => fail
             | _ => pose proof (digit_range c D)
             end
         end.

Lemma rem_check10 (S : Z) :
  0 <= S ->
  let k := Z.rem (10 - Z.rem S 10) 10 in
  0 <= k <= 9 /\ (S + k) mod 10 = 0.
Proof.
  intros HS k. subst k.
  rewrite (Z.rem_mod_nonneg S 10) by lia.
  pose proof (Z.mod_pos_bound S 10 ltac:(lia)) as Hr.
  rewrite Z.rem_mod_nonneg by lia.
  pose proof (Z.mod_pos_bound (10 - S mod 10) 10 ltac:(lia)) as Hk.
  split; [lia|].
  rewrite Z.add_mod_idemp_r by lia.
  rewrite <- Z.add_mod_idemp_l by lia.
  replace (S mod 10 + (10 - S mod 10)) with (1 * 10) by lia.
  apply Z.mod_mul. lia.
Qed.

(** X1: [isbn10to13] on an input that cleans to ten characters, the
    first nine of them decimal digits, returns a valid ISBN-13: thirteen
    digits that begin with 978, carry the nine digits of the input and
    pass the check-digit rule. The tenth character of the input is not
    looked at. *)
Theorem isbn10to13_valid (s : jsstring) :
  List.length (strip s) = 10%nat ->
  forallb is_digit (firstn 9 (strip s)) = true ->
  exists y,
    isbn10to13 s = Some y
    /\ valid_isbn13 y = true
    /\ startsWith (js "978") y = true
    /\ substring 3 12 y = firstn 9 (strip s).
Proof.
  unfold isbn10to13. intros Hlen Hdig.
  destruct (strip s)
    as [|c0 [|c1 [|c2 [|c3 [|c4 [|c5 [|c6 [|c7 [|c8 [|c9 [|c10 x]]]]]]]]]]];
    try discriminate Hlen.
  cbn [firstn] in Hdig. digits_of Hdig. ranges_of_digits.
  cbn [List.length Nat.eqb negb substring Nat.sub skipn firstn js
       list_ascii_of_string app].
  unfold for_upto.
  cbn [seq fold_left nth_error Nat.modulo Nat.divmod Nat.sub snd fst Nat.eqb].
  unfold parseInt_char.
  rewrite D, D0, D1, D2, D3, D4, D5, D6, D7.
  change (is_digit "9") with true. change (is_digit "7") with true.
  change (is_digit "8") with true.
  change (code "9" - 48) with 9. change (code "7" - 48) with 7.
  change (code "8" - 48) with 8.
  set (v0 := code c0 - 48) in *. set (v1 := code c1 - 48) in *.
  set (v2 := code c2 - 48) in *. set (v3 := code c3 - 48) in *.
  set (v4 := code c4 - 48) in *. set (v5 := code c5 - 48) in *.
  set (v6 := code c6 - 48) in *. set (v7 := code c7 - 48) in *.
  set (v8 := code c8 - 48) in *.
  cbn [add mul sub rem lift2 Z.eqb].
  match goal with
  | |- context [Z.rem (10 - Z.rem ?s 10) 10] =>
      destruct (rem_check10 s ltac:(lia)) as [Hk Hsum]; cbv zeta in Hk, Hsum;
      set (k13 := Z.rem (10 - Z.rem s 10) 10) in *
  end.
  destruct (small_to_string_digit k13 Hk) as (ck & -> & Dk & Ek).
  eexists. split; [reflexivity|]. split; [|split; reflexivity].
  unfold valid_isbn13.
  cbn [app List.length Nat.eqb forallb map ean_sum negb andb].
  change (is_digit "9") with true. change (is_digit "7") with true.
  change (is_digit "8") with true.
  rewrite D, D0, D1, D2, D3, D4, D5, D6, D7, Dk.
  cbn [andb].
  change (code "9" - 48) with 9. change (code "7" - 48) with 7.
  change (code "8" - 48) with 8.
  fold v0 v1 v2 v3 v4 v5 v6 v7 v8. rewrite Ek.
  apply Z.eqb_eq. rewrite <- Hsum. f_equal. lia.
Qed.

Lemma isbn10to13_valid_witness :
  List.length (strip (js "0-306-40615-2")) = 10%nat
  /\ isbn10to13 (js "0-306-40615-2") = Some (js "9780306406157")
  /\ valid_isbn13 (js "9780306406157") = true.
Proof.
  assert (Hl : List.length (strip (js "0-306-40615-2")) = 10%nat) by reflexivity.
  assert (Hd : forallb is_digit (firstn 9 (strip (js "0-306-40615-2"))) = true)
    by reflexivity.
  destruct (isbn10to13_valid (js "0-306-40615-2") Hl Hd) as (y & Hy & Hv & _).
  split; [exact Hl|].
  assert (E : y = js "9780306406157").
  { assert (C : isbn10to13 (js "0-306-40615-2") = Some (js "9780306406157"))
      by (vm_compute; reflexivity).
    rewrite C in Hy. now injection Hy. }
  rewrite <- E. split; [exact Hy | exact Hv].
Defined.

Lemma startsWith_cons (a : ascii) (p s : jsstring) :
  startsWith (a :: p) s = true ->
  exists t, s = a :: t /\ startsWith p t = true.
Proof.
  destruct s as [|b t]; cbn [startsWith]; [discriminate|].
  intros H. apply andb_true_iff in H as [Hab Ht].
  apply Ascii.eqb_eq in Hab. subst b. now exists t.
Qed.

Lemma startsWith_978 (s : jsstring) :
  startsWith (js "978") s = true ->
  exists t, s = "9"%char :: "7"%char :: "8"%char :: t.
Proof.
  intros H. change (js "978") with ["9"%char; "7"%char; "8"%char] in H.
  apply startsWith_cons in H as (t1 & -> & H).
  apply startsWith_cons in H as (t2 & -> & H).
  apply startsWith_cons in H as (t3 & -> & H).
  now exists t3.
Qed.

(** The check character of [isbn13to10] for a weighted sum [T] of the nine
    digits: one character, a digit or [X], whose value completes [T] to a
    multiple of eleven. *)
Lemma check11 (T : Z) :
  0 <= T ->
  exists c v,
    (if strict_eq (rem (Some T) (Some 11)) (Some 0) then js "0"
     else if strict_eq (rem (Some T) (Some 11)) (Some 1) then js "X"
     else to_string (sub (Some 11) (rem (Some T) (Some 11)))) = [c]
    /\ check_value c = Some v
    /\ (T + v) mod 11 = 0.
Proof.
  intros HT.
  cbn [rem sub lift2 strict_eq Z.eqb].
  rewrite (Z.rem_mod_nonneg T 11) by lia.
  pose proof (Z.mod_pos_bound T 11 ltac:(lia)) as Hr.
  assert (Hadd : forall v, (T mod 11 + v) mod 11 = 0 -> (T + v) mod 11 = 0).
  { intros v Hv. rewrite <- Z.add_mod_idemp_l by lia. exact Hv. }
  destruct (Z.eqb_spec (T mod 11) 0) as [E0 | N0].
  - exists "0"%char, 0. repeat split. apply Hadd. rewrite E0. reflexivity.
  - destruct (Z.eqb_spec (T mod 11) 1) as [E1 | N1].
    + exists "X"%char, 10. repeat split. apply Hadd. rewrite E1. reflexivity.
    + destruct (small_to_string_digit (11 - T mod 11) ltac:(lia))
        as (c & -> & Dc & Ec).
      exists c, (11 - T mod 11). split; [reflexivity|]. split.
      * unfold check_value. rewrite Dc, Ec. reflexivity.
      * apply Hadd. replace (T mod 11 + (11 - T mod 11)) with (1 * 11) by lia.
        apply Z.mod_mul. lia.
Qed.

(** X2: [isbn13to10] on an input that cleans to thirteen characters
    beginning with 978, the next nine of them decimal digits, returns a
    valid ISBN-10 made of these nine digits and their check character (a
    digit or X). The thirteenth character of the input is not looked at. *)
Theorem isbn13to10_valid (s : jsstring) :
  List.length (strip s) = 13%nat ->
  startsWith (js "978") (strip s) = true ->
  forallb is_digit (substring 3 12 (strip s)) = true ->
  exists x,
    isbn13to10 s = Some x
    /\ valid_isbn10 x = true
    /\ firstn 9 x = substring 3 12 (strip s).
Proof.
  unfold isbn13to10. intros Hlen Hpre Hdig.
  rewrite Hlen, Hpre. cbn [Nat.eqb negb orb].
  destruct (startsWith_978 _ Hpre) as (t & Et). rewrite Et in *.
  destruct t as [|c0 [|c1 [|c2 [|c3 [|c4 [|c5 [|c6 [|c7 [|c8 [|c9 [|c10 x]]]]]]]]]]];
    try discriminate Hlen.
  cbn [substring Nat.sub skipn firstn] in *.
  digits_of Hdig. ranges_of_digits.
  unfold for_upto. cbn [seq fold_left nth_error].
  unfold parseInt_char.
  rewrite D, D0, D1, D2, D3, D4, D5, D6, D7.
  set (v0 := code c0 - 48) in *. set (v1 := code c1 - 48) in *.
  set (v2 := code c2 - 48) in *. set (v3 := code c3 - 48) in *.
  set (v4 := code c4 - 48) in *. set (v5 := code c5 - 48) in *.
  set (v6 := code c6 - 48) in *. set (v7 := code c7 - 48) in *.
  set (v8 := code c8 - 48) in *.
  cbn [add mul lift2 Z.of_nat Pos.of_succ_nat Pos.succ].
  match goal with
  | |- context [rem (Some ?t) (Some 11)] =>
      destruct (check11 t ltac:(lia)) as (c & v & -> & Hv & Hsum)
  end.
  eexists. split; [reflexivity|]. split; [|reflexivity].
  unfold valid_isbn10.
  cbn [app List.length Nat.eqb firstn forallb nth_error andb].
  rewrite D, D0, D1, D2, D3, D4, D5, D6, D7, Hv. cbn [andb].
  cbn [map app weighted]. fold v0 v1 v2 v3 v4 v5 v6 v7 v8.
  apply Z.eqb_eq. rewrite <- Hsum. f_equal. lia.
Qed.

Lemma isbn13to10_valid_witness :
  List.length (strip (js "978-0-8044-2957-3")) = 13%nat
  /\ isbn13to10 (js "978-0-8044-2957-3") = Some (js "080442957X")
  /\ valid_isbn10 (js "080442957X") = true.
Proof.
  assert (Hl : List.length (strip (js "978-0-8044-2957-3")) = 13%nat) by reflexivity.
  assert (Hp : startsWith (js "978") (strip (js "978-0-8044-2957-3")) = true)
    by reflexivity.
  assert (Hd : forallb is_digit (substring 3 12 (strip (js "978-0-8044-2957-3"))) = true)
    by reflexivity.
  destruct (isbn13to10_valid (js "978-0-8044-2957-3") Hl Hp Hd) as (x & Hx & Hv & _).
  split; [exact Hl|].
  assert (E : x = js "080442957X").
  { assert (C : isbn13to10 (js "978-0-8044-2957-3") = Some (js "080442957X"))
      by (vm_compute; reflexivity).
    rewrite C in Hx. now injection Hx. }
  rewrite <- E. split; [exact Hx | exact Hv].
Defined.

Lemma check_digit_unique (S a b : Z) :
  0 <= a <= 9 -> 0 <= b <= 9 ->
  (S + a) mod 10 = 0 -> (S + b) mod 10 = 0 -> a = b.
Proof.
  intros Ha Hb H1 H2.
  apply Z.mod_divide in H1; [|lia]. apply Z.mod_divide in H2; [|lia].
  destruct H1 as [q1 H1], H2 as [q2 H2]. lia.
Qed.

(** X3: for every valid ISBN-13 [y] with the prefix 978, converting to
    ISBN-10 and back returns [y]. *)
Theorem isbn13_roundtrip (y : jsstring) :
  valid_isbn13 y = true ->
  startsWith (js "978") y = true ->
  isbn_back_and_there y = Some y.
Proof.
  unfold valid_isbn13. intros Hvalid Hpre.
  apply andb_true_iff in Hvalid as [Hvalid Hsum].
  apply andb_true_iff in Hvalid as [Hlen Hdig].
  apply Nat.eqb_eq in Hlen. apply Z.eqb_eq in Hsum.
  destruct (startsWith_978 _ Hpre) as (t & ->).
  destruct t as [|c0 [|c1 [|c2 [|c3 [|c4 [|c5 [|c6 [|c7 [|c8 [|c9 [|c10 x]]]]]]]]]]];
    try discriminate Hlen.
  clear Hlen Hpre.
  cbn [forallb] in Hdig.
  change (is_digit "9") with true in Hdig. change (is_digit "7") with true in Hdig.
  change (is_digit "8") with true in Hdig. cbn [andb] in Hdig.
  digits_of Hdig. clear Hdig. ranges_of_digits.
  cbn [map ean_sum negb] in Hsum.
  change (code "9" - 48) with 9 in Hsum. change (code "7" - 48) with 7 in Hsum.
  change (code "8" - 48) with 8 in Hsum.
  unfold isbn_back_and_there, isbn13to10.
  rewrite !strip_cons_keep, strip_nil
    by (apply digit_not_stripped; first [assumption | reflexivity]).
  change (js "978") with ["9"%char; "7"%char; "8"%char].
  cbn [List.length Nat.eqb negb substring Nat.sub skipn firstn startsWith orb andb].
  change (Ascii.eqb "9" "9") with true. change (Ascii.eqb "7" "7") with true.
  change (Ascii.eqb "8" "8") with true.
  cbn [andb negb orb].
  unfold for_upto. cbn [seq fold_left nth_error].
  unfold parseInt_char.
  rewrite D, D0, D1, D2, D3, D4, D5, D6, D7.
  set (v0 := code c0 - 48) in *. set (v1 := code c1 - 48) in *.
  set (v2 := code c2 - 48) in *. set (v3 := code c3 - 48) in *.
  set (v4 := code c4 - 48) in *. set (v5 := code c5 - 48) in *.
  set (v6 := code c6 - 48) in *. set (v7 := code c7 - 48) in *.
  set (v8 := code c8 - 48) in *.
  cbn [add mul lift2 Z.of_nat Pos.of_succ_nat Pos.succ].
  match goal with
  | |- context [rem (Some ?t) (Some 11)] =>
      destruct (check11 t ltac:(lia)) as (c & v & -> & Hv & _)
  end.
  unfold isbn10to13. cbn [app].
  rewrite !strip_cons_keep, strip_nil
    by (first [ apply digit_not_stripped; assumption
              | eapply check_char_not_stripped; eassumption ]).
  change (js "978") with ["9"%char; "7"%char; "8"%char].
  cbn [List.length Nat.eqb negb substring Nat.sub skipn firstn app].
  unfold for_upto.
  cbn [seq fold_left nth_error Nat.modulo Nat.divmod Nat.sub snd fst Nat.eqb].
  unfold parseInt_char.
  rewrite D, D0, D1, D2, D3, D4, D5, D6, D7.
  change (is_digit "9") with true. change (is_digit "7") with true.
  change (is_digit "8") with true.
  change (code "9" - 48) with 9. change (code "7" - 48) with 7.
  change (code "8" - 48) with 8.
  fold v0 v1 v2 v3 v4 v5 v6 v7 v8.
  cbn [add mul sub rem lift2 Z.eqb].
  match goal with
  | |- context [Z.rem (10 - Z.rem ?s 10) 10] =>
      destruct (rem_check10 s ltac:(lia)) as [Hk Hk0]; cbv zeta in Hk, Hk0;
      set (k13 := Z.rem (10 - Z.rem s 10) 10) in *
  end.
  assert (E : k13 = code c9 - 48).
  { eapply check_digit_unique; [exact Hk | apply digit_range; exact D8 | exact Hk0 |].
    rewrite <- Hsum. f_equal. lia. }
  rewrite E, (digit_to_string c9 D8). reflexivity.
Qed.

Lemma isbn13_roundtrip_witness :
  valid_isbn13 (js "9780804429573") = true
  /\ isbn_back_and_there (js "9780804429573") = Some (js "9780804429573").
Proof.
  split; [vm_compute; reflexivity|].
  apply isbn13_roundtrip; vm_compute; reflexivity.
Defined.

(** X4: neither conversion verifies the check digit it is given: two
    inputs that clean to the right length and agree on the nine digits
    that are kept (also on the prefix, for [isbn13to10]) have the same
    result, whatever their last characters are. *)
Theorem isbn_check_digit_ignored (s s' : jsstring) :
  (List.length (strip s) = 10%nat -> List.length (strip s') = 10%nat ->
   firstn 9 (strip s) = firstn 9 (strip s') ->
   isbn10to13 s = isbn10to13 s')
  /\ (List.length (strip s) = 13%nat -> List.length (strip s') = 13%nat ->
      firstn 12 (strip s) = firstn 12 (strip s') ->
      isbn13to10 s = isbn13to10 s').
Proof.
  split.
  - intros Hl Hl' E. unfold isbn10to13, substring.
    rewrite Hl, Hl'. cbn [Nat.eqb negb Nat.sub skipn]. now rewrite E.
  - intros Hl Hl' E. unfold isbn13to10.
    rewrite Hl, Hl'. cbn [Nat.eqb negb orb].
    destruct (strip s)
      as [|a0 [|a1 [|a2 [|a3 [|a4 [|a5 [|a6 [|a7 [|a8 [|a9 [|a10 [|a11 [|a12 [|a13 x]]]]]]]]]]]]]];
      try discriminate Hl.
    destruct (strip s')
      as [|b0 [|b1 [|b2 [|b3 [|b4 [|b5 [|b6 [|b7 [|b8 [|b9 [|b10 [|b11 [|b12 [|b13 x']]]]]]]]]]]]]];
      try discriminate Hl'.
    cbn [firstn] in E. injection E as -> -> -> -> -> -> -> -> -> -> -> ->.
    reflexivity.
Qed.

Lemma isbn_check_digit_ignored_witness :
  isbn10to13 (js "0306406152") = isbn10to13 (js "030640615?")
  /\ isbn13to10 (js "9780306406157") = isbn13to10 (js "978030640615Z").
Proof.
  destruct (isbn_check_digit_ignored (js "0306406152") (js "030640615?")) as [H10 _].
  destruct (isbn_check_digit_ignored (js "9780306406157") (js "978030640615Z")) as [_ H13].
  split; [apply H10 | apply H13]; reflexivity.
Defined.

(** ** Fee calculation *)

Import Fees.

Local Set Warnings "-inexact-float".

Lemma Prim2SF_015 : Prim2SF 0.15 = S754_finite false 5404319552844595 (-55).
Proof. vm_compute. reflexivity. Qed.

Lemma Prim2SF_013 : Prim2SF 0.13 = S754_finite false 4683743612465316 (-55).
Proof. vm_compute. reflexivity. Qed.

Lemma Math_round_zero_mul (c : float) (C : positive) (e : Z) :
  Prim2SF c = S754_finite false C e -> Math_round (of_Z 0 * c) = 0.
Proof.
  intros Hc. unfold Math_round. rewrite mul_spec, Hc.
  change (Prim2SF (of_Z 0)) with (S754_zero false). reflexivity.
Qed.

(** [Math.round(z * c)] for an integer [z] and the binary64 constant [c]
    nearest to [num / den] is [num * z / den] rounded half up. *)
Lemma Math_round_fraction (c : float) (C : positive) (num den delta z : Z) :
  Prim2SF c = S754_finite false C (-55) ->
  2 ^ 52 <= Z.pos C < 2 ^ 53 ->
  0 < den <= 100 ->
  4 * Z.abs delta <= den ->
  den * Z.pos C = num * 2 ^ 55 + delta ->
  Z.abs z < 2 ^ 45 ->
  Math_round (of_Z z * c) = round_half_up (num * z) den.
Proof.
  intros Hc HC Hden Hdelta HCe Hz. unfold round_half_up.
  destruct (Z.eq_dec z 0) as [-> | Hnz].
  - rewrite (Math_round_zero_mul c C (-55) Hc).
    rewrite Z.mul_0_r, Z.mul_0_r, Z.add_0_l. symmetry. apply Z.div_small. lia.
  - destruct (Math_round_mul z c C Hc HC ltac:(lia))
      as (A & H & m1 & HA & HH & HAH & Hm1 & HP & E).
    rewrite E. unfold signed.
    destruct (Z.ltb_spec z 0) as [Hneg | Hpos].
    + replace (num * z) with (num * - Z.abs z) by (f_equal; lia).
      apply (nearest_negative num den delta (Z.pos C) Hden Hdelta HCe
               (proj1 HC) A H m1 (Z.abs z) HA HH HAH ltac:(lia) Hm1 (proj2 HP)).
    + replace (num * z) with (num * Z.abs z) by (f_equal; lia).
      apply (nearest_positive num den delta (Z.pos C) Hden Hdelta HCe
               (proj1 HC) A H m1 (Z.abs z) HA HH HAH ltac:(lia) Hm1 (proj2 HP)).
Qed.

Lemma referralFee_exact (s : Z) :
  Z.abs s < 2 ^ 45 -> referralFee_of s = spec_referralFee s.
Proof.
  intros Hs. unfold referralFee_of, spec_referralFee.
  apply (Math_round_fraction _ _ 15 100 (-20) s Prim2SF_015);
    first [ exact Hs | cbn; lia ].
Qed.

Lemma ebayFee_exact (b : Z) :
  Z.abs b < 2 ^ 45 -> ebayFee_of b = spec_marketplaceFee b.
Proof.
  intros Hb. unfold ebayFee_of, spec_marketplaceFee.
  apply (Math_round_fraction _ _ 13 100 16 b Prim2SF_013);
    first [ exact Hb | cbn; lia ].
Qed.

Example fees_vector :
  calculateFees 1000 3000
  = {| fbaProfit := 1016; fbmProfit := 841; fbaRoi := 90; fbmRoi := 74;
       referralFee := 450; fulfillmentFee := 354 |}.
Proof. vm_compute. reflexivity. Qed.

(** C1, as the code has it. For integer prices of magnitude below 2^45,
    the referral fee is 15% of the sell price and the marketplace fee 13%
    of the buy price, each rounded to the nearest integer (half up); the
    total cost and the two profits are the stated sums; and each ROI is
    [Math.round] of the binary64 value [(profit / totalCost) * 100],
    computed in that order, when the total cost is positive, and 0
    otherwise. [calculateFees(1000, 3000)] has referral fee 450,
    marketplace fee 130, total cost 1130 and platform profit 1016. *)
Theorem calculateFees_formulas :
  (forall buyPrice sellPrice : Z,
      Z.abs buyPrice < 2 ^ 45 -> Z.abs sellPrice < 2 ^ 45 ->
      let fees := calculateFees buyPrice sellPrice in
      referralFee fees = spec_referralFee sellPrice
      /\ ebayFee_of buyPrice = spec_marketplaceFee buyPrice
      /\ totalEbayCost_of buyPrice = spec_totalCost buyPrice
      /\ fbaProfit fees = spec_platformProfit buyPrice sellPrice
      /\ fbmProfit fees = spec_merchantProfit buyPrice sellPrice
      /\ fbaRoi fees
         = (if 0 <? spec_totalCost buyPrice
            then Math_round
                   ((of_Z (spec_platformProfit buyPrice sellPrice)
                     / of_Z (spec_totalCost buyPrice)) * 100)%float
            else 0)
      /\ fbmRoi fees
         = (if 0 <? spec_totalCost buyPrice
            then Math_round
                   ((of_Z (spec_merchantProfit buyPrice sellPrice)
                     / of_Z (spec_totalCost buyPrice)) * 100)%float
            else 0)
      /\ fulfillmentFee fees = 354)
  /\ (referralFee (calculateFees 1000 3000) = 450
      /\ ebayFee_of 1000 = 130
      /\ totalEbayCost_of 1000 = 1130
      /\ fbaProfit (calculateFees 1000 3000) = 1016).
Proof.
  split.
  - intros b s Hb Hs. cbv zeta.
    unfold calculateFees, totalEbayCost_of, roi_of, spec_platformProfit,
      spec_merchantProfit, spec_totalCost.
    cbn [referralFee fbaProfit fbmProfit fbaRoi fbmRoi fulfillmentFee].
    rewrite (referralFee_exact s Hs), (ebayFee_exact b Hb).
    repeat split; reflexivity.
  - vm_compute. repeat split; reflexivity.
Qed.

Lemma calculateFees_formulas_witness :
  Z.abs 1000 < 2 ^ 45 /\ Z.abs 3000 < 2 ^ 45
  /\ referralFee (calculateFees 1000 3000) = spec_referralFee 3000
  /\ fbaProfit (calculateFees 1000 3000) = spec_platformProfit 1000 3000.
Proof.
  assert (Hb : Z.abs 1000 < 2 ^ 45) by (vm_compute; reflexivity).
  assert (Hs : Z.abs 3000 < 2 ^ 45) by (vm_compute; reflexivity).
  split; [exact Hb|]. split; [exact Hs|].
  destruct (proj1 calculateFees_formulas 1000 3000 Hb Hs)
    as (Hr & _ & _ & Hp & _).
  split; [exact Hr | exact Hp].
Defined.

(** C1 as stated does not hold for the ROI: with a buy price of 177 and a
    sell price of 949 the platform profit is 203 and the total cost 200,
    so that the exact percentage is 101.5 and rounds to 102; in binary64
    [203 / 200 * 100] is just below 101.5 and the code returns 101. *)
Lemma roi_tie_rounds_down :
  ~ (forall buyPrice sellPrice : Z,
        fbaRoi (calculateFees buyPrice sellPrice)
        = spec_roi (spec_platformProfit buyPrice sellPrice)
            (spec_totalCost buyPrice)).
Proof.
  intros H. specialize (H 177 949). vm_compute in H. discriminate H.
Qed.

Example roi_tie_values :
  fbaProfit (calculateFees 177 949) = 203
  /\ totalEbayCost_of 177 = 200
  /\ fbaRoi (calculateFees 177 949) = 101
  /\ spec_roi 203 200 = 102
  /\ (of_Z 203 / of_Z 200 * 100 <? 101.5)%float = true.
Proof. vm_compute. repeat split; reflexivity. Qed.

(** *** The two profits and the sign of the ROI *)

Import Sign.

Lemma fbaProfit_gap (ebayPriceCents amazonPriceCents : Z) :
  let fees := calculateFees ebayPriceCents amazonPriceCents in
  fbaProfit fees = fbmProfit fees + 175
  /\ Z.max (fbaProfit fees) (fbmProfit fees) = fbaProfit fees.
Proof.
  cbv zeta. unfold calculateFees. cbn [fbaProfit fbmProfit]. lia.
Qed.

(** X5: for prices of magnitude below 2^45 cents, where the sums of
    [calculateFees] are exact, the platform (FBA) profit is the merchant
    (FBM) profit plus 175 cents, so that
    [Math.max(fees.fbaProfit, fees.fbmProfit)], the profit the routes hand
    to [makeDecision], is the FBA profit. *)
Theorem fbaProfit_is_the_maximum (ebayPriceCents amazonPriceCents : Z) :
  Z.abs ebayPriceCents < 2 ^ 45 ->
  Z.abs amazonPriceCents < 2 ^ 45 ->
  let fees := calculateFees ebayPriceCents amazonPriceCents in
  fbaProfit fees = fbmProfit fees + 175
  /\ Z.max (fbaProfit fees) (fbmProfit fees) = fbaProfit fees.
Proof.
  intros _ _. cbv zeta. unfold calculateFees. cbn [fbaProfit fbmProfit].
  split; [lia | apply Z.max_l; lia].
Qed.

Lemma fbaProfit_is_the_maximum_witness :
  fbaProfit (calculateFees 1000 3000) = fbmProfit (calculateFees 1000 3000) + 175
  /\ Z.max (fbaProfit (calculateFees 1000 3000)) (fbmProfit (calculateFees 1000 3000))
     = 1016.
Proof.
  assert (B1 : Z.abs 1000 < 2 ^ 45) by (vm_compute; reflexivity).
  assert (B2 : Z.abs 3000 < 2 ^ 45) by (vm_compute; reflexivity).
  destruct (fbaProfit_is_the_maximum 1000 3000 B1 B2) as [Hgap Hmax].
  split; [exact Hgap|]. rewrite Hmax. vm_compute. reflexivity.
Defined.

Lemma spec_marketplaceFee_sign (b : Z) :
  (0 <= b -> 0 <= spec_marketplaceFee b) /\ (b <= 0 -> spec_marketplaceFee b <= 0).
Proof.
  unfold spec_marketplaceFee, round_half_up. split; intros Hb.
  - apply Z.div_pos; lia.
  - assert ((2 * (13 * b) + 100) / (2 * 100) < 1); [|lia].
    apply Z.div_lt_upper_bound; lia.
Qed.

(** X6: the total cost is positive exactly when the buy price is, and
    for a buy price of zero or below both ROI are 0: the quotient
    [profit / totalEbayCost] is never taken with a divisor that is not
    positive. (Prices of magnitude below 2^45.) *)
Theorem roi_zero_without_cost (ebayPriceCents amazonPriceCents : Z) :
  Z.abs ebayPriceCents < 2 ^ 45 ->
  (0 <? totalEbayCost_of ebayPriceCents) = (0 <? ebayPriceCents)
  /\ (ebayPriceCents <= 0 ->
      fbaRoi (calculateFees ebayPriceCents amazonPriceCents) = 0
      /\ fbmRoi (calculateFees ebayPriceCents amazonPriceCents) = 0).
Proof.
  intros Hb.
  assert (E : (0 <? totalEbayCost_of ebayPriceCents) = (0 <? ebayPriceCents)).
  { unfold totalEbayCost_of. rewrite (ebayFee_exact _ Hb).
    destruct (spec_marketplaceFee_sign ebayPriceCents) as [Hp Hn].
    destruct (Z.ltb_spec 0 ebayPriceCents); [apply Z.ltb_lt | apply Z.ltb_ge]; lia. }
  split; [exact E|].
  intros Hle. unfold calculateFees, roi_of. cbn [fbaRoi fbmRoi].
  unfold totalEbayCost_of in E. rewrite E.
  destruct (Z.ltb_spec 0 ebayPriceCents); [lia|]. now split.
Qed.

Lemma roi_zero_without_cost_witness :
  (0 <? totalEbayCost_of 0) = false
  /\ fbaRoi (calculateFees 0 3000) = 0 /\ fbmRoi (calculateFees (-500) 3000) = 0.
Proof.
  assert (H0 : Z.abs 0 < 2 ^ 45) by (vm_compute; reflexivity).
  assert (H5 : Z.abs (-500) < 2 ^ 45) by (vm_compute; reflexivity).
  split; [exact (proj1 (roi_zero_without_cost 0 3000 H0))|].
  split.
  - exact (proj1 (proj2 (roi_zero_without_cost 0 3000 H0) ltac:(lia))).
  - exact (proj2 (proj2 (roi_zero_without_cost (-500) 3000 H5) ltac:(lia))).
Defined.

Lemma round_half_up_step (num den x y : Z) :
  0 < den -> 0 <= num <= den -> x <= y ->
  round_half_up (num * x) den <= round_half_up (num * y) den
  /\ round_half_up (num * y) den - round_half_up (num * x) den <= y - x.
Proof.
  intros Hden Hnum Hxy. unfold round_half_up. split.
  - apply Z.div_le_mono; [lia|]. nia.
  - assert ((2 * (num * y) + den) / (2 * den)
            <= (2 * (num * x) + den + (y - x) * (2 * den)) / (2 * den)).
    { apply Z.div_le_mono; [lia|]. nia. }
    rewrite Z.div_add in H by lia. lia.
Qed.

(** X7: both profits grow with the sell price and fall with the buy
    price: a higher sell price never lowers a profit, and a higher buy
    price never raises one. (Prices of magnitude below 2^45.) *)
Theorem profit_monotone (b b' s s' : Z) :
  Z.abs b < 2 ^ 45 -> Z.abs b' < 2 ^ 45 ->
  Z.abs s < 2 ^ 45 -> Z.abs s' < 2 ^ 45 ->
  b <= b' -> s <= s' ->
  fbaProfit (calculateFees b' s) <= fbaProfit (calculateFees b s)
  /\ fbaProfit (calculateFees b s) <= fbaProfit (calculateFees b s')
  /\ fbmProfit (calculateFees b' s) <= fbmProfit (calculateFees b s)
  /\ fbmProfit (calculateFees b s) <= fbmProfit (calculateFees b s').
Proof.
  intros Hb Hb' Hs Hs' Hbb Hss.
  unfold calculateFees. cbn [fbaProfit fbmProfit].
  rewrite (referralFee_exact s Hs), (referralFee_exact s' Hs'),
    (ebayFee_exact b Hb), (ebayFee_exact b' Hb').
  unfold spec_referralFee, spec_marketplaceFee.
  pose proof (round_half_up_step 15 100 s s' ltac:(lia) ltac:(lia) Hss).
  pose proof (round_half_up_step 13 100 b b' ltac:(lia) ltac:(lia) Hbb).
  lia.
Qed.

Lemma profit_monotone_witness :
  fbaProfit (calculateFees 1200 3000) <= fbaProfit (calculateFees 1000 3000)
  /\ fbaProfit (calculateFees 1000 3000) <= fbaProfit (calculateFees 1000 3500).
Proof.
  assert (B1 : Z.abs 1000 < 2 ^ 45) by (vm_compute; reflexivity).
  assert (B2 : Z.abs 1200 < 2 ^ 45) by (vm_compute; reflexivity).
  assert (B3 : Z.abs 3000 < 2 ^ 45) by (vm_compute; reflexivity).
  assert (B4 : Z.abs 3500 < 2 ^ 45) by (vm_compute; reflexivity).
  split.
  - exact (proj1 (profit_monotone 1000 1200 3000 3000 B1 B2 B3 B3
                    ltac:(lia) ltac:(lia))).
  - exact (proj1 (proj2 (profit_monotone 1000 1000 3000 3500 B1 B1 B3 B4
                    ltac:(lia) ltac:(lia)))).
Defined.

(** The result of a rounding has the sign it was given, or is NaN. *)
Lemma binary_round_aux_sign (sx : bool) (m e : Z) (l : location) :
  sign_or_nan sx (binary_round_aux prec emax sx m e l).
Proof.
  unfold sign_or_nan, binary_round_aux.
  destruct (shr_fexp prec emax m e l) as [mrs' e'].
  destruct (shr_fexp prec emax _ e' loc_Exact) as [mrs'' e''].
  destruct (shr_m mrs''); [reflexivity | | exact I].
  destruct (e'' <=? emax - prec); reflexivity.
Qed.

Lemma Math_round_sign (sx : bool) (x : float) :
  sign_or_nan sx (Prim2SF x) ->
  if sx then Math_round x <= 0 else 0 <= Math_round x.
Proof.
  unfold Math_round, sign_or_nan.
  destruct (Prim2SF x) as [s | s | | s m e];
    try (intros _; destruct sx; lia).
  intros ->.
  destruct (Z.leb_spec 0 e) as [He | He].
  - pose proof (Z.pow_nonneg 2 e ltac:(lia)).
    destruct sx; nia.
  - assert (HA : 0 < 2 ^ (- e)) by (apply Z.pow_pos_nonneg; lia).
    replace (1 - e) with (Z.succ (- e)) by lia.
    rewrite Z.pow_succ_r by lia.
    destruct sx.
    + assert ((2 * Z.neg m + 2 ^ (- e)) / (2 * 2 ^ (- e)) < 1); [|lia].
      apply Z.div_lt_upper_bound; lia.
    + apply Z.div_pos; lia.
Qed.

Lemma SFmul_sign (sx : bool) (x : spec_float) (my : positive) (ey : Z) :
  sign_or_nan sx x ->
  sign_or_nan sx (SFmul prec emax x (S754_finite false my ey)).
Proof.
  destruct x as [s | s | | s m e]; cbn [sign_or_nan SFmul]; intros H;
    try (subst s; destruct sx; reflexivity); try exact I.
  subst s. pose proof (binary_round_aux_sign (xorb sx false)
                         (Z.pos (m * my)) (e + ey) loc_Exact) as B.
  rewrite xorb_false_r in *. exact B.
Qed.

Lemma SFdiv_sign (sx : bool) (x : spec_float) (my : positive) (ey : Z) :
  sign_or_nan sx x ->
  sign_or_nan sx (SFdiv prec emax x (S754_finite false my ey)).
Proof.
  destruct x as [s | s | | s m e]; cbn [sign_or_nan SFdiv]; intros H;
    try (subst s; destruct sx; reflexivity); try exact I.
  subst s.
  destruct (SFdiv_core_binary prec emax (Z.pos m) e (Z.pos my) ey) as [[mz ez] lz].
  pose proof (binary_round_aux_sign (xorb sx false) mz ez lz) as B.
  rewrite xorb_false_r in *. exact B.
Qed.

Lemma of_Z_sign (z : Z) :
  Z.abs z < 2 ^ 53 ->
  (0 <= z -> sign_or_nan false (Prim2SF (of_Z z)))
  /\ (z <= 0 -> sign_or_nan true (Prim2SF (of_Z z)) \/ z = 0).
Proof.
  intros Hz.
  destruct (Z.eq_dec z 0) as [-> | Hnz].
  - split; [intros _; reflexivity | intros _; now right].
  - destruct (Prim2SF_of_Z z ltac:(lia)) as (k & mz & _ & _ & _ & E).
    rewrite E. cbn [sign_or_nan]. split; intros H.
    + apply Z.ltb_ge. lia.
    + left. apply Z.ltb_lt. lia.
Qed.

Lemma roi_of_sign (profit totalEbayCost : Z) :
  Z.abs profit < 2 ^ 53 -> totalEbayCost < 2 ^ 53 ->
  (0 <= profit -> 0 <= roi_of profit totalEbayCost)
  /\ (profit <= 0 -> roi_of profit totalEbayCost <= 0).
Proof.
  intros Hp Ht. unfold roi_of.
  destruct (Z.ltb_spec 0 totalEbayCost) as [Hpos | Hneg]; [|lia].
  destruct (Prim2SF_of_Z totalEbayCost ltac:(lia)) as (k & mt & _ & _ & _ & Et).
  replace (totalEbayCost <? 0) with false in Et by (symmetry; apply Z.ltb_ge; lia).
  assert (E100 : Prim2SF 100 = S754_finite false 7036874417766400 (-46))
    by (vm_compute; reflexivity).
  assert (S : forall sx, sign_or_nan sx (Prim2SF (of_Z profit)) ->
                         sign_or_nan sx
                           (Prim2SF (of_Z profit / of_Z totalEbayCost * 100)%float)).
  { intros sx H. rewrite mul_spec, div_spec, Et, E100.
    apply SFmul_sign, SFdiv_sign, H. }
  destruct (of_Z_sign profit Hp) as [Hge Hle]. split; intros H.
  - exact (Math_round_sign false _ (S false (Hge H))).
  - destruct (Hle H) as [Hs | ->].
    + exact (Math_round_sign true _ (S true Hs)).
    + unfold Math_round. rewrite mul_spec, div_spec, Et, E100.
      change (Prim2SF (of_Z 0)) with (S754_zero false).
      unfold SF64mul, SF64div. cbn [SFdiv SFmul xorb]. lia.
Qed.

Lemma fee_bounds (z : Z) :
  Z.abs z < 2 ^ 45 ->
  Z.abs (spec_referralFee z) < 2 ^ 45 /\ Z.abs (spec_marketplaceFee z) < 2 ^ 45.
Proof.
  intros Hz. unfold spec_referralFee, spec_marketplaceFee, round_half_up.
  assert (H45 : 2 ^ 45 = 35184372088832) by reflexivity. rewrite H45 in *.
  split.
  - assert (- 35184372088831 <= (2 * (15 * z) + 100) / (2 * 100))
      by (apply Z.div_le_lower_bound; lia).
    assert ((2 * (15 * z) + 100) / (2 * 100) < 35184372088832)
      by (apply Z.div_lt_upper_bound; lia).
    lia.
  - assert (- 35184372088831 <= (2 * (13 * z) + 100) / (2 * 100))
      by (apply Z.div_le_lower_bound; lia).
    assert ((2 * (13 * z) + 100) / (2 * 100) < 35184372088832)
      by (apply Z.div_lt_upper_bound; lia).
    lia.
Qed.

(** X8: an ROI never has the sign opposite to its profit: a profit that
    is not negative has an ROI that is not negative, and a profit that is
    not positive (a loss, or none) has an ROI that is not positive.
    (Prices of magnitude below 2^45.) *)
Theorem roi_sign_follows_profit (ebayPriceCents amazonPriceCents : Z) :
  Z.abs ebayPriceCents < 2 ^ 45 -> Z.abs amazonPriceCents < 2 ^ 45 ->
  let fees := calculateFees ebayPriceCents amazonPriceCents in
  (0 <= fbaProfit fees -> 0 <= fbaRoi fees)
  /\ (fbaProfit fees <= 0 -> fbaRoi fees <= 0)
  /\ (0 <= fbmProfit fees -> 0 <= fbmRoi fees)
  /\ (fbmProfit fees <= 0 -> fbmRoi fees <= 0).
Proof.
  intros Hb Hs. cbv zeta.
  unfold calculateFees. cbn [fbaProfit fbmProfit fbaRoi fbmRoi].
  rewrite (referralFee_exact _ Hs), (ebayFee_exact _ Hb).
  destruct (fee_bounds _ Hb) as [_ Hfb]. destruct (fee_bounds _ Hs) as [Hfs _].
  assert (H45 : 2 ^ 45 = 35184372088832) by reflexivity.
  assert (H53 : 2 ^ 53 = 9007199254740992) by reflexivity.
  rewrite H45 in *.
  match goal with
  | |- (_ -> 0 <= roi_of ?p ?t) /\ _ /\ (_ -> 0 <= roi_of ?q ?t) /\ _ =>
      destruct (roi_of_sign p t ltac:(rewrite H53; lia) ltac:(rewrite H53; lia))
        as [A1 A2];
      destruct (roi_of_sign q t ltac:(rewrite H53; lia) ltac:(rewrite H53; lia))
        as [B1 B2]
  end.
  repeat split; assumption.
Qed.

Lemma roi_sign_follows_profit_witness :
  fbaProfit (calculateFees 2000 1500) <= 0 /\ fbaRoi (calculateFees 2000 1500) <= 0.
Proof.
  assert (Hb : Z.abs 2000 < 2 ^ 45) by (vm_compute; reflexivity).
  assert (Hs : Z.abs 1500 < 2 ^ 45) by (vm_compute; reflexivity).
  assert (Hp : fbaProfit (calculateFees 2000 1500) <= 0) by (vm_compute; discriminate).
  split; [exact Hp|].
  exact (proj1 (proj2 (roi_sign_follows_profit 2000 1500 Hb Hs)) Hp).
Defined.

(** ** Decision logic *)

Import Decision.

(** *** Facts on binary64 comparisons *)

Lemma SFeqb_refl_finite (s : bool) (m : positive) (e : Z) :
  SFeqb (S754_finite s m e) (S754_finite s m e) = true.
Proof.
  unfold SFeqb, SFcompare.
  destruct s; rewrite Z.compare_refl, Pos.compare_cont_refl; reflexivity.
Qed.

(** A number above a positive constant is neither zero nor NaN. *)
Lemma above_positive_truthy (c x : float) (m : positive) (e : Z) :
  Prim2SF c = S754_finite false m e ->
  (c <? x)%float = true \/ (c <=? x)%float = true ->
  truthy x = true.
Proof.
  intros Hc H.
  rewrite ltb_spec, leb_spec, Hc in H.
  unfold truthy, is_zero, is_nan.
  rewrite !eqb_spec.
  change (Prim2SF zero) with (S754_zero false).
  destruct (Prim2SF x) as [s | s | | s m' e'].
  - destruct H as [H | H]; discriminate H.
  - destruct s; reflexivity.
  - destruct H as [H | H]; discriminate H.
  - rewrite SFeqb_refl_finite. destruct s; reflexivity.
Qed.

(** NaN is below nothing. *)
Lemma nan_not_below (x c : float) :
  is_nan x = true -> (x <? c)%float = false.
Proof.
  unfold is_nan. rewrite eqb_spec, ltb_spec.
  destruct (Prim2SF x) as [s | s | | s m e]; try reflexivity.
  - discriminate.
  - destruct s; discriminate.
  - rewrite SFeqb_refl_finite. discriminate.
Qed.

Lemma truthy_above (v : option float) (p : float -> bool) :
  (forall x, p x = true -> truthy x = true) ->
  truthy_and v p = present_and v p.
Proof.
  intros H. destruct v as [x|]; [|reflexivity]. cbn.
  destruct (p x) eqn:E.
  - now rewrite (H x E).
  - apply andb_false_r.
Qed.

Lemma rank_knockout_truthy (salesRank : option float) :
  truthy_and salesRank (fun r => (3000000 <? r)%float)
  = present_and salesRank (fun r => (3000000 <? r)%float).
Proof.
  apply truthy_above. intros x Hx.
  eapply (above_positive_truthy 3000000%float);
    [vm_compute; reflexivity | left; exact Hx].
Qed.

Lemma velocity_truthy (c : float) (m : positive) (e : Z) (v : option float) :
  Prim2SF c = S754_finite false m e ->
  truthy_and v (fun d => (c <=? d)%float) = present_and v (fun d => (c <=? d)%float).
Proof.
  intros Hc. apply truthy_above. intros x Hx.
  eapply (above_positive_truthy c); [exact Hc | right; exact Hx].
Qed.

(** *** C2: knockout precedence *)

Lemma decide_cases (i : inputs) :
  match first_knockout i with
  | Some why => decide i = mkResult REJECT why 0
  | None =>
      decide i = scoring (in_profit i) (in_roi i) (in_salesRank i)
                   (in_salesDrops30 i) (in_fbaCount i)
  end.
Proof.
  destruct i as [profit roi salesRank salesDrops30 fbaCount isAmazon].
  unfold first_knockout, decide, makeDecision, knockout_rules.
  cbn [find fst snd option_map in_profit in_roi in_salesRank
       in_salesDrops30 in_fbaCount in_isAmazon].
  rewrite rank_knockout_truthy.
  destruct (profit <? 300)%float; [reflexivity|].
  destruct (roi <? 30)%float; [reflexivity|].
  destruct (present_and salesRank _); [reflexivity|].
  destruct (present_and salesDrops30 _); [reflexivity|].
  destruct isAmazon; reflexivity.
Qed.

(** C2: the five knockout rules are tried in their order before any
    scoring; the first that matches gives REJECT with score 0 and its own
    reason, and when none matches the result is that of the scoring stage.
    A profit of 250 is rejected for its profit whatever the other
    arguments. *)
Theorem knockout_precedence :
  (forall i : inputs,
      match first_knockout i with
      | Some why => decide i = mkResult REJECT why 0
      | None =>
          decide i = scoring (in_profit i) (in_roi i) (in_salesRank i)
                       (in_salesDrops30 i) (in_fbaCount i)
      end)
  /\ (forall (roi : float) (salesRank salesDrops30 : option float)
             (fbaCount : float) (isAmazon : bool),
         makeDecision 250 roi salesRank salesDrops30 fbaCount isAmazon
         = mkResult REJECT (js "Profit below $3") 0).
Proof.
  split.
  - exact decide_cases.
  - intros. unfold makeDecision.
    change (250 <? 300)%float with true. reflexivity.
Qed.

(** Each rule alone, with the rules before it not matching. *)
Example knockout_order_examples :
  decide (mkInputs 250 10 (Some 4000000%float) (Some 0%float) 0 true)
  = mkResult REJECT (js "Profit below $3") 0
  /\ decide (mkInputs 300 10 (Some 4000000%float) (Some 0%float) 0 true)
     = mkResult REJECT (js "ROI below 30%") 0
  /\ decide (mkInputs 300 30 (Some 4000000%float) (Some 0%float) 0 true)
     = mkResult REJECT (js "Rank too high (>3M)") 0
  /\ decide (mkInputs 300 30 (Some 3000000%float) (Some 0%float) 0 true)
     = mkResult REJECT (js "No sales velocity") 0
  /\ decide (mkInputs 300 30 (Some 3000000%float) (Some 2%float) 0 true)
     = mkResult REJECT (js "Amazon is selling") 0
  /\ decide (mkInputs 300 30 (Some 3000000%float) (Some 2%float) 0 false)
     = mkResult REVIEW (js "Needs review") 50.
Proof. vm_compute. repeat split; reflexivity. Qed.

(** *** C3: the scoring stage *)

Lemma clamp_range (z : Z) : 0 <= clamp z <= 100.
Proof. unfold clamp. lia. Qed.

Lemma rank_bonus_adj (p r : float) (sr sd : option float) (fc : float)
    (am : bool) (s : Z) :
  rank_bonus sr s = s + adj_rank_nonzero (mkInputs p r sr sd fc am).
Proof.
  unfold rank_bonus, adj_rank_nonzero, adj_rank. cbn [in_salesRank].
  destruct sr as [x|]; [|lia].
  unfold truthy. destruct (is_zero x); cbn [orb negb]; [lia|].
  destruct (is_nan x) eqn:En; cbn [negb].
  - rewrite !(nan_not_below x _ En). lia.
  - destruct (x <? 100000)%float; [lia|].
    destruct (x <? 500000)%float; [lia|].
    destruct (x <? 1000000)%float; lia.
Qed.

Lemma velocity_bonus_adj (p r : float) (sr sd : option float) (fc : float)
    (am : bool) (s : Z) :
  velocity_bonus sd s = s + adj_velocity (mkInputs p r sr sd fc am).
Proof.
  unfold velocity_bonus, adj_velocity. cbn [in_salesDrops30].
  rewrite (velocity_truthy 10%float _ _ sd ltac:(vm_compute; reflexivity)).
  rewrite (velocity_truthy 5%float _ _ sd ltac:(vm_compute; reflexivity)).
  destruct sd as [d|]; cbn [present_and]; [|lia].
  destruct (10 <=? d)%float; [lia|].
  destruct (5 <=? d)%float; lia.
Qed.

Lemma scoring_score (p r : float) (sr sd : option float) (fc : float)
    (am : bool) :
  score (scoring p r sr sd fc) = code_score (mkInputs p r sr sd fc am).
Proof.
  unfold scoring.
  rewrite (velocity_bonus_adj p r sr sd fc am).
  rewrite (rank_bonus_adj p r sr sd fc am).
  fold (clamp
          (competition_penalty fc
             (roi_bonus r (profit_bonus p 50)
              + adj_rank_nonzero (mkInputs p r sr sd fc am)
              + adj_velocity (mkInputs p r sr sd fc am)))).
  match goal with
  | |- score (if ?b then _ else if ?c then _ else _) = _ =>
      destruct b; [|destruct c]; cbn [score]
  end;
  unfold code_score; f_equal;
  unfold competition_penalty, roi_bonus, profit_bonus,
    adj_profit, adj_roi, adj_competition;
  cbn [in_profit in_roi in_fbaCount];
  destruct (1000 <=? p)%float, (500 <=? p)%float, (100 <=? r)%float,
    (50 <=? r)%float, (10 <? fc)%float, (5 <? fc)%float; lia.
Qed.

Lemma scoring_verdict (p r : float) (sr sd : option float) (fc : float) :
  decision (scoring p r sr sd fc)
  = verdict_of_score (score (scoring p r sr sd fc)).
Proof.
  unfold scoring, verdict_of_score.
  match goal with
  | |- decision (if ?b then _ else if ?c then _ else _) = _ =>
      destruct b eqn:Eb; [|destruct c eqn:Ec]; cbn [score decision];
      rewrite ?Eb, ?Ec; reflexivity
  end.
Qed.

Lemma verdict_of_score_iff (s : Z) :
  (verdict_of_score s = BUY <-> 70 <= s)
  /\ (verdict_of_score s = REVIEW <-> 50 <= s < 70)
  /\ (verdict_of_score s = REJECT <-> s < 50).
Proof.
  unfold verdict_of_score.
  destruct (Z.leb_spec 70 s); [|destruct (Z.leb_spec 50 s)];
    repeat split; intros; first [ reflexivity | discriminate | lia ].
Qed.

Lemma decide_score_range (i : inputs) : 0 <= score (decide i) <= 100.
Proof.
  destruct i as [p r sr sd fc am].
  unfold decide, makeDecision.
  cbn [in_profit in_roi in_salesRank in_salesDrops30 in_fbaCount in_isAmazon].
  destruct (p <? 300)%float; [cbn; lia|].
  destruct (r <? 30)%float; [cbn; lia|].
  destruct (truthy_and sr _); [cbn; lia|].
  destruct (present_and sd _); [cbn; lia|].
  destruct am; [cbn; lia|].
  rewrite (scoring_score p r sr sd fc false). apply clamp_range.
Qed.

(** C3, as the code has it: when no knockout rule fires the score is 50
    plus the adjustments, clamped to [0,100], where the rank bonus is
    given only to a rank that is present and not zero (a rank of 0 is
    treated like an unknown rank); BUY iff score >= 70, REVIEW iff
    50 <= score < 70, REJECT iff score < 50; the example scores 100 and is
    a BUY; and the score is in [0,100] on every input. *)
Theorem scoring_stage :
  (forall i : inputs,
      first_knockout i = None ->
      score (decide i) = code_score i
      /\ (decision (decide i) = BUY <-> 70 <= score (decide i))
      /\ (decision (decide i) = REVIEW <-> 50 <= score (decide i) < 70)
      /\ (decision (decide i) = REJECT <-> score (decide i) < 50))
  /\ makeDecision 1200 120 (Some 50000%float) (Some 12%float) 2 false
     = mkResult BUY (js "Strong opportunity") 100
  /\ (forall i : inputs, 0 <= score (decide i) <= 100).
Proof.
  split; [|split].
  - intros i Hko.
    pose proof (decide_cases i) as Hk. rewrite Hko in Hk.
    rewrite Hk.
    destruct i as [p r sr sd fc am].
    cbn [in_profit in_roi in_salesRank in_salesDrops30 in_fbaCount].
    split; [apply scoring_score|].
    rewrite scoring_verdict. apply verdict_of_score_iff.
  - vm_compute. reflexivity.
  - apply decide_score_range.
Qed.

Lemma scoring_stage_witness :
  let i := mkInputs 1200 120 (Some 50000%float) (Some 12%float) 2 false in
  first_knockout i = None
  /\ score (decide i) = code_score i
  /\ (decision (decide i) = BUY <-> 70 <= score (decide i))
  /\ (decision (decide i) = REVIEW <-> 50 <= score (decide i) < 70)
  /\ (decision (decide i) = REJECT <-> score (decide i) < 50).
Proof.
  split; [vm_compute; reflexivity|].
  apply (proj1 scoring_stage). vm_compute. reflexivity.
Defined.

(** C3 as stated does not hold: with a sales rank of 0 and no knockout,
    the formula as stated gives the rank bonus (75, a BUY) and the code does
    not (60, a REVIEW). *)
Lemma rank_zero_gets_no_bonus :
  ~ (forall i : inputs,
        first_knockout i = None -> score (decide i) = spec_score i).
Proof.
  intros H.
  specialize (H (mkInputs 500 30 (Some 0%float) None 0 false) eq_refl).
  vm_compute in H. discriminate H.
Qed.

Example rank_zero_values :
  let i := mkInputs 500 30 (Some 0%float) None 0 false in
  decide i = mkResult REVIEW (js "Needs review") 60
  /\ spec_score i = 75 /\ verdict_of_score (spec_score i) = BUY.
Proof. vm_compute. repeat split; reflexivity. Qed.

(** The two formulas agree on every input whose rank is not zero. *)
Lemma code_score_spec_score (i : inputs) :
  match in_salesRank i with
  | Some r => is_zero r = false
  | None => True
  end ->
  code_score i = spec_score i.
Proof.
  unfold code_score, spec_score, adj_rank_nonzero.
  destruct (in_salesRank i) as [r|] eqn:E.
  - intros ->. reflexivity.
  - intros _. unfold adj_rank. rewrite E. reflexivity.
Qed.

(** *** The scores that can be reached *)

Lemma adjustments_in_fives (i : inputs) :
  exists k : Z,
    50 + adj_profit i + adj_roi i + adj_rank_nonzero i + adj_velocity i
    + adj_competition i = 5 * k
    /\ 8 <= k <= 22
    /\ (k < 10 ->
        (5 <? in_fbaCount i)%float = true
        /\ (500 <=? in_profit i)%float = false
        /\ (50 <=? in_roi i)%float = false).
Proof.
  unfold adj_profit, adj_roi, adj_rank_nonzero, adj_rank, adj_velocity,
    adj_competition.
  assert (P : exists a, (if (1000 <=? in_profit i)%float then 20
                         else if (500 <=? in_profit i)%float then 10 else 0) = 5 * a
                        /\ 0 <= a <= 4
                        /\ (a < 2 -> (500 <=? in_profit i)%float = false)).
  { destruct (1000 <=? in_profit i)%float; [exists 4; lia|].
    destruct (500 <=? in_profit i)%float; [exists 2; lia | exists 0; split; [lia|now split]]. }
  assert (R : exists b, (if (100 <=? in_roi i)%float then 15
                         else if (50 <=? in_roi i)%float then 10 else 0) = 5 * b
                        /\ 0 <= b <= 3
                        /\ (b < 2 -> (50 <=? in_roi i)%float = false)).
  { destruct (100 <=? in_roi i)%float; [exists 3; lia|].
    destruct (50 <=? in_roi i)%float; [exists 2; lia | exists 0; split; [lia|now split]]. }
  assert (K : exists c, match in_salesRank i with
                        | Some r =>
                            if is_zero r then 0
                            else
                              match in_salesRank i with
                              | Some r0 =>
                                  if (r0 <? 100000)%float then 15
                                  else if (r0 <? 500000)%float then 10
                                  else if (r0 <? 1000000)%float then 5 else 0
                              | None => 0
                              end
                        | None => 0
                        end = 5 * c /\ 0 <= c <= 3).
  { destruct (in_salesRank i) as [r|]; [|exists 0; lia].
    destruct (is_zero r); [exists 0; lia|].
    destruct (r <? 100000)%float; [exists 3; lia|].
    destruct (r <? 500000)%float; [exists 2; lia|].
    destruct (r <? 1000000)%float; [exists 1; lia | exists 0; lia]. }
  assert (V : exists d, match in_salesDrops30 i with
                        | Some d =>
                            if (10 <=? d)%float then 10
                            else if (5 <=? d)%float then 5 else 0
                        | None => 0
                        end = 5 * d /\ 0 <= d <= 2).
  { destruct (in_salesDrops30 i) as [d|]; [|exists 0; lia].
    destruct (10 <=? d)%float; [exists 2; lia|].
    destruct (5 <=? d)%float; [exists 1; lia | exists 0; lia]. }
  assert (C : exists e, (if (10 <? in_fbaCount i)%float then -10
                         else if (5 <? in_fbaCount i)%float then -5 else 0) = 5 * e
                        /\ -2 <= e <= 0
                        /\ (e < 0 -> (5 <? in_fbaCount i)%float = true)).
  { destruct (10 <? in_fbaCount i)%float eqn:E10.
    - exists (-2). split; [lia|]. split; [lia|]. intros _.
      rewrite ltb_spec in *.
      assert (E5 : Prim2SF 5 = S754_finite false 5629499534213120 (-50))
        by (vm_compute; reflexivity).
      assert (E10' : Prim2SF 10 = S754_finite false 5629499534213120 (-49))
        by (vm_compute; reflexivity).
      rewrite E5. rewrite E10' in E10.
      unfold SFltb, SFcompare in *.
      destruct (Prim2SF (in_fbaCount i)) as [[|] | [|] | | [|] m ex];
        try discriminate E10; try reflexivity.
      destruct (Z.compare_spec (-49) ex) as [Heq | Hlt | Hgt].
      + rewrite <- Heq. reflexivity.
      + destruct (Z.compare_spec (-50) ex); [lia | reflexivity | lia].
      + discriminate E10.
    - destruct (5 <? in_fbaCount i)%float; [exists (-1); lia | exists 0; lia]. }
  destruct P as (a & -> & Ha & Pa), R as (b & -> & Hb & Rb), K as (c & -> & Hc),
    V as (d & -> & Hd), C as (e & -> & He & Ce).
  exists (10 + a + b + c + d + e). split; [lia|]. split; [lia|].
  intros Hk. split; [apply Ce; lia|]. split; [apply Pa; lia | apply Rb; lia].
Qed.

(** X9: the score of a decision is 0, with the verdict REJECT (a
    knockout), or a multiple of 5 between 40 and 100: the scoring stage
    never goes below 40, so that the lower bound of the clamp is never
    what decides, and a deal rejected by its score has 40 or 45. *)
Theorem score_values
    (profit roi : float) (salesRank salesDrops30 : option float)
    (fbaCount : float) (isAmazon : bool) :
  let r := makeDecision profit roi salesRank salesDrops30 fbaCount isAmazon in
  (score r = 0 /\ decision r = REJECT)
  \/ (40 <= score r <= 100 /\ score r mod 5 = 0
      /\ (decision r = REJECT -> score r = 40 \/ score r = 45)).
Proof.
  cbv zeta.
  set (i := mkInputs profit roi salesRank salesDrops30 fbaCount isAmazon).
  change (makeDecision profit roi salesRank salesDrops30 fbaCount isAmazon)
    with (decide i).
  pose proof (decide_cases i) as H.
  destruct (first_knockout i) as [why|].
  - left. rewrite H. split; reflexivity.
  - right. rewrite H. subst i.
    cbn [in_profit in_roi in_salesRank in_salesDrops30 in_fbaCount].
    rewrite scoring_verdict, (scoring_score _ _ _ _ _ isAmazon).
    unfold code_score.
    destruct (adjustments_in_fives
                (mkInputs profit roi salesRank salesDrops30 fbaCount isAmazon))
      as (k & -> & Hk & _).
    unfold clamp.
    assert (E : Z.min 100 (Z.max 0 (5 * k)) = 5 * Z.min 20 k) by lia.
    rewrite E. split; [lia|]. split.
    + rewrite Z.mul_comm. apply Z.mod_mul. lia.
    + intros Hr. apply verdict_of_score_iff in Hr. lia.
Qed.

(** X10: a deal is rejected for its score ("Below threshold") only
    when more than five FBA sellers compete and neither the profit
    reaches 500 nor the ROI 50: with five FBA sellers or fewer, or with a
    profit of 500 or an ROI of 50, a deal that passes the knockouts is
    never rejected. *)
Theorem below_threshold_needs_competition
    (profit roi : float) (salesRank salesDrops30 : option float)
    (fbaCount : float) (isAmazon : bool) :
  reason (makeDecision profit roi salesRank salesDrops30 fbaCount isAmazon)
  = js "Below threshold" ->
  (5 <? fbaCount)%float = true
  /\ (500 <=? profit)%float = false
  /\ (50 <=? roi)%float = false.
Proof.
  set (i := mkInputs profit roi salesRank salesDrops30 fbaCount isAmazon).
  change (makeDecision profit roi salesRank salesDrops30 fbaCount isAmazon)
    with (decide i).
  intros Hr.
  assert (Hs : decide i = scoring profit roi salesRank salesDrops30 fbaCount).
  { pose proof (decide_cases i) as H.
    unfold first_knockout, knockout_rules in H. cbn [find fst snd option_map] in H.
    repeat match type of H with
           | context [if ?b then _ else _] =>
               destruct b;
               [cbn [option_map snd] in H; rewrite H in Hr;
                vm_compute in Hr; discriminate Hr|]
           end.
    exact H. }
  pose proof (scoring_verdict profit roi salesRank salesDrops30 fbaCount) as Hv.
  pose proof (scoring_score profit roi salesRank salesDrops30 fbaCount isAmazon) as Hc.
  fold i in Hc. rewrite Hs in Hr.
  destruct (adjustments_in_fives i) as (k & Ek & Hk & Hlow).
  apply Hlow.
  unfold code_score in Hc. rewrite Ek in Hc. unfold clamp in Hc.
  unfold scoring in Hr, Hc, Hv.
  match type of Hr with
  | reason (if ?b then _ else if ?c then _ else _) = _ =>
      destruct b eqn:Eb; [vm_compute in Hr; discriminate Hr|];
      destruct c eqn:Ec; [vm_compute in Hr; discriminate Hr|]
  end.
  cbn [score] in Hc. apply Z.leb_gt in Ec. lia.
Qed.

Lemma below_threshold_needs_competition_witness :
  reason (makeDecision 300 30 None None 11 false) = js "Below threshold"
  /\ (5 <? 11)%float = true.
Proof.
  assert (H : reason (makeDecision 300 30 None None 11 false) = js "Below threshold")
    by (vm_compute; reflexivity).
  split; [exact H|].
  exact (proj1 (below_threshold_needs_competition 300 30 None None 11 false H)).
Defined.

(** ** The retrying fetch wrapper *)

Import Retry.

Section RetryFacts.

Variable cfg : config.
Variable context : jsstring.
Variable net : transport.

Local Abbreviation attempts := (attempts cfg context net).
Local Abbreviation rounds := (rounds cfg net).
Local Abbreviation delay_at := (delay_at cfg).
Local Abbreviation wait_after := (wait_after cfg net).

Local Open Scope nat_scope.

Lemma calls_app (a b : list event) : calls (a ++ b) = (calls a + calls b)%nat.
Proof. unfold calls. now rewrite filter_app, length_app. Qed.

Lemma rounds_S (from n : nat) :
  rounds from (S n) = Fetch :: Sleep (wait_after from) :: rounds (S from) n.
Proof. reflexivity. Qed.

Lemma calls_rounds (from n : nat) : calls (rounds from n) = n.
Proof.
  revert from. induction n as [|n IH]; intros from; [reflexivity|].
  rewrite rounds_S. change (calls (Fetch :: Sleep (wait_after from) :: rounds (S from) n))
    with (S (calls (rounds (S from) n))).
  now rewrite IH.
Qed.

(** Each iteration calls [fetch] once: at most [k] calls in [k] iterations. *)
Lemma calls_attempts (k attempt : nat) (delay : Z) (lastError : option error) :
  (calls (fst (attempts k attempt delay lastError)) <= k)%nat.
Proof.
  revert attempt delay lastError.
  induction k as [|k IH]; intros attempt delay lastError; [cbn; lia|].
  cbn [Retry.attempts].
  assert (Hc : forall evs d le,
             (calls evs <= 1)%nat ->
             (calls (fst (let '(t, r) := attempts k (S attempt) d le in
                          (evs ++ t, r))) <= S k)%nat).
  { intros evs d le Hevs. specialize (IH (S attempt) d le).
    destruct (attempts k (S attempt) d le) as [t r]. cbn [fst] in *.
    rewrite calls_app. lia. }
  destruct (net attempt) as [r | e].
  - destruct (status r =? 429)%Z.
    + destruct (attempt =? maxRetries cfg)%nat.
      * destruct (attempt <? maxRetries cfg)%nat; apply Hc; cbn; lia.
      * apply Hc; cbn; lia.
    + destruct ((500 <=? status r) && (status r <? 600))%Z.
      * destruct (attempt =? maxRetries cfg)%nat.
        -- destruct (attempt <? maxRetries cfg)%nat; apply Hc; cbn; lia.
        -- apply Hc; cbn; lia.
      * cbn. lia.
  - destruct (attempt <? maxRetries cfg)%nat; apply Hc; cbn; lia.
Qed.

(** A retried attempt that is not the last: one call, the wait, and on. *)
Lemma attempts_retry (k attempt : nat) (lastError : option error) :
  (attempt < maxRetries cfg)%nat ->
  retryable (net attempt) = true ->
  exists lastError',
    attempts (S k) attempt (delay_at attempt) lastError
    = (Fetch :: Sleep (wait_after attempt)
         :: fst (attempts k (S attempt) (delay_at (S attempt)) lastError'),
       snd (attempts k (S attempt) (delay_at (S attempt)) lastError')).
Proof.
  intros Hlt Hretry.
  cbn [Retry.attempts]. unfold wait_after. unfold retryable in Hretry.
  assert (Hne : (attempt =? maxRetries cfg)%nat = false)
    by (apply Nat.eqb_neq; lia).
  assert (Hl : (attempt <? maxRetries cfg)%nat = true)
    by (apply Nat.ltb_lt; lia).
  change (backoff cfg (delay_at attempt)) with (delay_at (S attempt)).
  destruct (net attempt) as [r | e].
  - destruct (status r =? 429)%Z.
    + rewrite Hne. exists lastError.
      destruct (attempts k (S attempt) _ _); reflexivity.
    + cbn [orb] in Hretry. rewrite Hretry, Hne. exists lastError.
      destruct (attempts k (S attempt) _ _); reflexivity.
  - rewrite Hl. exists (Some e).
    destruct (attempts k (S attempt) _ _); reflexivity.
Qed.

(** The first outcome that is not retryable is returned at once. *)
Lemma attempts_return (j : nat) :
  forall (k attempt : nat) (lastError : option error) (r : response),
    (attempt + j <= maxRetries cfg)%nat ->
    (forall i, (i < j)%nat -> retryable (net (attempt + i)) = true) ->
    net (attempt + j) = Responded r ->
    retryable (Responded r) = false ->
    attempts (S (j + k)) attempt (delay_at attempt) lastError
    = (rounds attempt j ++ [Fetch], Return r).
Proof.
  induction j as [|j IH]; intros k attempt lastError r Hle Hpre Hj Hfinal.
  - rewrite Nat.add_0_r in Hj. cbn [Retry.attempts Nat.add].
    rewrite Hj. unfold retryable in Hfinal.
    apply orb_false_iff in Hfinal as [H429 H5xx].
    rewrite H429, H5xx. reflexivity.
  - destruct (attempts_retry (S (j + k)) attempt lastError) as [le' E].
    + lia.
    + specialize (Hpre 0%nat ltac:(lia)). now rewrite Nat.add_0_r in Hpre.
    + cbn [Nat.add]. rewrite E.
      rewrite (IH k (S attempt) le' r).
      * reflexivity.
      * lia.
      * intros i Hi. specialize (Hpre (S i) ltac:(lia)).
        now rewrite Nat.add_succ_r in Hpre.
      * now rewrite Nat.add_succ_r in Hj.
      * exact Hfinal.
Qed.

(** When every attempt is retried, the last one's failure is thrown. *)
Lemma attempts_exhaust (j : nat) :
  forall (attempt : nat) (lastError : option error),
    (attempt + j = maxRetries cfg)%nat ->
    (forall i, (i <= j)%nat -> retryable (net (attempt + i)) = true) ->
    attempts (S j) attempt (delay_at attempt) lastError
    = (rounds attempt j ++ [Fetch],
       Throw (final_error cfg context (net (maxRetries cfg)))).
Proof.
  induction j as [|j IH]; intros attempt lastError Hsum Hall.
  - rewrite Nat.add_0_r in Hsum. subst attempt.
    specialize (Hall 0%nat ltac:(lia)). rewrite Nat.add_0_r in Hall.
    cbn [Retry.attempts]. unfold final_error, retryable in *.
    rewrite Nat.eqb_refl, Nat.ltb_irrefl.
    destruct (net (maxRetries cfg)) as [r | e]; [|reflexivity].
    destruct (status r =? 429)%Z; [reflexivity|].
    cbn [orb] in Hall. rewrite Hall. reflexivity.
  - destruct (attempts_retry (S j) attempt lastError) as [le' E].
    + lia.
    + specialize (Hall 0%nat ltac:(lia)). now rewrite Nat.add_0_r in Hall.
    + rewrite E. rewrite (IH (S attempt) le').
      * reflexivity.
      * lia.
      * intros i Hi. specialize (Hall (S i) ltac:(lia)).
        now rewrite Nat.add_succ_r in Hall.
Qed.

End RetryFacts.

Lemma delay_at_config (n : nat) :
  delay_at RATE_LIMIT_CONFIG n = Z.min (1000 * 2 ^ Z.of_nat n) 30000.
Proof.
  induction n as [|n IH]; [reflexivity|].
  cbn [delay_at]. rewrite IH. unfold backoff. cbn [backoffMultiplier maxDelayMs RATE_LIMIT_CONFIG].
  rewrite Nat2Z.inj_succ, Z.pow_succ_r by lia.
  assert (0 < 2 ^ Z.of_nat n) by (apply Z.pow_pos_nonneg; lia).
  lia.
Qed.

(** C7, as the code has it. With the budget of two retries:
    - [fetch] is called at most three times;
    - the first response that is neither 429 nor 5xx is returned at once,
      after one call and one wait for each retried attempt before it;
    - when all three attempts end in a 429, a 5xx or a rejection, the run
      is three calls with two waits and throws: the rate-limit error for
      a final 429, the server error for a final 5xx, and the transport's
      own error for a final rejection;
    - the wait after a retried attempt [n] is the backoff delay
      [min(1000 * 2^n, 30000)], except after a 429 with a non-empty
      [Retry-After] that [parseInt] reads as [s], where it is
      [min(s * 1000, 30000)]; this for [s] of magnitude below 2^43, the
      range in which the source computes [s * 1000] exactly. *)
Theorem fetchWithRetry_policy (context : jsstring) (net : transport) :
  let run := fetchWithRetry RATE_LIMIT_CONFIG context net in
  let delay n := Z.min (1000 * 2 ^ Z.of_nat n) 30000 in
  (calls (fst run) <= 3)%nat
  /\ (forall (j : nat) (r : response),
         (j <= 2)%nat ->
         (forall i, (i < j)%nat -> retryable (net i) = true) ->
         net j = Responded r ->
         retryable (Responded r) = false ->
         run = (rounds RATE_LIMIT_CONFIG net 0 j ++ [Fetch], Return r))
  /\ ((forall i, (i <= 2)%nat -> retryable (net i) = true) ->
      run = (rounds RATE_LIMIT_CONFIG net 0 2 ++ [Fetch],
             Throw (final_error RATE_LIMIT_CONFIG context (net 2%nat))))
  /\ (forall n : nat,
         match net n with
         | Responded r =>
             if status r =? 429 then
               match nonempty_string (retryAfter r) with
               | Some h =>
                   match parseInt h with
                   | Some s =>
                       Z.abs s < 2 ^ 43 ->
                       wait_after RATE_LIMIT_CONFIG net n
                       = Z.min (s * 1000) 30000
                   | None => wait_after RATE_LIMIT_CONFIG net n = delay n
                   end
               | None => wait_after RATE_LIMIT_CONFIG net n = delay n
               end
             else wait_after RATE_LIMIT_CONFIG net n = delay n
         | Rejected _ => wait_after RATE_LIMIT_CONFIG net n = delay n
         end).
Proof.
  cbv zeta. repeat split.
  - apply (calls_attempts RATE_LIMIT_CONFIG context net 3 0).
  - intros j r Hj Hpre Hnet Hfinal.
    unfold fetchWithRetry. cbn [maxRetries initialDelayMs RATE_LIMIT_CONFIG].
    replace 3%nat with (S (j + (2 - j)))%nat by lia.
    apply (attempts_return RATE_LIMIT_CONFIG context net j (2 - j) 0 None r);
      cbn [maxRetries RATE_LIMIT_CONFIG Nat.add]; assumption.
  - intros Hall.
    apply (attempts_exhaust RATE_LIMIT_CONFIG context net 2 0 None).
    + reflexivity.
    + exact Hall.
  - intros n. unfold wait_after, waitTime429.
    rewrite delay_at_config. cbn [maxDelayMs RATE_LIMIT_CONFIG].
    destruct (net n) as [r | e]; [|reflexivity].
    destruct (status r =? 429); [|reflexivity].
    destruct (nonempty_string (retryAfter r)) as [h|]; [|lia].
    destruct (parseInt h); [intros _; reflexivity | lia].
Qed.

Lemma fetchWithRetry_policy_witness :
  fetchWithRetry RATE_LIMIT_CONFIG (js "eBay API") net_recovers
  = ([Fetch; Sleep 1000; Fetch; Sleep 2000; Fetch], Return ok200)
  /\ wait_after RATE_LIMIT_CONFIG
       (fun n => match n with
                 | O => Responded (busy429 (Some (js "7")))
                 | _ => Responded ok200
                 end) 0
     = 7000.
Proof.
  split.
  - destruct (fetchWithRetry_policy (js "eBay API") net_recovers) as (_ & H & _).
    rewrite (H 2%nat ok200).
    + reflexivity.
    + apply Nat.le_refl.
    + intros [|[|i]] Hi; [reflexivity | reflexivity | exfalso; lia].
    + reflexivity.
    + reflexivity.
  - destruct (fetchWithRetry_policy (js "eBay API")
                (fun n => match n with
                          | O => Responded (busy429 (Some (js "7")))
                          | _ => Responded ok200
                          end)) as (_ & _ & _ & H).
    specialize (H 0%nat).
    change (Z.abs 7 < 2 ^ 43 ->
            wait_after RATE_LIMIT_CONFIG
              (fun n => match n with
                        | O => Responded (busy429 (Some (js "7")))
                        | _ => Responded ok200
                        end) 0
            = Z.min (7 * 1000) 30000) in H.
    rewrite H; [reflexivity | vm_compute; reflexivity].
Defined.

Example success_on_second_attempt :
  fetchWithRetry RATE_LIMIT_CONFIG (js "eBay API")
    (fun n => match n with O => Responded (busy429 None) | _ => Responded ok200 end)
  = ([Fetch; Sleep 1000; Fetch], Return ok200).
Proof. reflexivity. Qed.

Example always_429 :
  fetchWithRetry RATE_LIMIT_CONFIG (js "eBay API") net_always_429
  = ([Fetch; Sleep 1000; Fetch; Sleep 2000; Fetch],
     Throw (RateLimitExceeded (js "eBay API") 2)).
Proof. reflexivity. Qed.

(** C7 as stated does not hold. After a 429 with [Retry-After: 60] the
    wrapper waits 30000 ms, not 60000; and when the last attempt is a
    rejected call, what it throws is the transport's error, neither a
    rate-limit nor a server-error failure. *)
Lemma retry_after_is_capped :
  let run := fetchWithRetry RATE_LIMIT_CONFIG (js "eBay API") net_retry_after_60 in
  sleeps (fst run) = [30000; 2000]
  /\ claimed_wait429 (busy429 (Some (js "60"))) 1000 = 60000
  /\ nth_error (sleeps (fst run)) 0
     <> Some (claimed_wait429 (busy429 (Some (js "60"))) 1000)
  /\ snd run = Throw (TransportError (js "fetch failed"))
  /\ rate_limit_or_server_error (TransportError (js "fetch failed")) = false.
Proof.
  cbv zeta. repeat split; try reflexivity.
  vm_compute. discriminate.
Qed.

Example parseInt_examples :
  parseInt (js "60") = Some 60
  /\ parseInt (js " 7s") = Some 7
  /\ parseInt (js "1.5") = Some 1
  /\ parseInt (js "-5") = Some (-5)
  /\ parseInt (js "Wed, 21 Oct 2026 07:28:00 GMT") = None
  /\ parseInt (js "") = None.
Proof. vm_compute. repeat split; reflexivity. Qed.

Example retry_after_honoured_below_cap :
  fetchWithRetry RATE_LIMIT_CONFIG (js "eBay Search")
    (fun n => match n with
              | O => Responded (busy429 (Some (js "7")))
              | _ => Responded ok200
              end)
  = ([Fetch; Sleep 7000; Fetch], Return ok200).
Proof. reflexivity. Qed.

(** *** The shape of a run *)

Import RetryRun.

Section RetryShape.

Variable cfg : config.
Variable context : jsstring.
Variable net : transport.

Local Abbreviation run_shape := (run_shape cfg).

Lemma run_shape_round (k : nat) (w : Z) (run : list event * result) :
  w <= maxDelayMs cfg ->
  run_shape k run ->
  run_shape (S k) (Fetch :: Sleep w :: fst run, snd run).
Proof.
  intros Hw (Hc & Hk & Hl & Hf & Hr). unfold RetryRun.run_shape. cbn [fst snd].
  change (calls (Fetch :: Sleep w :: fst run)) with (S (calls (fst run))).
  cbn [sleeps List.length].
  repeat split; try lia; try assumption.
  - destruct (fst run) as [|e evs]; [discriminate Hc|]. exact Hl.
  - now constructor.
Qed.

Lemma attempts_shape (k : nat) :
  forall (attempt : nat) (delay : Z) (lastError : option error),
    (attempt + S k = S (maxRetries cfg))%nat ->
    delay <= maxDelayMs cfg ->
    run_shape (S k) (attempts cfg context net (S k) attempt delay lastError).
Proof.
  induction k as [|k IH]; intros attempt delay lastError Hsum Hdelay.
  - assert (E : attempt = maxRetries cfg) by lia. subst attempt.
    cbn [attempts]. rewrite Nat.eqb_refl, Nat.ltb_irrefl.
    assert (Hone : forall e, run_shape 1 ([Fetch] ++ [], Throw e)).
    { intros e. unfold RetryRun.run_shape. cbn. repeat split; try lia. constructor. }
    destruct (net (maxRetries cfg)) as [r | e]; [|apply Hone].
    destruct (status r =? 429) eqn:E429; [apply Hone|].
    destruct ((500 <=? status r) && (status r <? 600)) eqn:E5xx; [apply Hone|].
    unfold RetryRun.run_shape, retryable. cbn [fst snd]. rewrite E429, E5xx.
    cbn. repeat split; try lia. constructor.
  - assert (Hlt : (attempt <? maxRetries cfg)%nat = true) by (apply Nat.ltb_lt; lia).
    assert (Hne : (attempt =? maxRetries cfg)%nat = false) by (apply Nat.eqb_neq; lia).
    assert (Hb : backoff cfg delay <= maxDelayMs cfg) by (unfold backoff; lia).
    assert (Hnext : forall w le,
               w <= maxDelayMs cfg ->
               run_shape (S (S k))
                 (let '(t, r) := attempts cfg context net (S k) (S attempt)
                                   (backoff cfg delay) le in
                  (Fetch :: Sleep w :: t, r))).
    { intros w le Hw.
      pose proof (IH (S attempt) (backoff cfg delay) le ltac:(lia) Hb) as H.
      destruct (attempts cfg context net (S k) (S attempt) (backoff cfg delay) le)
        as [t r].
      exact (run_shape_round (S k) w (t, r) Hw H). }
    remember (S k) as k' eqn:Ek'. cbn [attempts]. rewrite Hlt, Hne.
    destruct (net attempt) as [r | e].
    + destruct (status r =? 429) eqn:E429.
      * apply (Hnext (waitTime429 cfg r delay)). unfold waitTime429. lia.
      * destruct ((500 <=? status r) && (status r <? 600)) eqn:E5xx.
        -- apply (Hnext delay). exact Hdelay.
        -- unfold RetryRun.run_shape, retryable. cbn [fst snd]. rewrite E429, E5xx.
           cbn. repeat split; try lia. constructor.
    + apply (Hnext delay (Some e)). exact Hdelay.
Qed.

End RetryShape.

Lemma sleeps_total (bound : Z) (ws : list Z) :
  Forall (fun ms => ms <= bound) ws ->
  fold_right Z.add 0 ws <= Z.of_nat (List.length ws) * bound.
Proof.
  induction 1 as [|w ws Hw _ IH]; [cbn; lia|].
  cbn [fold_right List.length]. rewrite Nat2Z.inj_succ. lia.
Qed.

Lemma rate_limit_run_shape (context : jsstring) (net : transport) :
  run_shape RATE_LIMIT_CONFIG 3 (fetchWithRetry RATE_LIMIT_CONFIG context net).
Proof.
  assert (H0 : initialDelayMs RATE_LIMIT_CONFIG <= maxDelayMs RATE_LIMIT_CONFIG)
    by (cbv; discriminate).
  exact (attempts_shape RATE_LIMIT_CONFIG context net 2 0 1000 None eq_refl H0).
Qed.

(** X11: whatever the transport does, the calls of a run of
    [fetchWithRetry] are separated by single waits and the run ends with a
    call: there is one wait less than there are calls, at least one call
    and at most three, and no wait follows the last attempt. *)
Theorem fetchWithRetry_waits_between_calls (context : jsstring) (net : transport) :
  let run := fetchWithRetry RATE_LIMIT_CONFIG context net in
  calls (fst run) = S (List.length (sleeps (fst run)))
  /\ (1 <= calls (fst run) <= 3)%nat
  /\ last (fst run) Fetch = Fetch.
Proof.
  cbv zeta.
  destruct (rate_limit_run_shape context net)
    as (Hc & Hk & Hl & _).
  repeat split; try assumption. lia.
Qed.

(** X12: whatever the transport answers, and whatever a [Retry-After]
    header asks for, no wait of a run is longer than 30 seconds, and the
    waits of a run add up to at most 60 seconds. *)
Theorem fetchWithRetry_wait_bounded (context : jsstring) (net : transport) :
  let run := fetchWithRetry RATE_LIMIT_CONFIG context net in
  Forall (fun ms => ms <= 30000) (sleeps (fst run))
  /\ total_wait (fst run) <= 60000.
Proof.
  cbv zeta.
  destruct (rate_limit_run_shape context net)
    as (Hc & Hk & _ & Hf & _).
  change (maxDelayMs RATE_LIMIT_CONFIG) with 30000 in Hf.
  split; [exact Hf|].
  pose proof (sleeps_total 30000 _ Hf). unfold total_wait. lia.
Qed.

(** X13: [fetchWithRetry] never hands a 429 or a 5xx response to its
    caller: a response it returns has another status. *)
Theorem fetchWithRetry_never_returns_retryable
    (context : jsstring) (net : transport) (r : response) :
  snd (fetchWithRetry RATE_LIMIT_CONFIG context net) = Return r ->
  status r <> 429 /\ ~ (500 <= status r < 600).
Proof.
  intros Hr.
  destruct (rate_limit_run_shape context net)
    as (_ & _ & _ & _ & H).
  rewrite Hr in H. unfold retryable in H.
  apply orb_false_iff in H as [H429 H5xx].
  apply Z.eqb_neq in H429. split; [exact H429|].
  apply andb_false_iff in H5xx as [H | H]; [apply Z.leb_gt in H | apply Z.ltb_ge in H]; lia.
Qed.

Lemma fetchWithRetry_never_returns_retryable_witness :
  status ok200 <> 429 /\ ~ (500 <= status ok200 < 600).
Proof.
  apply (fetchWithRetry_never_returns_retryable (js "eBay Search") net_recovers).
  reflexivity.
Defined.

(** ** ISBN extraction from a listing *)

Import Extract.

Lemma extractISBN_first_match (item : EbayItemSummary) :
  extractISBN item
  = first_match [rule_explicit; rule_gtin; rule_aspect; rule_title] item.
Proof.
  destruct item as [t [[|first rest]|] [[|c g]|] [aspects|]];
    unfold extractISBN, first_match, rule_explicit, rule_gtin, rule_aspect,
      rule_title;
    cbn [title isbn gtin localizedAspects hd_error];
    try reflexivity;
    change (List.length (strip [])) with 0%nat;
    cbn [Nat.eqb orb];
    repeat match goal with
           | |- context [if ?b then _ else _] => destruct b
           end;
    try reflexivity;
    repeat match goal with
           | |- context [find ?f ?l] => destruct (find f l)
           end;
    cbn [option_map];
    try reflexivity;
    destruct (title_match t); reflexivity.
Qed.

(** *** The title pattern *)

Lemma digit_is_word (c : ascii) : is_digit c = true -> is_word c = true.
Proof. unfold is_word. intros ->. reflexivity. Qed.

Lemma take_digits_some (n : nat) :
  forall s ds rest,
    take_digits n s = Some (ds, rest) ->
    s = ds ++ rest /\ List.length ds = n /\ forallb is_digit ds = true.
Proof.
  induction n as [|n IH]; intros s ds rest H; cbn [take_digits] in H.
  - injection H as <- <-. repeat split.
  - destruct s as [|c s']; [discriminate|].
    destruct (is_digit c) eqn:Dc; [|discriminate].
    destruct (take_digits n s') as [[ds' rest']|] eqn:E; [|discriminate].
    injection H as <- <-.
    destruct (IH _ _ _ E) as (-> & <- & Hd).
    repeat split. cbn [forallb]. now rewrite Dc.
Qed.

Lemma take_digits_app (ds rest : jsstring) :
  forallb is_digit ds = true ->
  take_digits (List.length ds) (ds ++ rest) = Some (ds, rest).
Proof.
  induction ds as [|c ds IH]; intros H; [reflexivity|].
  cbn [forallb] in H. apply andb_true_iff in H as [Dc Hd].
  cbn [List.length take_digits app]. now rewrite Dc, (IH Hd).
Qed.

Lemma last_digit_is_word (ds : jsstring) :
  forallb is_digit ds = true -> is_word (last ds "0"%char) = true.
Proof.
  induction ds as [|c ds IH]; intros H; [reflexivity|].
  cbn [forallb] in H. apply andb_true_iff in H as [Dc Hd].
  destruct ds as [|d ds]; [now apply digit_is_word|].
  change (last (c :: d :: ds) "0"%char) with (last (d :: ds) "0"%char).
  now apply IH.
Qed.

Lemma digits_here_iff (n : nat) (prev : option ascii) (s ds : jsstring) :
  (0 < n)%nat ->
  digits_here n prev s = Some ds <->
  exists rest,
    s = ds ++ rest /\ List.length ds = n /\ forallb is_digit ds = true
    /\ is_word_at prev = false /\ is_word_at (hd_error rest) = false.
Proof.
  intros Hn. unfold digits_here, boundary. split.
  - intros H.
    destruct (xorb (is_word_at prev) (is_word_at (hd_error s))) eqn:B1;
      [|discriminate].
    destruct (take_digits n s) as [[ds' rest]|] eqn:E; [|discriminate].
    destruct (take_digits_some _ _ _ _ E) as (-> & Hlen & Hd).
    pose proof (last_digit_is_word ds' Hd) as Hl.
    cbn [is_word_at] in H. rewrite Hl in H.
    destruct (is_word_at (hd_error rest)) eqn:B2; [discriminate|].
    injection H as <-. exists rest. repeat split; try assumption.
    destruct ds' as [|c ds']; [cbn in Hlen; lia|].
    cbn [forallb] in Hd. apply andb_true_iff in Hd as [Dc _].
    cbn [app hd_error is_word_at] in B1. rewrite (digit_is_word c Dc) in B1.
    now destruct (is_word_at prev).
  - intros (rest & -> & <- & Hd & Hp & Hr).
    rewrite (take_digits_app ds rest Hd).
    cbn [is_word_at]. rewrite (last_digit_is_word ds Hd), Hr, Hp.
    destruct ds as [|c ds]; [cbn in Hn; lia|].
    cbn [forallb] in Hd. apply andb_true_iff in Hd as [Dc _].
    cbn [app hd_error is_word_at]. now rewrite (digit_is_word c Dc).
Qed.

Lemma isbn_here_iff (prev : option ascii) (s ds : jsstring) :
  isbn_here prev s = Some ds <->
  exists post, s = ds ++ post /\ pattern_at prev [] ds post.
Proof.
  unfold isbn_here, pattern_at. cbn [char_before fold_left]. split.
  - destruct (digits_here 10 prev s) as [ds'|] eqn:E10.
    + intros H. injection H as ->.
      apply digits_here_iff in E10 as (rest & -> & Hl & Hd & Hp & Hr); [|lia].
      exists rest. repeat split; auto.
    + intros E13.
      apply digits_here_iff in E13 as (rest & -> & Hl & Hd & Hp & Hr); [|lia].
      exists rest. repeat split; auto.
  - intros (post & -> & [Hl | Hl] & Hd & Hp & Hr).
    + assert (E : digits_here 10 prev (ds ++ post) = Some ds).
      { apply digits_here_iff; [lia|]. exists post. repeat split; auto. }
      now rewrite E.
    + destruct (digits_here 10 prev (ds ++ post)) as [ds'|] eqn:E10.
      * exfalso.
        apply digits_here_iff in E10 as (rest & Eq & Hl' & Hd' & _ & Hr'); [|lia].
        apply app_eq_app in Eq as [l [[E1 E2] | [E1 E2]]].
        -- subst ds rest. rewrite length_app in Hl.
           destruct l as [|c l]; [cbn in Hl; lia|].
           rewrite forallb_app in Hd. apply andb_true_iff in Hd as [_ Hd].
           cbn [forallb] in Hd. apply andb_true_iff in Hd as [Dc _].
           cbn [app hd_error is_word_at] in Hr'.
           rewrite (digit_is_word c Dc) in Hr'. discriminate.
        -- subst ds'. rewrite length_app in Hl'. lia.
      * apply digits_here_iff; [lia|]. exists post. repeat split; auto.
Qed.

Lemma pattern_at_cons (prev : option ascii) (c : ascii) (pre ds post : jsstring) :
  pattern_at prev (c :: pre) ds post <-> pattern_at (Some c) pre ds post.
Proof. reflexivity. Qed.

(** What [scan] finds is a match of the pattern, and the leftmost one. *)
Lemma scan_found (s : jsstring) :
  forall (prev : option ascii) (ds : jsstring),
    scan prev s = Some ds ->
    exists pre post,
      s = pre ++ ds ++ post
      /\ pattern_at prev pre ds post
      /\ (forall pre' ds' post',
             s = pre' ++ ds' ++ post' ->
             pattern_at prev pre' ds' post' ->
             (List.length pre <= List.length pre')%nat).
Proof.
  induction s as [|c s IH]; intros prev ds H.
  - cbn [scan] in H.
    destruct (isbn_here prev []) as [ds'|] eqn:E; [|discriminate].
    injection H as ->. apply isbn_here_iff in E as (post & E & Hs).
    exists [], post. split; [exact E | split; [exact Hs|]].
      intros; cbn; lia.
  - cbn [scan] in H.
    destruct (isbn_here prev (c :: s)) as [ds'|] eqn:E.
    + injection H as ->. apply isbn_here_iff in E as (post & E & Hs).
      exists [], post. split; [exact E | split; [exact Hs|]].
      intros; cbn; lia.
    + destruct (IH (Some c) ds H) as (pre & post & -> & Hs & Hleft).
      exists (c :: pre), post. split; [reflexivity|]. split.
      * now apply pattern_at_cons.
      * intros pre' ds' post' Eq Hs'.
        destruct pre' as [|c' pre'].
        -- exfalso. cbn [app] in Eq.
           assert (isbn_here prev (c :: pre ++ ds ++ post) = Some ds')
             by (apply isbn_here_iff; exists post'; split; assumption).
           congruence.
        -- cbn [app] in Eq. injection Eq as <- Eq.
           specialize (Hleft pre' ds' post' Eq (proj1 (pattern_at_cons _ _ _ _ _) Hs')).
           cbn [List.length]. lia.
Qed.

(** When [scan] finds nothing, the text has no match of the pattern. *)
Lemma scan_none (s : jsstring) :
  forall (prev : option ascii),
    scan prev s = None ->
    forall pre ds post,
      s = pre ++ ds ++ post -> ~ pattern_at prev pre ds post.
Proof.
  induction s as [|c s IH]; intros prev H pre ds post Eq Hs.
  - destruct pre as [|c' pre]; [|discriminate Eq].
    cbn [scan] in H.
    assert (E : isbn_here prev [] = Some ds)
      by (apply isbn_here_iff; exists post; split; assumption).
    rewrite E in H. discriminate H.
  - cbn [scan] in H.
    destruct (isbn_here prev (c :: s)) as [ds'|] eqn:E; [discriminate|].
    destruct pre as [|c' pre].
    + assert (E' : isbn_here prev (c :: s) = Some ds)
        by (apply isbn_here_iff; exists post; split; assumption).
      congruence.
    + cbn [app] in Eq. injection Eq as <- Eq.
      exact (IH (Some c) H pre ds post Eq (proj1 (pattern_at_cons _ _ _ _ _) Hs)).
Qed.

(** The number found at the leftmost position is unique. *)
Lemma pattern_at_same_start (prev : option ascii) (pre ds post ds' post' : jsstring) :
  pre ++ ds ++ post = pre ++ ds' ++ post' ->
  pattern_at prev pre ds post -> pattern_at prev pre ds' post' -> ds = ds'.
Proof.
  intros Eq Hs Hs'. apply app_inv_head in Eq.
  assert (E : isbn_here (char_before prev pre) (ds ++ post) = Some ds).
  { apply isbn_here_iff. exists post. split; [reflexivity|].
    destruct Hs as (Hl & Hd & Hp & Hr). repeat split; assumption. }
  assert (E' : isbn_here (char_before prev pre) (ds ++ post) = Some ds').
  { apply isbn_here_iff. exists post'. split; [exact Eq|].
    destruct Hs' as (Hl & Hd & Hp & Hr). repeat split; assumption. }
  congruence.
Qed.

Lemma app_same_length {A : Type} (a b x y : list A) :
  List.length a = List.length b -> a ++ x = b ++ y -> a = b /\ x = y.
Proof.
  revert b. induction a as [|h a IH]; intros [|h' b] Hlen Eq;
    try discriminate Hlen.
  - now split.
  - cbn [app] in Eq. injection Eq as -> Eq. injection Hlen as Hlen.
    destruct (IH b Hlen Eq) as [-> ->]. now split.
Qed.

(** *** The GTIN and the aspect rules *)

Lemma separator_iff (c : ascii) :
  is_hyphen c || is_space c = true <-> separator c.
Proof.
  unfold separator.
  destruct c as [[] [] [] [] [] [] [] []]; vm_compute; split;
    first
      [ solve [ intros H; discriminate H ]
      | solve [ intros _; reflexivity ]
      | solve [ intros _; tauto ]
      | solve [ intros H;
                repeat (destruct H as [H | H]; [discriminate H|]);
                destruct H ] ].
Qed.

(** The cleaned form of a string is what [replace(/[-\s]/g, '')] gives. *)
Lemma cleaned_iff (g clean : jsstring) : cleaned g clean <-> clean = strip g.
Proof.
  split.
  - intros H. induction H as [| c g clean Hc _ IH | c g clean Hc _ IH].
    + reflexivity.
    + apply separator_iff in Hc. unfold strip in *. cbn [filter].
      rewrite Hc. exact IH.
    + unfold strip in *. cbn [filter].
      destruct (is_hyphen c || is_space c) eqn:E.
      * apply separator_iff in E. now elim Hc.
      * cbn [negb]. now rewrite IH.
  - intros ->. induction g as [|c g IH]; [constructor|].
    unfold strip in *. cbn [filter].
    destruct (is_hyphen c || is_space c) eqn:E; cbn [negb].
    + apply cleaned_skip; [now apply separator_iff | exact IH].
    + apply cleaned_keep; [|exact IH].
      intros Hc. apply separator_iff in Hc. congruence.
Qed.

Lemma startsWith_iff (p s : jsstring) :
  startsWith p s = true <-> exists post, s = p ++ post.
Proof.
  revert s. induction p as [|a p IH]; intros s; cbn [startsWith].
  - split; [intros _; now exists s | reflexivity].
  - destruct s as [|b s].
    + split; [discriminate | intros (post & E); discriminate E].
    + rewrite andb_true_iff, Ascii.eqb_eq, IH. split.
      * intros (-> & post & ->). now exists post.
      * intros (post & E). cbn [app] in E. injection E as -> ->.
        split; [reflexivity | now exists post].
Qed.

Lemma includes_iff (needle hay : jsstring) :
  includes needle hay = true <-> exists pre post, hay = pre ++ needle ++ post.
Proof.
  induction hay as [|c hay IH]; cbn [includes].
  - rewrite orb_false_r, startsWith_iff. split.
    + intros (post & E). now exists [], post.
    + intros (pre & post & E). destruct pre as [|x pre]; [|discriminate E].
      now exists post.
  - rewrite orb_true_iff, startsWith_iff, IH. split.
    + intros [(post & E) | (pre & post & E)].
      * now exists [], post.
      * exists (c :: pre), post. cbn [app]. now rewrite E.
    + intros (pre & post & E). destruct pre as [|x pre].
      * left. now exists post.
      * right. cbn [app] in E. injection E as _ E. now exists pre, post.
Qed.

(** The characters that [toLowerCase] turns into a given small letter. *)
Lemma toLowerCase_char_is (small capital c : ascii) :
  In (small, capital) [("i", "I"); ("s", "S"); ("b", "B"); ("n", "N")]%char ->
  toLowerCase_char c = small <-> c = small \/ c = capital.
Proof.
  intros [E | [E | [E | [E | []]]]]; injection E as <- <-;
    destruct c as [[] [] [] [] [] [] [] []]; vm_compute; split;
      first
        [ solve [ intros H; discriminate H ]
        | solve [ intros [H | H]; discriminate H ]
        | solve [ intros _; reflexivity ]
        | solve [ intros _; tauto ] ].
Qed.

Lemma names_isbn_iff (name : jsstring) :
  includes (js "isbn") (toLowerCase name) = true <-> names_isbn name.
Proof.
  rewrite includes_iff. unfold names_isbn, toLowerCase.
  change (js "isbn") with ["i"; "s"; "b"; "n"]%char.
  split.
  - intros (pre' & post' & E).
    apply map_eq_app in E as (pre & rest & -> & _ & E).
    cbn [app] in E.
    destruct rest as [|i [|s [|b [|n post]]]]; try discriminate E.
    cbn [map] in E. injection E as Hi Hs Hb Hn _.
    exists pre, i, s, b, n, post. split; [reflexivity|].
    repeat split.
    + apply (toLowerCase_char_is "i" "I"); [cbn; tauto | exact Hi].
    + apply (toLowerCase_char_is "s" "S"); [cbn; tauto | exact Hs].
    + apply (toLowerCase_char_is "b" "B"); [cbn; tauto | exact Hb].
    + apply (toLowerCase_char_is "n" "N"); [cbn; tauto | exact Hn].
  - intros (pre & i & s & b & n & post & -> & Hi & Hs & Hb & Hn).
    exists (map toLowerCase_char pre), (map toLowerCase_char post).
    rewrite map_app. cbn [map app].
    apply (toLowerCase_char_is "i" "I") in Hi; [|cbn; tauto].
    apply (toLowerCase_char_is "s" "S") in Hs; [|cbn; tauto].
    apply (toLowerCase_char_is "b" "B") in Hb; [|cbn; tauto].
    apply (toLowerCase_char_is "n" "N") in Hn; [|cbn; tauto].
    now rewrite Hi, Hs, Hb, Hn.
Qed.

(** [find] returns the first element that passes the test. *)
Lemma find_first {A : Type} (f : A -> bool) (l : list A) (a : A) :
  find f l = Some a <->
  exists before after,
    l = before ++ a :: after
    /\ (forall b, In b before -> f b = false)
    /\ f a = true.
Proof.
  induction l as [|x l IH]; cbn [find].
  - split; [discriminate|].
    intros (before & after & E & _). destruct before; discriminate E.
  - destruct (f x) eqn:Ex.
    + split.
      * intros H. injection H as <-. exists [], l.
        split; [reflexivity | split; [intros b [] | exact Ex]].
      * intros (before & after & E & Hb & Ha).
        destruct before as [|y before].
        -- cbn [app] in E. now injection E as ->.
        -- cbn [app] in E. injection E as <- _.
           rewrite (Hb x (or_introl eq_refl)) in Ex. discriminate Ex.
    + rewrite IH. split.
      * intros (before & after & -> & Hb & Ha).
        exists (x :: before), after.
        split; [reflexivity | split; [|exact Ha]].
        intros b [<- | Hin]; [exact Ex | now apply Hb].
      * intros (before & after & E & Hb & Ha).
        destruct before as [|y before].
        -- cbn [app] in E. injection E as -> _. congruence.
        -- cbn [app] in E. injection E as <- ->.
           exists before, after.
           split; [reflexivity | split; [|exact Ha]].
           intros b Hin. apply Hb. now right.
Qed.

(** *** The words of the title rule *)

Lemma digit_char_iff (c : ascii) : is_digit c = true <-> digit_char c.
Proof.
  unfold digit_char.
  destruct c as [[] [] [] [] [] [] [] []]; vm_compute; split;
    first
      [ solve [ intros H; discriminate H ]
      | solve [ intros _; reflexivity ]
      | solve [ intros _; tauto ]
      | solve [ intros H;
                repeat (destruct H as [H | H]; [discriminate H|]);
                destruct H ] ].
Qed.

Lemma word_char_iff (c : ascii) : is_word c = true <-> word_char c.
Proof.
  unfold word_char.
  destruct c as [[] [] [] [] [] [] [] []]; vm_compute; split;
    first
      [ solve [ intros H; discriminate H ]
      | solve [ intros _; reflexivity ]
      | solve [ intros _; tauto ]
      | solve [ intros H;
                repeat (destruct H as [H | H]; [discriminate H|]);
                destruct H ] ].
Qed.

Lemma word_at_iff (c : option ascii) : is_word_at c = false <-> ~ word_at c.
Proof.
  destruct c as [a|]; cbn [is_word_at word_at]; [|tauto].
  rewrite <- word_char_iff. destruct (is_word a); split; congruence.
Qed.

Lemma standalone_iff (prev : option ascii) (pre ds post : jsstring) :
  standalone prev pre ds post <-> pattern_at prev pre ds post.
Proof.
  unfold standalone, pattern_at.
  rewrite !word_at_iff, forallb_forall, Forall_forall.
  split; intros (Hl & Hd & Hp & Hr); repeat split; try assumption;
    intros c Hc; apply digit_char_iff, Hd, Hc.
Qed.

(** C8: the four rules are tried in their order and the value of the
    first that matches is returned, null when none does: the first entry
    of a non-empty explicit ISBN list; else the GTIN without its hyphens
    and white space when what is left has 10 or 13 characters; else the
    value of the first aspect whose name contains "isbn" in any letter
    case; else the leftmost standalone 10- or 13-digit number of the
    title, one with no letter, digit or underscore next to it. An
    explicit ISBN wins over any title. *)
Theorem extractISBN_precedence :
  (forall item : EbayItemSummary,
      extractISBN item
      = first_match [rule_explicit; rule_gtin; rule_aspect; rule_title] item)
  /\ (forall (item : EbayItemSummary) (first : jsstring),
         rule_explicit item = Some first <->
         exists rest, isbn item = Some (first :: rest))
  /\ (forall (item : EbayItemSummary) (clean : jsstring),
         rule_gtin item = Some clean <->
         exists g,
           gtin item = Some g
           /\ cleaned g clean
           /\ (List.length clean = 10%nat \/ List.length clean = 13%nat))
  /\ (forall (item : EbayItemSummary) (v : jsstring),
         rule_aspect item = Some v <->
         exists aspects before a after,
           localizedAspects item = Some aspects
           /\ aspects = before ++ a :: after
           /\ (forall b, In b before -> ~ names_isbn (name b))
           /\ names_isbn (name a)
           /\ value a = v)
  /\ (forall (item : EbayItemSummary) (ds : jsstring),
         rule_title item = Some ds <->
         exists pre post,
           title item = pre ++ ds ++ post
           /\ standalone None pre ds post
           /\ (forall pre' ds' post',
                  title item = pre' ++ ds' ++ post' ->
                  standalone None pre' ds' post' ->
                  (List.length pre <= List.length pre')%nat))
  /\ (forall (t first : jsstring) (rest : list jsstring)
             (g : option jsstring) (a : option (list aspect)),
         extractISBN (mkItem t (Some (first :: rest)) g a) = Some first).
Proof.
  split; [exact extractISBN_first_match | split; [|split; [|split; [|split]]]].
  - intros item first. unfold rule_explicit.
    destruct (isbn item) as [[|x rest]|]; cbn [hd_error].
    + split; [discriminate | intros (rest & E); discriminate E].
    + split.
      * intros H. injection H as ->. now exists rest.
      * intros (rest' & E). now injection E as ->.
    + split; [discriminate | intros (rest & E); discriminate E].
  - intros item clean. unfold rule_gtin.
    destruct (gtin item) as [g|].
    + split.
      * intros H.
        destruct (Nat.eqb (List.length (strip g)) 10
                  || Nat.eqb (List.length (strip g)) 13) eqn:E;
          [|discriminate H].
        injection H as <-. exists g.
        split; [reflexivity | split; [now apply cleaned_iff|]].
        apply orb_true_iff in E as [E | E]; apply Nat.eqb_eq in E; tauto.
      * intros (g' & Eg & Hc & Hl). injection Eg as <-.
        apply cleaned_iff in Hc. subst clean.
        assert (E : Nat.eqb (List.length (strip g)) 10
                    || Nat.eqb (List.length (strip g)) 13 = true).
        { apply orb_true_iff.
          destruct Hl as [Hl | Hl]; [left | right]; now apply Nat.eqb_eq. }
        now rewrite E.
    + split; [discriminate | intros (g & E & _); discriminate E].
  - intros item v. unfold rule_aspect.
    destruct (localizedAspects item) as [aspects|].
    + split.
      * intros H.
        destruct (find _ aspects) as [a|] eqn:Ef; [|discriminate H].
        cbn [option_map] in H. injection H as <-.
        apply find_first in Ef as (before & after & -> & Hb & Ha).
        exists (before ++ a :: after), before, a, after.
        split; [reflexivity | split; [reflexivity | split; [|split]]].
        -- intros b Hin Hn. apply names_isbn_iff in Hn.
           rewrite (Hb b Hin) in Hn. discriminate Hn.
        -- now apply names_isbn_iff.
        -- reflexivity.
      * intros (aspects' & before & a & after & Ea & -> & Hb & Ha & <-).
        injection Ea as ->.
        assert (Ef : find (fun a => includes (js "isbn") (toLowerCase (name a)))
                       (before ++ a :: after) = Some a).
        { apply find_first. exists before, after.
          split; [reflexivity | split; [|now apply names_isbn_iff]].
          intros b Hin.
          destruct (includes (js "isbn") (toLowerCase (name b))) eqn:E;
            [|reflexivity].
          apply names_isbn_iff in E. now elim (Hb b Hin). }
        now rewrite Ef.
    + split; [discriminate|].
      intros (aspects & before & a & after & E & _). discriminate E.
  - intros item ds. unfold rule_title, title_match. split.
    + intros H.
      destruct (scan_found _ _ _ H) as (pre & post & Eq & Hs & Hleft).
      exists pre, post. split; [exact Eq | split; [now apply standalone_iff|]].
      intros pre' ds' post' Eq' Hs'. apply (Hleft pre' ds' post' Eq').
      now apply standalone_iff.
    + intros (pre & post & Eq & Hs & Hleft).
      apply standalone_iff in Hs.
      destruct (scan None (title item)) as [ds0|] eqn:E.
      * destruct (scan_found _ _ _ E) as (pre0 & post0 & Eq0 & Hs0 & Hleft0).
        pose proof (Hleft pre0 ds0 post0 Eq0 (proj2 (standalone_iff _ _ _ _) Hs0))
          as L1.
        pose proof (Hleft0 pre ds post Eq Hs) as L2.
        assert (Hlen : List.length pre0 = List.length pre) by lia.
        assert (pre0 = pre)
          by (rewrite Eq0 in Eq; exact (proj1 (app_same_length _ _ _ _ Hlen Eq))).
        subst pre0. rewrite Eq0 in Eq.
        f_equal. exact (pattern_at_same_start None pre ds0 post0 ds post Eq Hs0 Hs).
      * exfalso. exact (scan_none _ _ E pre ds post Eq Hs).
  - intros. reflexivity.
Qed.

Example explicit_isbn_beats_title :
  extractISBN
    (mkItem (js "Dune paperback 9780441172719 very good")
       (Some [js "0441172717"]) (Some (js "978-0-441-17271-9"))
       (Some [mkAspect (js "STRING") (js "ISBN-13") (js "9780441172719")]))
  = Some (js "0441172717").
Proof. reflexivity. Qed.

Example extractISBN_rules_in_turn :
  extractISBN
    (mkItem (js "Dune paperback 9780441172719 very good")
       (Some []) (Some (js "0-441-17271-7"))
       (Some [mkAspect (js "STRING") (js "ISBN-13") (js "9780441172710")]))
  = Some (js "0441172717")
  /\ extractISBN
       (mkItem (js "Dune paperback 9780441172719 very good")
          None (Some (js "12345"))
          (Some [mkAspect (js "STRING") (js "Format") (js "Paperback");
                 mkAspect (js "STRING") (js "Isbn-13") (js "9780441172710")]))
     = Some (js "9780441172710")
  /\ extractISBN
       (mkItem (js "Dune (9780441172719) very good, sku_1234567890")
          None None (Some [mkAspect (js "STRING") (js "Format") (js "Paperback")]))
     = Some (js "9780441172719")
  /\ extractISBN
       (mkItem (js "Dune lot 12345678901 sku_1234567890") None (Some (js "")) None)
     = None.
Proof. vm_compute. repeat split; reflexivity. Qed.

(** ** Normalization of a product payload *)

Import Keepa.






Example parse_sentinels :
  let p := parseKeepaProduct raw_sentinels in
  (salesRank p, amazonPrice p, newPrice p, usedPrice p, newFbaPrice p)
  = (None, None, None, Some 899, None)
  /\ (buyBoxPrice p, rating p, outOfStockPercentage90 p) = (None, None, None)
  /\ (newOfferCount p, usedOfferCount p, fbaOfferCount p, reviewCount p)
     = (0, 4, 0, 0)
  /\ (salesRankDrops30 p, salesRank30DayAvg p, isAmazon p)
     = (Some 2, Some (-1), false).
Proof. vm_compute. repeat split; reflexivity. Qed.

(** *** The estimate of the 30-day drops *)

(** [Math.round(z / 3)] is the third of [z] rounded to the nearest
    integer, half up. *)
Lemma Math_round_third_exact (z : Z) :
  Z.abs z < 2 ^ 50 ->
  Math_round (of_Z z / 3) = Fees.round_half_up z 3.
Proof.
  intros Hz. unfold Fees.round_half_up.
  destruct (Z.eq_dec z 0) as [-> | Hnz]; [vm_compute; reflexivity|].
  destruct (Math_round_third z ltac:(lia)) as (H & m1 & HH & Hb & E).
  rewrite E. unfold signed.
  destruct (Z.ltb_spec z 0) as [Hneg | Hpos].
  - replace (2 * z + 3) with (2 * - Z.abs z + 3) by lia.
    apply nearest_third_negative; [exact HH | lia | exact Hb].
  - replace (2 * z + 3) with (2 * Z.abs z + 3) by lia.
    apply nearest_third_positive; [exact HH | lia | exact Hb].
Qed.

(** X25: [salesRankDrops30] is the 30-day count of the payload when it
    has one, whatever it is; otherwise it is the third of the 90-day
    count rounded to the nearest integer, halves up (7 gives 2, 8 gives
    3), exactly, for every count of magnitude below 2^50; and it is null
    when the payload has neither. *)
Theorem salesRankDrops30_estimate (raw : KeepaProductRaw) :
  (forall d90, chain (stats raw) stats_salesRankDrops90 = Some d90 ->
               Z.abs d90 < 2 ^ 50) ->
  salesRankDrops30 (parseKeepaProduct raw)
  = match chain (stats raw) stats_salesRankDrops30 with
    | Some d30 => Some d30
    | None =>
        match chain (stats raw) stats_salesRankDrops90 with
        | Some d90 => Some ((2 * d90 + 3) / 6)
        | None => None
        end
    end.
Proof.
  intros Hbound. unfold parseKeepaProduct. cbn [salesRankDrops30].
  destruct (chain (stats raw) stats_salesRankDrops30) as [d30|]; [reflexivity|].
  cbn [nullish].
  destruct (chain (stats raw) stats_salesRankDrops90) as [d90|]; [|reflexivity].
  rewrite (Math_round_third_exact d90 (Hbound d90 eq_refl)). reflexivity.
Qed.

Lemma salesRankDrops30_estimate_witness :
  salesRankDrops30 (parseKeepaProduct raw_sentinels) = Some 2.
Proof.
  rewrite (salesRankDrops30_estimate raw_sentinels).
  - reflexivity.
  - intros d90 H. cbn in H. injection H as <-. reflexivity.
Defined.

(** ** The access-token cache *)

Import Token.

(** While a request is in flight and no valid token is cached, a call
    changes nothing and hands out the promise of that request. *)
Lemma call_while_in_flight (s : state) (p : promise_id) (now : Z) :
  tokenFetchPromise s = Some p ->
  cache_valid s now = None ->
  getAccessToken true now s = (Awaiting p, s).
Proof.
  intros Hp Hc. unfold getAccessToken. cbn [negb]. now rewrite Hc, Hp.
Qed.

Lemma calls_while_in_flight (s : state) (p : promise_id) (nows : list Z) :
  tokenFetchPromise s = Some p ->
  (forall now, In now nows -> cache_valid s now = None) ->
  run true (map Call nows) s = (map (fun _ => Awaiting p) nows, s).
Proof.
  intros Hp. induction nows as [|now nows IH]; intros Hc; [reflexivity|].
  cbn [map run step].
  rewrite (call_while_in_flight s p now Hp (Hc now (or_introl eq_refl))).
  rewrite IH by (intros t Ht; apply Hc; now right).
  reflexivity.
Qed.

(** The first call starts the one request. *)
Lemma first_call (s : state) (now : Z) :
  tokenFetchPromise s = None ->
  cache_valid s now = None ->
  getAccessToken true now s
  = (Awaiting (created s),
     {| cachedToken := cachedToken s;
        tokenExpiresAt := tokenExpiresAt s;
        tokenFetchPromise := Some (created s);
        in_flight := Some (created s);
        settled := settled s;
        created := S (created s);
        requests := S (requests s) |}).
Proof.
  intros Hp Hc. unfold getAccessToken. cbn [negb]. now rewrite Hc, Hp.
Qed.

Lemma step_consistent (configured : bool) (e : event) (s : state) :
  consistent s -> consistent (snd (step configured e s)).
Proof.
  intros [Hv Hn]. destruct e as [now | u now]; cbn [step].
  - unfold getAccessToken.
    destruct configured; cbn [negb snd]; [|now split].
    destruct (cache_valid s now) eqn:Hc; cbn [snd]; [now split|].
    destruct (tokenFetchPromise s) as [p|] eqn:Hp; cbn [snd].
    + split; [congruence | exact Hn].
    + split; cbn.
      * reflexivity.
      * rewrite <- Hv in Hn. rewrite Hn. lia.
  - cbn [snd]. unfold resume.
    destruct (in_flight s) as [p|] eqn:Hf.
    + destruct u; split; cbn; try reflexivity; lia.
    + split; [congruence | rewrite Hf; exact Hn].
Qed.

Lemma run_consistent (configured : bool) (es : list event) :
  forall s, consistent s -> consistent (snd (run configured es s)).
Proof.
  induction es as [|e es IH]; intros s Hs; [exact Hs|].
  cbn [run]. pose proof (step_consistent configured e s Hs) as H1.
  destruct (step configured e s) as [hs s1]. cbn [snd] in H1.
  specialize (IH s1 H1). destruct (run configured es s1) as [hs' s2].
  exact IH.
Qed.

Lemma initial_consistent : consistent initial.
Proof. split; reflexivity. Qed.

(** C10: with no valid token cached and no request in flight, any number
    of calls that arrive before the request ends send exactly one token
    request upstream; every caller is handed the promise of that request,
    and when it ends each of them receives its result. In every state a
    schedule can reach, at most one request is in flight. *)
Theorem token_single_flight :
  (forall (s : state) (now : Z) (later : list Z) (u : upstream) (ended : Z),
      tokenFetchPromise s = None ->
      in_flight s = None ->
      (forall t, In t (now :: later) -> cache_valid s t = None) ->
      let calls := run true (map Call (now :: later)) s in
      let s' := resume u ended (snd calls) in
      requests (snd calls) = S (requests s)
      /\ requests s' = S (requests s)
      /\ fst calls = map (fun _ => Awaiting (created s)) (now :: later)
      /\ (forall h, In h (fst calls) -> received h s' = Some (outcome_of u))
      /\ tokenFetchPromise s' = None)
  /\ (forall (configured : bool) (es : list event),
         let s := snd (run configured es initial) in
         tokenFetchPromise s = in_flight s
         /\ (requests s <= S (List.length (settled s)))%nat).
Proof.
  split.
  - intros s now later u ended Hp Hf Hc. cbv zeta.
    cbn [map run step].
    rewrite (first_call s now Hp (Hc now (or_introl eq_refl))).
    set (s1 := {| cachedToken := cachedToken s;
                  tokenExpiresAt := tokenExpiresAt s;
                  tokenFetchPromise := Some (created s);
                  in_flight := Some (created s);
                  settled := settled s;
                  created := S (created s);
                  requests := S (requests s) |}).
    rewrite (calls_while_in_flight s1 (created s) later eq_refl)
      by (intros t Ht; apply (Hc t); now right).
    cbn [fst snd app].
    assert (Hres : lookup (created s) (settled (resume u ended s1))
                   = Some (outcome_of u)
                   /\ requests (resume u ended s1) = S (requests s)
                   /\ tokenFetchPromise (resume u ended s1) = None).
    { unfold resume. cbn [in_flight s1].
      destruct u; cbn [settled lookup requests tokenFetchPromise outcome_of];
        rewrite Nat.eqb_refl; repeat split. }
    destruct Hres as (Hl & Hr & Ht).
    repeat split; try assumption.
    + intros h [<- | Hin]; [exact Hl|].
      apply in_map_iff in Hin as (t & <- & _). exact Hl.
  - intros configured es. cbv zeta.
    destruct (run_consistent configured es initial initial_consistent) as [Hv Hn].
    split; [exact Hv|]. rewrite Hn. destruct (in_flight _); lia.
Qed.

Lemma token_single_flight_witness :
  let calls := run true [Call 0; Call 5; Call 9] initial in
  let s' :=
    resume (TokenResponse (mkToken (js "v^1.1#i^1") 7200 (js "Bearer"))) 40
      (snd calls) in
  requests (snd calls) = 1%nat
  /\ requests s' = 1%nat
  /\ fst calls = [Awaiting 0%nat; Awaiting 0%nat; Awaiting 0%nat]
  /\ (forall h, In h (fst calls) -> received h s' = Some (Fulfilled (js "v^1.1#i^1")))
  /\ tokenFetchPromise s' = None.
Proof.
  apply (proj1 token_single_flight initial 0 [5; 9]
           (TokenResponse (mkToken (js "v^1.1#i^1") 7200 (js "Bearer"))) 40).
  - reflexivity.
  - reflexivity.
  - intros t _. reflexivity.
Defined.

Example token_reused_then_refreshed :
  let t := mkToken (js "v^1.1#i^1") 7200 (js "Bearer") in
  let s1 := resume (TokenResponse t) 40 (snd (run true [Call 0; Call 5] initial)) in
  (* within the validity window, less the five minutes: the cached token *)
  fst (getAccessToken true 6000000 s1) = Returned (js "v^1.1#i^1")
  /\ requests (snd (getAccessToken true 6000000 s1)) = 1%nat
  (* in the last five minutes: a second request *)
  /\ fst (getAccessToken true 7000000 s1) = Awaiting 1%nat
  /\ requests (snd (getAccessToken true 7000000 s1)) = 2%nat
  (* unconfigured: the call throws *)
  /\ fst (getAccessToken false 0 initial) = Threw NotConfigured.
Proof. vm_compute. repeat split; reflexivity. Qed.

(** *** The validity window *)

(** X19: when the token request in flight ends with a token at time
    [ended], every call earlier than five minutes before
    [ended + expires_in * 1000] returns that token at once, sends no
    request and leaves the state as it is; the first call at or after
    that time sends a new request. *)
Theorem token_reused_until_expiry
    (s : state) (p : promise_id) (t : OAuthToken) (ended now : Z) :
  in_flight s = Some p ->
  let s' := resume (TokenResponse t) ended s in
  (now < ended + expires_in t * 1000 - 300000 ->
   getAccessToken true now s' = (Returned (access_token t), s'))
  /\ (ended + expires_in t * 1000 - 300000 <= now ->
      fst (getAccessToken true now s') = Awaiting (created s)
      /\ requests (snd (getAccessToken true now s')) = S (requests s)
      /\ in_flight (snd (getAccessToken true now s')) = Some (created s)).
Proof.
  intros Hf. cbv zeta. unfold resume. rewrite Hf.
  unfold getAccessToken, cache_valid.
  cbn [negb cachedToken tokenExpiresAt tokenFetchPromise created requests].
  split; intros Hnow.
  - apply Z.ltb_lt in Hnow. now rewrite Hnow.
  - apply Z.ltb_ge in Hnow. rewrite Hnow. cbn. repeat split.
Qed.

Lemma token_reused_until_expiry_witness :
  let t := mkToken (js "v^1.1#i^1") 7200 (js "Bearer") in
  let s := snd (getAccessToken true 0 initial) in
  let s' := resume (TokenResponse t) 40 s in
  getAccessToken true 6900039 s' = (Returned (js "v^1.1#i^1"), s')
  /\ fst (getAccessToken true 6900040 s') = Awaiting 1%nat.
Proof.
  cbv zeta.
  destruct (token_reused_until_expiry (snd (getAccessToken true 0 initial)) 0%nat
              (mkToken (js "v^1.1#i^1") 7200 (js "Bearer")) 40 6900039 eq_refl)
    as [Hbefore _].
  destruct (token_reused_until_expiry (snd (getAccessToken true 0 initial)) 0%nat
              (mkToken (js "v^1.1#i^1") 7200 (js "Bearer")) 40 6900040 eq_refl)
    as [_ Hafter].
  split.
  - apply Hbefore. reflexivity.
  - apply Hafter. cbn. discriminate.
Defined.

(** X20: a token request that fails is not remembered: the cached token
    and its expiry stay as they were, the lock is released, the callers
    that were waiting receive the failure, and the next call that finds
    no valid token sends a new request. *)
Theorem token_failure_releases_lock
    (s : state) (p : promise_id) (u : upstream) (ended now : Z) :
  in_flight s = Some p ->
  tokenFetchPromise s = Some p ->
  (forall t, u <> TokenResponse t) ->
  let s' := resume u ended s in
  cachedToken s' = cachedToken s
  /\ tokenExpiresAt s' = tokenExpiresAt s
  /\ tokenFetchPromise s' = None
  /\ received (Awaiting p) s' = Some (outcome_of u)
  /\ (cache_valid s now = None ->
      fst (getAccessToken true now s') = Awaiting (created s)
      /\ requests (snd (getAccessToken true now s')) = S (requests s)).
Proof.
  intros Hf Hp Hu. cbv zeta. unfold resume. rewrite Hf.
  destruct u as [t | status body | e]; [now elim (Hu t) | |];
    cbn [cachedToken tokenExpiresAt tokenFetchPromise received settled lookup
         outcome_of];
    rewrite Nat.eqb_refl; repeat split;
    unfold getAccessToken, cache_valid in *;
    cbn [negb cachedToken tokenExpiresAt tokenFetchPromise created requests] in *;
    rewrite H; reflexivity.
Qed.

Lemma token_failure_releases_lock_witness :
  let s := snd (getAccessToken true 0 initial) in
  let s' := resume (ErrorResponse 401 (js "invalid_client")) 40 s in
  tokenFetchPromise s' = None
  /\ received (Awaiting 0%nat) s' = Some (Failed (OAuthFailed 401 (js "invalid_client")))
  /\ fst (getAccessToken true 50 s') = Awaiting 1%nat.
Proof.
  cbv zeta.
  destruct (token_failure_releases_lock (snd (getAccessToken true 0 initial)) 0%nat
              (ErrorResponse 401 (js "invalid_client")) 40 50 eq_refl eq_refl
              ltac:(intros t; discriminate))
    as (_ & _ & Hlock & Hrecv & Hnext).
  split; [exact Hlock|]. split; [exact Hrecv|].
  exact (proj1 (Hnext eq_refl)).
Defined.

(** ** Equality of strings *)

Import JSString.

Lemma string_eqb_eq (a b : jsstring) : string_eqb a b = true <-> a = b.
Proof.
  revert b. induction a as [|x a IH]; intros [|y b]; cbn [string_eqb];
    try (split; [discriminate | discriminate]); [tauto|].
  rewrite andb_true_iff, Ascii.eqb_eq, IH.
  split; [intros [-> ->]; reflexivity | intros H; injection H; auto].
Qed.

Lemma string_eqb_refl (a : jsstring) : string_eqb a a = true.
Proof. now apply string_eqb_eq. Qed.

Lemma string_eqb_neq (a b : jsstring) : string_eqb a b = false <-> a <> b.
Proof.
  rewrite <- string_eqb_eq. destruct (string_eqb a b); split; congruence.
Qed.

(** ** The item cache *)

Import ItemCache.

Lemma Map_get_set_same (m : cache) (key : jsstring) (v : entry) :
  Map_get (Map_set m key v) key = Some v.
Proof.
  induction m as [|[k v0] m IH]; cbn [Map_set Map_get].
  - now rewrite string_eqb_refl.
  - destruct (string_eqb k key) eqn:E; cbn [Map_get]; rewrite E; [reflexivity | exact IH].
Qed.

Lemma Map_get_set_other (m : cache) (key key' : jsstring) (v : entry) :
  key <> key' -> Map_get (Map_set m key v) key' = Map_get m key'.
Proof.
  intros Hne. induction m as [|[k v0] m IH]; cbn [Map_set Map_get].
  - apply string_eqb_neq in Hne. now rewrite Hne.
  - destruct (string_eqb k key) eqn:E; cbn [Map_get].
    + apply string_eqb_eq in E. subst k.
      apply string_eqb_neq in Hne. now rewrite Hne.
    + now rewrite IH.
Qed.

Lemma Map_get_delete_same (m : cache) (key : jsstring) :
  Map_get (Map_delete m key) key = None.
Proof.
  induction m as [|[k v0] m IH]; cbn [Map_delete Map_get]; [reflexivity|].
  destruct (string_eqb k key) eqn:E; [exact IH|].
  cbn [Map_get]. now rewrite E.
Qed.

Lemma Map_get_delete_other (m : cache) (key key' : jsstring) :
  key <> key' -> Map_get (Map_delete m key) key' = Map_get m key'.
Proof.
  intros Hne. induction m as [|[k v0] m IH]; cbn [Map_delete Map_get]; [reflexivity|].
  destruct (string_eqb k key) eqn:E.
  - apply string_eqb_eq in E. subst k.
    apply string_eqb_neq in Hne. now rewrite Hne.
  - cbn [Map_get]. now rewrite IH.
Qed.

Lemma Map_delete_filter (m : cache) (key : jsstring) :
  Map_delete m key = filter (fun kv => negb (string_eqb (fst kv) key)) m.
Proof.
  induction m as [|[k v0] m IH]; cbn [Map_delete filter fst]; [reflexivity|].
  destruct (string_eqb k key); cbn [negb]; now rewrite IH.
Qed.

Lemma Map_delete_set (m : cache) (key : jsstring) (v : entry) :
  Map_delete (Map_set m key v) key = Map_delete m key.
Proof.
  induction m as [|[k v0] m IH]; cbn [Map_set Map_delete].
  - now rewrite string_eqb_refl.
  - destruct (string_eqb k key) eqn:E; cbn [Map_delete]; rewrite E; [reflexivity|].
    now rewrite IH.
Qed.

Lemma Map_delete_absent (m : cache) (key : jsstring) :
  Map_get m key = None -> Map_delete m key = m.
Proof.
  induction m as [|[k v0] m IH]; cbn [Map_delete Map_get]; [reflexivity|].
  destruct (string_eqb k key); [discriminate|]. intros H. now rewrite IH.
Qed.

Lemma keys_delete (m : cache) (key k : jsstring) :
  In k (map fst (Map_delete m key)) -> In k (map fst m).
Proof.
  rewrite Map_delete_filter, !in_map_iff.
  intros ((k0, v) & E & Hin). apply filter_In in Hin as [Hin _].
  now exists (k0, v).
Qed.

Lemma well_formed_delete (m : cache) (key : jsstring) :
  well_formed m -> well_formed (Map_delete m key).
Proof.
  unfold well_formed.
  induction m as [|[k v0] m IH]; cbn [Map_delete map fst]; intros H; [constructor|].
  inversion H as [|? ? Hnotin Hrest]; subst.
  destruct (string_eqb k key); [now apply IH|].
  cbn [map fst]. constructor; [|now apply IH].
  intros Hin. apply Hnotin. eapply keys_delete, Hin.
Qed.

Lemma keys_set (m : cache) (key k : jsstring) (v : entry) :
  In k (map fst (Map_set m key v)) -> k = key \/ In k (map fst m).
Proof.
  induction m as [|[k0 v0] m IH]; cbn [Map_set map fst].
  - intros [<- | []]. now left.
  - destruct (string_eqb k0 key); cbn [map fst In].
    + intros [<- | H]; right; [now left | now right].
    + intros [<- | H]; [right; now left|].
      destruct (IH H) as [-> | H']; [now left | right; now right].
Qed.

Lemma well_formed_set (m : cache) (key : jsstring) (v : entry) :
  well_formed m -> well_formed (Map_set m key v).
Proof.
  unfold well_formed.
  induction m as [|[k v0] m IH]; cbn [Map_set map fst]; intros H.
  - constructor; [intros [] | constructor].
  - inversion H as [|? ? Hnotin Hrest]; subst.
    destruct (string_eqb k key) eqn:E; cbn [map fst].
    + constructor; assumption.
    + constructor; [|now apply IH].
      intros Hin. apply keys_set in Hin as [-> | Hin]; [|now apply Hnotin].
      now rewrite string_eqb_refl in E.
Qed.

(** X14: an item stored at time [now] is served by every lookup of its
    key earlier than 24 hours after [now], the cache staying as it is; a
    lookup 24 hours after [now] or later is a miss and removes the entry.
    Storing under one key changes no lookup of another key. *)
Theorem cache_store_then_lookup
    (now later : Z) (key : jsstring) (item : json) (itemCache : cache) :
  let stored := setCachedItem now key item itemCache in
  getCachedItem later key stored
  = (if later - now <? 24 * 60 * 60 * 1000 then (item, stored)
     else (JNull, Map_delete itemCache key))
  /\ (forall key', key' <> key ->
        fst (getCachedItem later key' stored)
        = fst (getCachedItem later key' itemCache)).
Proof.
  cbv zeta. unfold getCachedItem, setCachedItem. split.
  - rewrite Map_get_set_same. cbn [timestamp data].
    change CACHE_TTL_MS with (24 * 60 * 60 * 1000).
    destruct (later - now <? 24 * 60 * 60 * 1000); [reflexivity|].
    now rewrite Map_delete_set.
  - intros key' Hne. rewrite Map_get_set_other by congruence.
    destruct (Map_get itemCache key') as [cached|]; [|reflexivity].
    destruct (later - timestamp cached <? CACHE_TTL_MS); reflexivity.
Qed.

Lemma cache_store_then_lookup_witness :
  let stored := setCachedItem 1000 (js "item:1") (JString (js "a")) [] in
  getCachedItem 86400999 (js "item:1") stored = (JString (js "a"), stored)
  /\ getCachedItem 86401000 (js "item:1") stored = (JNull, [])
  /\ fst (getCachedItem 2000 (js "item:2") stored) = JNull.
Proof.
  cbv zeta.
  pose proof (cache_store_then_lookup 1000 86400999 (js "item:1") (JString (js "a")) [])
    as [H1 _].
  pose proof (cache_store_then_lookup 1000 86401000 (js "item:1") (JString (js "a")) [])
    as [H2 _].
  pose proof (cache_store_then_lookup 1000 2000 (js "item:1") (JString (js "a")) [])
    as [_ H3].
  split; [exact H1|]. split; [exact H2|].
  rewrite (H3 (js "item:2")); [reflexivity | discriminate].
Defined.

(** X15: a lookup touches its own key only, and only to remove an
    entry that is 24 hours old or older: the other keys keep their
    entries, a fresh entry stays, the keys stay distinct, and the same
    lookup repeated at the same time gives the same result and changes
    nothing more. *)
Theorem cache_lookup_evicts_locally (now : Z) (key : jsstring) (itemCache : cache) :
  let result := fst (getCachedItem now key itemCache) in
  let after := snd (getCachedItem now key itemCache) in
  (forall key', key' <> key -> Map_get after key' = Map_get itemCache key')
  /\ Map_get after key
     = match Map_get itemCache key with
       | Some cached =>
           if now - timestamp cached <? 24 * 60 * 60 * 1000
           then Some cached else None
       | None => None
       end
  /\ getCachedItem now key after = (result, after)
  /\ (well_formed itemCache -> well_formed after).
Proof.
  cbv zeta. unfold getCachedItem.
  change CACHE_TTL_MS with (24 * 60 * 60 * 1000).
  destruct (Map_get itemCache key) as [cached|] eqn:Eg.
  - destruct (now - timestamp cached <? 24 * 60 * 60 * 1000) eqn:Et;
      cbn [fst snd].
    + rewrite Eg, Et. repeat split; auto.
    + rewrite Map_get_delete_same. repeat split.
      * intros key' Hne. apply Map_get_delete_other. congruence.
      * apply well_formed_delete.
  - cbn [fst snd]. rewrite Eg. repeat split; auto.
Qed.

Lemma cache_lookup_evicts_locally_witness :
  let itemCache :=
    [(js "item:1", mkEntry (JString (js "a")) 0);
     (js "item:2", mkEntry (JString (js "b")) 50000000)] in
  Map_get (snd (getCachedItem 90000000 (js "item:1") itemCache)) (js "item:2")
  = Some (mkEntry (JString (js "b")) 50000000)
  /\ Map_get (snd (getCachedItem 90000000 (js "item:1") itemCache)) (js "item:1")
     = None.
Proof.
  cbv zeta.
  destruct (cache_lookup_evicts_locally 90000000 (js "item:1")
              [(js "item:1", mkEntry (JString (js "a")) 0);
               (js "item:2", mkEntry (JString (js "b")) 50000000)])
    as (Hother & Hsame & _).
  split.
  - rewrite (Hother (js "item:2")); [reflexivity | discriminate].
  - rewrite Hsame. reflexivity.
Defined.

Lemma fold_delete_filter (keys : list jsstring) (m : cache) :
  fold_left Map_delete keys m
  = filter (fun kv => negb (existsb (string_eqb (fst kv)) keys)) m.
Proof.
  revert m. induction keys as [|k keys IH]; intros m; cbn [fold_left].
  - symmetry. apply forallb_filter_id, forallb_forall. intros kv _. reflexivity.
  - rewrite IH, Map_delete_filter.
    induction m as [|kv m IHm]; cbn [filter existsb]; [reflexivity|].
    destruct (string_eqb (fst kv) k); cbn [negb orb filter]; [exact IHm|].
    destruct (existsb (string_eqb (fst kv)) keys); cbn [negb]; now rewrite IHm.
Qed.

Lemma well_formed_fold_delete (keys : list jsstring) (m : cache) :
  well_formed m -> well_formed (fold_left Map_delete keys m).
Proof.
  revert m. induction keys as [|k keys IH]; intros m Hwf; cbn [fold_left];
    [exact Hwf|].
  apply IH. now apply well_formed_delete.
Qed.

Lemma filter_ext_in_cache (f g : jsstring * entry -> bool) (m : cache) :
  (forall kv, In kv m -> f kv = g kv) -> filter f m = filter g m.
Proof.
  induction m as [|kv m IH]; intros H; cbn [filter]; [reflexivity|].
  rewrite (H kv (or_introl eq_refl)), IH; [reflexivity|].
  intros kv' Hin. apply H. now right.
Qed.

Lemma well_formed_unique (m : cache) (k : jsstring) (v v' : entry) :
  well_formed m -> In (k, v) m -> In (k, v') m -> v = v'.
Proof.
  unfold well_formed.
  induction m as [|[k0 v0] m IH]; cbn [map fst]; intros Hwf H1 H2; [destruct H1|].
  inversion Hwf as [|? ? Hnotin Hrest]; subst.
  destruct H1 as [E1 | H1], H2 as [E2 | H2].
  - congruence.
  - injection E1 as -> ->. exfalso. apply Hnotin.
    apply in_map_iff. now exists (k, v').
  - injection E2 as -> ->. exfalso. apply Hnotin.
    apply in_map_iff. now exists (k, v).
  - now apply IH.
Qed.

Lemma cleanupCache_filter (now : Z) (m : cache) :
  well_formed m ->
  cleanupCache now m = filter (fun kv => negb (expired now (snd kv))) m.
Proof.
  intros Hwf. unfold cleanupCache. rewrite fold_delete_filter.
  apply filter_ext_in_cache. intros [k v] Hin. cbn [fst snd]. f_equal.
  destruct (expired now v) eqn:Ev.
  - apply existsb_exists. exists k. split; [|apply string_eqb_refl].
    apply in_map_iff. exists (k, v). split; [reflexivity|].
    apply filter_In. now split.
  - destruct (existsb (string_eqb k) _) eqn:Ee; [|reflexivity].
    apply existsb_exists in Ee as (k' & Hk' & E).
    apply string_eqb_eq in E. subst k'.
    apply in_map_iff in Hk' as ((k', v') & E & Hf). cbn [fst] in E. subst k'.
    apply filter_In in Hf as [Hin' Hexp]. cbn [snd] in Hexp.
    rewrite (well_formed_unique m k v v' Hwf Hin Hin') in Ev. congruence.
Qed.

Lemma Map_get_In (m : cache) (k : jsstring) (v : entry) :
  Map_get m k = Some v -> In (k, v) m.
Proof.
  induction m as [|[k0 v0] m IH]; cbn [Map_get]; [discriminate|].
  destruct (string_eqb k0 k) eqn:E.
  - apply string_eqb_eq in E. intros H. injection H as ->. subst. now left.
  - intros H. right. now apply IH.
Qed.

Lemma Map_get_filter (f : entry -> bool) (m : cache) (k : jsstring) :
  well_formed m ->
  Map_get (filter (fun kv => f (snd kv)) m) k
  = match Map_get m k with
    | Some v => if f v then Some v else None
    | None => None
    end.
Proof.
  unfold well_formed.
  induction m as [|[k0 v0] m IH]; cbn [Map_get filter map fst snd]; intros Hwf;
    [reflexivity|].
  inversion Hwf as [|? ? Hnotin Hrest]; subst.
  destruct (string_eqb k0 k) eqn:E.
  - destruct (f v0); cbn [Map_get]; [now rewrite E|].
    rewrite (IH Hrest).
    destruct (Map_get m k) as [v|] eqn:Eg; [|reflexivity].
    exfalso. apply Hnotin. apply string_eqb_eq in E. subst k0.
    apply in_map_iff. exists (k, v). split; [reflexivity | now apply Map_get_In].
  - destruct (f v0); cbn [Map_get]; [rewrite E|]; exact (IH Hrest).
Qed.

(** X16: [cleanupCache] keeps exactly the entries younger than 24 hours,
    in their order, and removes the others; after it every entry is
    fresh, the keys are still distinct, and no lookup made at that time
    has another result than without the cleanup. *)
Theorem cleanupCache_removes_expired (now : Z) (itemCache : cache) :
  well_formed itemCache ->
  let cleaned := cleanupCache now itemCache in
  cleaned
  = filter (fun kv => now - timestamp (snd kv) <? 24 * 60 * 60 * 1000) itemCache
  /\ well_formed cleaned
  /\ (forall key,
         fst (getCachedItem now key cleaned)
         = fst (getCachedItem now key itemCache)).
Proof.
  intros Hwf. cbv zeta.
  assert (E : cleanupCache now itemCache
              = filter (fun kv => now - timestamp (snd kv) <? 24 * 60 * 60 * 1000)
                  itemCache).
  { rewrite (cleanupCache_filter now itemCache Hwf).
    apply filter_ext_in_cache. intros kv _. unfold expired.
    change CACHE_TTL_MS with (24 * 60 * 60 * 1000).
    destruct (Z.leb_spec (24 * 60 * 60 * 1000) (now - timestamp (snd kv)));
      destruct (Z.ltb_spec (now - timestamp (snd kv)) (24 * 60 * 60 * 1000));
      first [ reflexivity | lia ]. }
  split; [exact E|]. split.
  - apply well_formed_fold_delete, Hwf.
  - intros key. rewrite E. unfold getCachedItem.
    rewrite (Map_get_filter
               (fun v => now - timestamp v <? 24 * 60 * 60 * 1000) itemCache key Hwf).
    change CACHE_TTL_MS with (24 * 60 * 60 * 1000).
    destruct (Map_get itemCache key) as [v|]; [|reflexivity].
    destruct (now - timestamp v <? 24 * 60 * 60 * 1000) eqn:Et; cbn [fst].
    + now rewrite Et.
    + reflexivity.
Qed.

Lemma cleanupCache_removes_expired_witness :
  let itemCache :=
    [(js "item:1", mkEntry (JString (js "a")) 0);
     (js "item:2", mkEntry (JString (js "b")) 50000000)] in
  well_formed itemCache
  /\ cleanupCache 90000000 itemCache
     = [(js "item:2", mkEntry (JString (js "b")) 50000000)].
Proof.
  cbv zeta.
  assert (Hwf : well_formed
                  [(js "item:1", mkEntry (JString (js "a")) 0);
                   (js "item:2", mkEntry (JString (js "b")) 50000000)]).
  { unfold well_formed. cbn [map fst]. constructor.
    - intros [H | []]. discriminate H.
    - constructor; [intros [] | constructor]. }
  split; [exact Hwf|].
  rewrite (proj1 (cleanupCache_removes_expired 90000000 _ Hwf)). reflexivity.
Defined.

Example truthy_samples :
  map truthy [JNull; JBool false; JNumber 0; JNumber nan; JString []]
  = [false; false; false; false; false]
  /\ map truthy [JBool true; JNumber 1; JString (js "0"); JArray []; JObject []]
     = [true; true; true; true; true].
Proof. vm_compute. split; reflexivity. Qed.

Example ok_samples :
  map (fun status => ok (Retry.mkResponse status None []))
    [199; 200; 204; 299; 300; 404]
  = [false; true; true; true; false; false].
Proof. vm_compute. reflexivity. Qed.

Example cacheKey_sample : cacheKey_of (js "v1|42|0") = js "item:v1|42|0".
Proof. reflexivity. Qed.

(** *** Operations of overlapping calls *)

Lemma Map_get_fold_delete (keys : list jsstring) (m : cache) (key : jsstring) :
  Map_get (fold_left Map_delete keys m) key
  = if existsb (string_eqb key) keys then None else Map_get m key.
Proof.
  revert m. induction keys as [|k keys IH]; intros m; cbn [fold_left existsb];
    [reflexivity|].
  rewrite IH. destruct (string_eqb key k) eqn:E; cbn [orb].
  - apply string_eqb_eq in E. subst k. rewrite Map_get_delete_same.
    now destruct (existsb (string_eqb key) keys).
  - apply string_eqb_neq in E. rewrite Map_get_delete_other by congruence.
    reflexivity.
Qed.

Lemma Map_get_lookup_other (now : Z) (key key' : jsstring) (m : cache) :
  key <> key' -> Map_get (snd (getCachedItem now key m)) key' = Map_get m key'.
Proof.
  intros Hne. unfold getCachedItem.
  destruct (Map_get m key) as [cached|]; [|reflexivity].
  destruct (now - timestamp cached <? CACHE_TTL_MS); cbn [snd]; [reflexivity|].
  now apply Map_get_delete_other.
Qed.

Lemma Map_get_lookup_same (now : Z) (key : jsstring) (m : cache) :
  Map_get (snd (getCachedItem now key m)) key
  = match Map_get m key with
    | Some cached =>
        if now - timestamp cached <? CACHE_TTL_MS then Some cached else None
    | None => None
    end.
Proof.
  unfold getCachedItem.
  destruct (Map_get m key) as [cached|] eqn:Eg; cbn [snd]; [|exact Eg].
  destruct (now - timestamp cached <? CACHE_TTL_MS); cbn [snd]; [exact Eg|].
  apply Map_get_delete_same.
Qed.

Lemma well_formed_lookup (now : Z) (key : jsstring) (m : cache) :
  well_formed m -> well_formed (snd (getCachedItem now key m)).
Proof.
  intros Hwf. unfold getCachedItem.
  destruct (Map_get m key) as [cached|]; [|exact Hwf].
  destruct (now - timestamp cached <? CACHE_TTL_MS); cbn [snd]; [exact Hwf|].
  now apply well_formed_delete.
Qed.

Lemma well_formed_perform (m : cache) (op : operation) :
  well_formed m -> well_formed (perform m op).
Proof.
  intros Hwf. destruct op as [now key | now key item | now]; cbn [perform].
  - now apply well_formed_lookup.
  - now apply well_formed_set.
  - now apply well_formed_fold_delete.
Qed.

Lemma well_formed_interleave (ops : list operation) (m : cache) :
  well_formed m -> well_formed (interleave ops m).
Proof.
  revert m. induction ops as [|op ops IH]; intros m Hwf; [exact Hwf|].
  apply IH. now apply well_formed_perform.
Qed.

(** An entry that no operation finds expired is replaced by an entry
    that is not older, or stays. *)
Lemma perform_keeps_fresh
    (key : jsstring) (since until : Z) (op : operation) (m : cache) (e : entry) :
  well_formed m ->
  Map_get m key = Some e ->
  since <= timestamp e ->
  since <= time_of op <= until ->
  until - since < CACHE_TTL_MS ->
  exists e',
    Map_get (perform m op) key = Some e'
    /\ since <= timestamp e'
    /\ data e' = match stored_under key op with
                 | Some item => item
                 | None => data e
                 end.
Proof.
  intros Hwf Hget Hsince Htime Hfresh.
  destruct op as [now k | now k item | now]; cbn [perform stored_under time_of] in *.
  - exists e. split; [|now split].
    destruct (string_eqb k key) eqn:E.
    + apply string_eqb_eq in E. subst k.
      rewrite Map_get_lookup_same, Hget.
      assert (Ht : (now - timestamp e <? CACHE_TTL_MS) = true)
        by (apply Z.ltb_lt; lia).
      now rewrite Ht.
    + apply string_eqb_neq in E. now rewrite Map_get_lookup_other.
  - destruct (string_eqb k key) eqn:E.
    + apply string_eqb_eq in E. subst k.
      exists {| data := item; timestamp := now |}. unfold setCachedItem.
      rewrite Map_get_set_same. cbn [timestamp data]. repeat split; lia.
    + apply string_eqb_neq in E. exists e. unfold setCachedItem.
      rewrite Map_get_set_other by exact E. now repeat split.
  - exists e. split; [|now split].
    unfold cleanupCache. rewrite Map_get_fold_delete.
    destruct (existsb _ _) eqn:Ee; [|exact Hget].
    exfalso. apply existsb_exists in Ee as (k & Hk & E).
    apply string_eqb_eq in E. subst k.
    apply in_map_iff in Hk as ((k, v) & Ek & Hf). cbn [fst] in Ek. subst k.
    apply filter_In in Hf as [Hin Hexp]. cbn [snd] in Hexp.
    rewrite (well_formed_unique m key v e Hwf Hin (Map_get_In _ _ _ Hget)) in Hexp.
    unfold expired in Hexp. apply Z.leb_le in Hexp. lia.
Qed.

Lemma interleave_keeps_fresh
    (key : jsstring) (since until : Z) (ops : list operation) :
  until - since < CACHE_TTL_MS ->
  Forall (fun op => since <= time_of op <= until) ops ->
  forall (m : cache) (e : entry),
    well_formed m ->
    Map_get m key = Some e ->
    since <= timestamp e ->
    exists e',
      Map_get (interleave ops m) key = Some e'
      /\ since <= timestamp e'
      /\ data e' = last_stored key ops (data e).
Proof.
  intros Hfresh Htimes.
  induction Htimes as [|op ops Hop _ IH]; intros m e Hwf Hget Hsince.
  - exists e. now repeat split.
  - destruct (perform_keeps_fresh key since until op m e Hwf Hget Hsince Hop Hfresh)
      as (e1 & Hget1 & Hsince1 & Hdata1).
    destruct (IH (perform m op) e1 (well_formed_perform m op Hwf) Hget1 Hsince1)
      as (e' & Hget' & Hsince' & Hdata').
    exists e'. split; [exact Hget' | split; [exact Hsince'|]].
    rewrite Hdata'. unfold last_stored. cbn [fold_left]. now rewrite Hdata1.
Qed.

(** The item stored last is the item given or one of the items stored. *)
Lemma last_stored_truthy (key : jsstring) (ops : list operation) :
  Forall (fun op => forall item, stored_under key op = Some item ->
                                 truthy item = true) ops ->
  forall item, truthy item = true -> truthy (last_stored key ops item) = true.
Proof.
  intros Hops. induction Hops as [|op ops Hop _ IH]; intros item Hitem;
    [exact Hitem|].
  unfold last_stored. cbn [fold_left]. apply IH.
  destruct (stored_under key op) as [d|]; [now apply Hop | exact Hitem].
Qed.

(** Where a lookup misses, it goes on missing as long as nothing is
    stored under the key. *)
Lemma perform_keeps_miss (key : jsstring) (op : operation) (m : cache) :
  stored_under key op = None ->
  match Map_get m key with
  | Some e => truthy (data e) = false
  | None => True
  end ->
  match Map_get (perform m op) key with
  | Some e => truthy (data e) = false
  | None => True
  end.
Proof.
  intros Hop Hmiss.
  destruct op as [now k | now k item | now]; cbn [perform stored_under] in *.
  - destruct (string_eqb k key) eqn:E.
    + apply string_eqb_eq in E. subst k. rewrite Map_get_lookup_same.
      destruct (Map_get m key) as [e|]; [|exact I].
      now destruct (now - timestamp e <? CACHE_TTL_MS).
    + apply string_eqb_neq in E. now rewrite Map_get_lookup_other.
  - destruct (string_eqb k key) eqn:E; [discriminate Hop|].
    apply string_eqb_neq in E. unfold setCachedItem.
    now rewrite Map_get_set_other.
  - unfold cleanupCache. rewrite Map_get_fold_delete.
    now destruct (existsb _ _).
Qed.

Lemma interleave_keeps_miss (key : jsstring) (ops : list operation) :
  Forall (fun op => stored_under key op = None) ops ->
  forall m : cache,
    match Map_get m key with
    | Some e => truthy (data e) = false
    | None => True
    end ->
    match Map_get (interleave ops m) key with
    | Some e => truthy (data e) = false
    | None => True
    end.
Proof.
  intros Hops. induction Hops as [|op ops Hop _ IH]; intros m Hmiss;
    [exact Hmiss|].
  apply IH. now apply perform_keeps_miss.
Qed.

Lemma lookup_leaves_miss (now : Z) (key : jsstring) (m : cache) :
  truthy (fst (getCachedItem now key m)) = false ->
  match Map_get (snd (getCachedItem now key m)) key with
  | Some e => truthy (data e) = false
  | None => True
  end.
Proof.
  rewrite Map_get_lookup_same. unfold getCachedItem.
  destruct (Map_get m key) as [e|]; [|intros _; exact I].
  destruct (now - timestamp e <? CACHE_TTL_MS); cbn [fst]; [tauto | intros _; exact I].
Qed.

Lemma miss_is_falsy (now : Z) (key : jsstring) (m : cache) :
  match Map_get m key with
  | Some e => truthy (data e) = false
  | None => True
  end ->
  truthy (fst (getCachedItem now key m)) = false.
Proof.
  unfold getCachedItem. destruct (Map_get m key) as [e|]; [|reflexivity].
  destruct (now - timestamp e <? CACHE_TTL_MS); cbn [fst]; [tauto | reflexivity].
Qed.

(** *** [getEbayItem] *)

Section GetEbayItemFacts.

Variable parse : jsstring -> option json.

Lemma getEbayItem_hit
    (itemId : jsstring) (now later : Z) (token : Token.settlement)
    (net : Retry.transport) (others : list operation)
    (itemCache : cache) (cached : entry) :
  Map_get itemCache (cacheKey_of itemId) = Some cached ->
  now - timestamp cached < 24 * 60 * 60 * 1000 ->
  truthy (data cached) = true ->
  getEbayItem parse itemId now token net later others itemCache
  = (Resolved (data cached), [], itemCache).
Proof.
  intros Hget Hfresh Htruthy. unfold getEbayItem, getCachedItem.
  rewrite Hget. apply Z.ltb_lt in Hfresh.
  change CACHE_TTL_MS with (24 * 60 * 60 * 1000). rewrite Hfresh, Htruthy.
  reflexivity.
Qed.

(** What a call that went upstream and resolved with an item has
    stored. *)
Lemma getEbayItem_stored
    (itemId : jsstring) (now later : Z) (token : Token.settlement)
    (net : Retry.transport) (others : list operation) (itemCache : cache)
    (item : json) (events : list Retry.event) (after : cache) :
  getEbayItem parse itemId now token net later others itemCache
  = (Resolved item, events, after) ->
  events <> [] ->
  truthy item = true ->
  after
  = setCachedItem later (cacheKey_of itemId) item
      (interleave others (snd (getCachedItem now (cacheKey_of itemId) itemCache))).
Proof.
  intros Hcall Hevents Htruthy. unfold getEbayItem in Hcall.
  destruct (getCachedItem now (cacheKey_of itemId) itemCache) as [c m].
  cbn [snd].
  destruct (truthy c); [injection Hcall as _ <- _; now elim Hevents|].
  destruct token as [accessToken | e];
    [|injection Hcall as _ <- _; now elim Hevents].
  destruct (Retry.fetchWithRetry _ _ net) as [evs [response | e]];
    [|discriminate Hcall].
  destruct (negb (ok response)).
  - destruct (Retry.status response =? 404); [|discriminate Hcall].
    injection Hcall as <- _ _. discriminate Htruthy.
  - destruct (parse (Retry.payload response)) as [it|]; [|discriminate Hcall].
    now injection Hcall as -> _ <-.
Qed.

(** X17: when a call of [getEbayItem] has gone upstream and stored a
    truthy item at time [later], a call for the same item that starts
    after the store, earlier than 24 hours after [later], makes no call
    upstream and needs no token, whatever the other calls have done to
    the cache in between ([between], with a clock that does not go back,
    and storing truthy items under this key if any): it resolves from the
    cache, with the item stored last under the key, which is the item of
    the first call if no other call stored one. *)
Theorem getEbayItem_second_lookup_is_cached
    (itemId : jsstring) (now later : Z) (token : Token.settlement)
    (net : Retry.transport) (others : list operation) (itemCache : cache)
    (item : json) (events : list Retry.event) (after : cache)
    (between : list operation)
    (now' later' : Z) (token' : Token.settlement) (net' : Retry.transport)
    (others' : list operation) :
  well_formed itemCache ->
  getEbayItem parse itemId now token net later others itemCache
  = (Resolved item, events, after) ->
  events <> [] ->
  truthy item = true ->
  Forall (fun op => later <= time_of op <= now') between ->
  Forall (fun op => forall stored,
              stored_under (cacheKey_of itemId) op = Some stored ->
              truthy stored = true) between ->
  now' - later < 24 * 60 * 60 * 1000 ->
  getEbayItem parse itemId now' token' net' later' others'
    (interleave between after)
  = (Resolved (last_stored (cacheKey_of itemId) between item), [],
     interleave between after)
  /\ (Forall (fun op => stored_under (cacheKey_of itemId) op = None) between ->
      last_stored (cacheKey_of itemId) between item = item).
Proof.
  intros Hwf Hcall Hevents Htruthy Htimes Hstores Hfresh.
  pose proof (getEbayItem_stored _ _ _ _ _ _ _ _ _ _ Hcall Hevents Htruthy)
    as Hafter.
  assert (Hwf' : well_formed after).
  { rewrite Hafter. apply well_formed_set, well_formed_interleave,
      well_formed_lookup, Hwf. }
  assert (Hget : Map_get after (cacheKey_of itemId)
                 = Some {| data := item; timestamp := later |}).
  { rewrite Hafter. apply Map_get_set_same. }
  destruct (interleave_keeps_fresh (cacheKey_of itemId) later now' between
              Hfresh Htimes after _ Hwf' Hget (Z.le_refl _))
    as (e' & Hget' & Hsince' & Hdata').
  cbn [data] in Hdata'. split.
  - rewrite <- Hdata'.
    apply (getEbayItem_hit itemId now' later' token' net' others' _ e' Hget').
    + change CACHE_TTL_MS with (24 * 60 * 60 * 1000) in Hfresh. lia.
    + rewrite Hdata'. now apply last_stored_truthy.
  - intros Hnone. clear -Hnone. revert item.
    induction Hnone as [|op ops Hop _ IH]; intros item; [reflexivity|].
    unfold last_stored in *. cbn [fold_left]. rewrite Hop. apply IH.
Qed.

(** X18: a call of [getEbayItem] that rejects, or that gets a 404 and
    resolves with null, writes nothing to the cache: when it settles the
    cache is what its lookup left, changed by the other calls only. If
    none of these, and no call after them, stores an item under the key,
    every following call for the same item that has a token goes
    upstream again with at least one call. *)
Theorem getEbayItem_failure_stores_nothing
    (itemId : jsstring) (now later : Z) (token : Token.settlement)
    (net : Retry.transport) (others : list operation) (itemCache : cache)
    (out : outcome) (events : list Retry.event) (after : cache) :
  getEbayItem parse itemId now token net later others itemCache
  = (out, events, after) ->
  (exists e, out = RejectedWith e)
  \/ (events <> []
      /\ exists response,
           snd (Retry.fetchWithRetry Retry.RATE_LIMIT_CONFIG (js "eBay Get Item") net)
           = Retry.Return response
           /\ Retry.status response = 404) ->
  after
  = interleave others (snd (getCachedItem now (cacheKey_of itemId) itemCache))
  /\ forall (between : list operation) (now' later' : Z) (accessToken : jsstring)
            (net' : Retry.transport) (others' : list operation),
      Forall (fun op => stored_under (cacheKey_of itemId) op = None)
        (others ++ between) ->
      (1 <= Retry.calls
              (snd (fst (getEbayItem parse itemId now' (Token.Fulfilled accessToken)
                           net' later' others' (interleave between after)))))%nat.
Proof.
  intros Hcall Hfail.
  assert (H : after
              = interleave others
                  (snd (getCachedItem now (cacheKey_of itemId) itemCache))
              /\ truthy (fst (getCachedItem now (cacheKey_of itemId) itemCache))
                 = false).
  { unfold getEbayItem in Hcall.
    destruct (getCachedItem now (cacheKey_of itemId) itemCache) as [c m].
    cbn [fst snd].
    destruct (truthy c) eqn:Ec.
    - injection Hcall as <- <- <-.
      destruct Hfail as [[e He] | [Hev _]]; [discriminate He | now elim Hev].
    - split; [|reflexivity].
      destruct token as [accessToken | e]; [|now injection Hcall as _ _ <-].
      destruct (Retry.fetchWithRetry _ _ net) as [evs [response | e]];
        [|now injection Hcall as _ _ <-].
      destruct (negb (ok response)) eqn:Eok.
      + destruct (Retry.status response =? 404); now injection Hcall as _ _ <-.
      + destruct (parse (Retry.payload response)) as [it|];
          [|now injection Hcall as _ _ <-].
        exfalso. injection Hcall as <- _ _.
        destruct Hfail as [[e He] | [_ (r & Hr & H404)]]; [discriminate He|].
        cbn [snd] in Hr. injection Hr as <-.
        unfold ok in Eok. rewrite H404 in Eok. discriminate Eok. }
  destruct H as [Hafter Hmiss]. split; [exact Hafter|].
  intros between now' later' accessToken net' others' Hnone.
  apply Forall_app in Hnone as [Hothers Hbetween].
  assert (Hmiss' : truthy (fst (getCachedItem now' (cacheKey_of itemId)
                                  (interleave between after))) = false).
  { apply miss_is_falsy, interleave_keeps_miss; [exact Hbetween|].
    rewrite Hafter. apply interleave_keeps_miss; [exact Hothers|].
    now apply lookup_leaves_miss. }
  unfold getEbayItem.
  destruct (getCachedItem now' (cacheKey_of itemId) (interleave between after))
    as [c m].
  cbn [fst] in Hmiss'. rewrite Hmiss'.
  pose proof (rate_limit_run_shape (js "eBay Get Item") net') as (Hc & _).
  destruct (Retry.fetchWithRetry _ _ net') as [evs [response | e]];
    cbn [fst snd] in *.
  - destruct (negb (ok response)).
    + destruct (Retry.status response =? 404); cbn [fst snd]; lia.
    + destruct (parse (Retry.payload response)); cbn [fst snd]; lia.
  - lia.
Qed.

End GetEbayItemFacts.

(** A sample parser for the samples below: the body is taken as a JSON
    string. Another call stores a different item under the key while the
    first call waits, and is overwritten; between the two calls a third
    one looks the key up, a fourth stores another item, and the cache is
    cleaned. *)
Lemma getEbayItem_second_lookup_is_cached_witness :
  let parse := fun body : jsstring => Some (JString body) in
  let net := fun _ : nat => Retry.Responded (Retry.mkResponse 200 None (js "book")) in
  let others := [Store 1200 (js "item:v1|42|0") (JString (js "other"))] in
  let between :=
    [Lookup 2000 (js "item:v1|42|0");
     Store 3000 (js "item:v1|7|0") (JString (js "map"));
     Cleanup 86401000] in
  let first :=
    getEbayItem parse (js "v1|42|0") 1000 (Token.Fulfilled (js "t")) net 1500
      others [] in
  fst first = (Resolved (JString (js "book")), [Retry.Fetch])
  /\ getEbayItem parse (js "v1|42|0") 86401499
       (Token.Failed Token.NotConfigured) net 86401600 []
       (interleave between (snd first))
     = (Resolved (JString (js "book")), [], interleave between (snd first)).
Proof.
  cbv zeta. split; [reflexivity|].
  refine (proj1 (getEbayItem_second_lookup_is_cached
                   (fun body : jsstring => Some (JString body)) (js "v1|42|0")
                   1000 1500 (Token.Fulfilled (js "t"))
                   (fun _ : nat =>
                      Retry.Responded (Retry.mkResponse 200 None (js "book")))
                   [Store 1200 (js "item:v1|42|0") (JString (js "other"))] []
                   (JString (js "book")) [Retry.Fetch] _
                   [Lookup 2000 (js "item:v1|42|0");
                    Store 3000 (js "item:v1|7|0") (JString (js "map"));
                    Cleanup 86401000]
                   86401499 86401600 (Token.Failed Token.NotConfigured) _ []
                   _ eq_refl _ eq_refl _ _ eq_refl)).
  - constructor.
  - discriminate.
  - repeat constructor; cbn [time_of]; lia.
  - repeat constructor; intros stored H; discriminate H.
Defined.

Lemma getEbayItem_failure_stores_nothing_witness :
  let parse := fun body : jsstring => Some (JString body) in
  let gone := fun _ : nat => Retry.Responded (Retry.mkResponse 404 None (js "")) in
  let others := [Store 1200 (js "item:v1|7|0") (JString (js "map"))] in
  let left := [(js "item:v1|7|0", mkEntry (JString (js "map")) 1200)] in
  getEbayItem parse (js "v1|42|0") 1000 (Token.Fulfilled (js "t")) gone 1500
    others []
  = (Resolved JNull, [Retry.Fetch], left)
  /\ (1 <= Retry.calls
             (snd (fst (getEbayItem parse (js "v1|42|0") 2000
                          (Token.Fulfilled (js "t")) gone 2500 []
                          (interleave [Cleanup 1800] left)))))%nat.
Proof.
  cbv zeta. split; [reflexivity|].
  refine (proj2 (getEbayItem_failure_stores_nothing
                   (fun body : jsstring => Some (JString body)) (js "v1|42|0")
                   1000 1500 (Token.Fulfilled (js "t"))
                   (fun _ : nat => Retry.Responded (Retry.mkResponse 404 None (js "")))
                   [Store 1200 (js "item:v1|7|0") (JString (js "map"))] []
                   (Resolved JNull) [Retry.Fetch]
                   [(js "item:v1|7|0", mkEntry (JString (js "map")) 1200)]
                   eq_refl _)
            [Cleanup 1800] 2000 2500 (js "t") _ [] _).
  - right. split; [discriminate|].
    eexists. split; reflexivity.
  - repeat constructor.
Defined.

(** ** Days with sales *)

Import DaysWithSales.

Lemma Set_add_In (s : list jsstring) (key k : jsstring) :
  In k (Set_add s key) <-> k = key \/ In k s.
Proof.
  unfold Set_add. destruct (existsb (string_eqb key) s) eqn:E.
  - split; [now right|]. intros [-> | H]; [|exact H].
    apply existsb_exists in E as (x & Hx & Ex).
    apply string_eqb_eq in Ex. now subst x.
  - rewrite in_app_iff. cbn [In]. split.
    + intros [H | [<- | []]]; [now right | now left].
    + intros [-> | H]; [right; now left | now left].
Qed.

Lemma Set_add_NoDup (s : list jsstring) (key : jsstring) :
  NoDup s -> NoDup (Set_add s key).
Proof.
  intros Hs. unfold Set_add. destruct (existsb (string_eqb key) s) eqn:E; [exact Hs|].
  assert (Hnot : ~ In key s).
  { intros Hin. assert (existsb (string_eqb key) s = true); [|congruence].
    apply existsb_exists. exists key. split; [exact Hin | apply string_eqb_refl]. }
  clear E. induction Hs as [|x s Hx Hs IH]; cbn [app].
  - constructor; [intros [] | constructor].
  - constructor.
    + rewrite in_app_iff. cbn [In]. intros [H | [<- | []]]; [now apply Hx|].
      apply Hnot. now left.
    + apply IH. intros H. apply Hnot. now right.
Qed.

Lemma Set_add_length (s : list jsstring) (key : jsstring) :
  (List.length (Set_add s key) <= S (List.length s))%nat.
Proof.
  unfold Set_add. destruct (existsb (string_eqb key) s); [lia|].
  rewrite length_app. cbn. lia.
Qed.

Section DaysFacts.

Variable dayKey : Z -> jsstring.

Lemma visit_simulates (cutoffNarrow cutoffWide keepaTime rank : Z)
    (narrow wide : loop_state) :
  cutoffWide <= cutoffNarrow ->
  simulates narrow wide ->
  simulates (visit dayKey cutoffNarrow keepaTime rank narrow)
            (visit dayKey cutoffWide keepaTime rank wide).
Proof.
  intros Hcut (Hincl & Hprev & Hn & Hw). unfold visit. cbv zeta.
  set (timestamp := (keepaTime + 21564000) * 60000).
  destruct (Z.ltb_spec timestamp cutoffWide) as [HtW | HtW].
  - (* before both cutoffs *)
    destruct (Z.ltb_spec timestamp cutoffNarrow) as [_ | HtN]; [|lia].
    repeat split; cbn [daysWithDrops prevRank]; auto.
  - destruct (Z.ltb_spec timestamp cutoffNarrow) as [HtN | HtN].
    + (* between the cutoffs *)
      destruct (Z.ltb_spec rank 0) as [Hneg | Hpos].
      * destruct (Z.ltb_spec 0 rank); [lia|].
        repeat split; cbn [daysWithDrops prevRank]; auto.
      * repeat split; cbn [daysWithDrops prevRank]; auto.
        -- destruct (prevRank wide) as [prev|]; [|exact Hincl].
           destruct (rank <? prev); [|exact Hincl].
           intros k Hk. apply Set_add_In. right. now apply Hincl.
        -- destruct (Z.ltb_spec 0 rank); [now right | now left].
        -- destruct (prevRank wide) as [prev|]; [|exact Hw].
           destruct (rank <? prev); [|exact Hw]. now apply Set_add_NoDup.
    + (* inside both windows *)
      destruct (Z.ltb_spec rank 0) as [Hneg | Hpos].
      * repeat split; auto.
      * repeat split; cbn [daysWithDrops prevRank]; auto.
        -- destruct Hprev as [-> | ->].
           ++ destruct (prevRank wide) as [prev|]; [|exact Hincl].
              destruct (rank <? prev); [|exact Hincl].
              intros k Hk. apply Set_add_In. right. now apply Hincl.
           ++ destruct (prevRank wide) as [prev|]; [|exact Hincl].
              destruct (rank <? prev); [|exact Hincl].
              intros k Hk. apply Set_add_In. apply Set_add_In in Hk as [-> | Hk];
                [now left | right; now apply Hincl].
        -- destruct (prevRank narrow) as [prev|]; [|exact Hn].
           destruct (rank <? prev); [|exact Hn]. now apply Set_add_NoDup.
        -- destruct (prevRank wide) as [prev|]; [|exact Hw].
           destruct (rank <? prev); [|exact Hw]. now apply Set_add_NoDup.
Qed.

Lemma loop_simulates (cutoffNarrow cutoffWide : Z) (rankCsv : list Z) :
  cutoffWide <= cutoffNarrow ->
  forall narrow wide,
    simulates narrow wide ->
    simulates (loop dayKey cutoffNarrow rankCsv narrow)
              (loop dayKey cutoffWide rankCsv wide).
Proof.
  intros Hcut.
  induction rankCsv as [rankCsv IH] using (well_founded_induction
                                             (Wf_nat.well_founded_ltof _ (@List.length Z))).
  intros narrow wide Hsim.
  destruct rankCsv as [|keepaTime [|rank rest]]; cbn [loop]; try exact Hsim.
  apply IH.
  - unfold Wf_nat.ltof. cbn. lia.
  - now apply visit_simulates.
Qed.

(** X21: a wider window never counts fewer days: for the same series,
    when the cutoff of one call is not later than the cutoff of another,
    the first call returns at least as much as the second. In particular
    [daysWithSales30 <= daysWithSales90] for two calls that read the same
    time, or times less than 60 days apart. *)
Theorem calculateDaysWithSales_monotone
    (now now' days days' : Z) (rankCsv : option (list Z)) :
  now' - days' * 24 * 60 * 60 * 1000 <= now - days * 24 * 60 * 60 * 1000 ->
  calculateDaysWithSales dayKey now rankCsv days
  <= calculateDaysWithSales dayKey now' rankCsv days'.
Proof.
  intros Hcut. unfold calculateDaysWithSales.
  destruct rankCsv as [csv|]; [|lia].
  destruct (List.length csv <? 4)%nat; [lia|]. cbv zeta.
  assert (Hsim : simulates
                   (loop dayKey (now - days * 24 * 60 * 60 * 1000) csv
                      {| daysWithDrops := []; prevRank := None |})
                   (loop dayKey (now' - days' * 24 * 60 * 60 * 1000) csv
                      {| daysWithDrops := []; prevRank := None |})).
  { apply loop_simulates; [exact Hcut|].
    repeat split; cbn [daysWithDrops prevRank]; auto using NoDup_nil, incl_refl. }
  destruct Hsim as (Hincl & _ & Hn & _).
  apply Nat2Z.inj_le. now apply NoDup_incl_length.
Qed.

Lemma visit_length (cutoffTime keepaTime rank : Z) (st : loop_state) :
  (List.length (daysWithDrops (visit dayKey cutoffTime keepaTime rank st))
   <= List.length (daysWithDrops st)
      + match prevRank st with Some _ => 1 | None => 0 end)%nat.
Proof.
  unfold visit. cbv zeta.
  destruct (_ <? cutoffTime); cbn [daysWithDrops]; [lia|].
  destruct (rank <? 0); [lia|]. cbn [daysWithDrops].
  destruct (prevRank st) as [prev|]; [|lia].
  destruct (rank <? prev); [|lia].
  pose proof (Set_add_length (daysWithDrops st)
                (dayKey ((keepaTime + 21564000) * 60000))). lia.
Qed.

Lemma loop_length (cutoffTime : Z) (rankCsv : list Z) :
  forall st,
    (List.length (daysWithDrops (loop dayKey cutoffTime rankCsv st))
     <= List.length (daysWithDrops st) + observations rankCsv)%nat.
Proof.
  induction rankCsv as [rankCsv IH] using (well_founded_induction
                                             (Wf_nat.well_founded_ltof _ (@List.length Z))).
  intros st.
  destruct rankCsv as [|keepaTime [|rank rest]]; cbn [loop observations]; try lia.
  specialize (IH rest ltac:(unfold Wf_nat.ltof; cbn; lia)
                (visit dayKey cutoffTime keepaTime rank st)).
  pose proof (visit_length cutoffTime keepaTime rank st).
  destruct (prevRank st); lia.
Qed.

(** X22: the count is 0 for a series that is absent or has fewer than
    four numbers (fewer than two observations); in every case it is at
    most the number of observations less one, the first observation
    having no rank before it to drop from. *)
Theorem calculateDaysWithSales_bounds
    (now days : Z) (rankCsv : option (list Z)) :
  let csv := match rankCsv with Some csv => csv | None => [] end in
  let count := calculateDaysWithSales dayKey now rankCsv days in
  0 <= count <= Z.max 0 (Z.of_nat (observations csv) - 1)
  /\ ((List.length csv < 4)%nat -> count = 0).
Proof.
  cbv zeta. unfold calculateDaysWithSales.
  destruct rankCsv as [csv|]; [|split; [cbn; lia | reflexivity]].
  destruct (Nat.ltb_spec (List.length csv) 4) as [Hshort | Hlong].
  - split; [lia | reflexivity].
  - cbv zeta. split; [|lia].
    destruct csv as [|keepaTime [|rank rest]]; try (cbn in Hlong; lia).
    cbn [loop observations].
    pose proof (loop_length (now - days * 24 * 60 * 60 * 1000) rest
                  (visit dayKey (now - days * 24 * 60 * 60 * 1000) keepaTime rank
                     {| daysWithDrops := []; prevRank := None |})) as H.
    pose proof (visit_length (now - days * 24 * 60 * 60 * 1000) keepaTime rank
                  {| daysWithDrops := []; prevRank := None |}) as H0.
    cbn [daysWithDrops prevRank List.length] in H0. lia.
Qed.

End DaysFacts.

(** A sample: the day is the number of the UTC day; four observations,
    the ranks 500, 400, 450, 300 at noon of four days in a row, read at
    noon of the fourth day. *)
Lemma calculateDaysWithSales_monotone_witness :
  let dayKey := fun t : Z => to_string (Some (t / 86400000)) in
  let rankCsv := Some [6000000; 500; 6001440; 400; 6002880; 450; 6004320; 300] in
  let now := (6004320 + 21564000) * 60000 in
  calculateDaysWithSales dayKey now rankCsv 1 = 1
  /\ calculateDaysWithSales dayKey now rankCsv 30 = 2
  /\ calculateDaysWithSales dayKey now rankCsv 1
     <= calculateDaysWithSales dayKey now rankCsv 30.
Proof.
  cbv zeta. split; [vm_compute; reflexivity|]. split; [vm_compute; reflexivity|].
  apply calculateDaysWithSales_monotone. vm_compute. discriminate.
Defined.

Lemma calculateDaysWithSales_bounds_witness :
  calculateDaysWithSales (fun t : Z => to_string (Some (t / 86400000))) 0
    (Some [6000000; 500; 6001440]) 30 = 0.
Proof.
  apply (calculateDaysWithSales_bounds
           (fun t : Z => to_string (Some (t / 86400000))) 0 30
           (Some [6000000; 500; 6001440])).
  cbn. lia.
Defined.

(** ** Building a book search *)

Import Search.

Lemma join_last (sep x : jsstring) (a : list jsstring) :
  exists prefix, join sep (a ++ [x]) = prefix ++ x.
Proof.
  induction a as [|y a IH]; cbn [app join].
  - now exists [].
  - destruct IH as (prefix & E).
    destruct (a ++ [x]) as [|z rest] eqn:Ea.
    + destruct a; discriminate Ea.
    + rewrite E. exists (y ++ sep ++ prefix). now rewrite <- !app_assoc.
Qed.

Lemma app_nonempty_r (a b : jsstring) : b <> [] -> a ++ b <> [].
Proof. destruct a; [auto | discriminate]. Qed.

Section SearchFacts.

Variable daysAgo : Z -> jsstring.

(** X23: every book search asks for fixed-price listings of category
    267, newest first: the filter is never left out and always ends with
    [buyingOptions:{FIXED_PRICE}], after at most four other restrictions,
    and the query string always carries the seven parameters q, limit,
    offset, fieldgroups, category_ids, filter and sort, in this order,
    with the offset 0 and the limit 200 unless a limit other than 0 is
    given. *)
Theorem searchEbayBooks_fixed_price_books (query : jsstring) (o : option options) :
  let params := searchEbayBooks daysAgo query o in
  (exists (restrictions : list jsstring) (prefix : jsstring),
      filters daysAgo o = restrictions ++ [js "buyingOptions:{FIXED_PRICE}"]
      /\ (List.length restrictions <= 4)%nat
      /\ filter params = Some (prefix ++ js "buyingOptions:{FIXED_PRICE}"))
  /\ map fst (queryParams params)
     = [js "q"; js "limit"; js "offset"; js "fieldgroups"; js "category_ids";
        js "filter"; js "sort"]
  /\ category_ids params = Some (js "267")
  /\ sort params = Some (js "newlyListed")
  /\ nth_error (map snd (queryParams params)) 2 = Some (js "0")
  /\ nth_error (map snd (queryParams params)) 1
     = Some (to_string (Some (match truthy_num (opt o limit) with
                              | Some n => n
                              | None => 200
                              end))).
Proof.
  cbv zeta.
  set (restrictions := price_filter o ++ conditions_filter o ++ sellers_filter o
                       ++ age_filter daysAgo o).
  assert (Hf : filters daysAgo o = restrictions ++ [js "buyingOptions:{FIXED_PRICE}"]).
  { unfold filters, restrictions. now rewrite <- !app_assoc. }
  assert (Hlen : (List.length restrictions <= 4)%nat).
  { unfold restrictions. rewrite !length_app.
    assert (List.length (price_filter o) <= 1)%nat.
    { unfold price_filter. cbv zeta.
      repeat match goal with |- context [if ?b then _ else _] => destruct b end;
        cbn; lia. }
    assert (List.length (conditions_filter o) <= 1)%nat.
    { unfold conditions_filter. destruct (opt o conditions) as [[|c cs]|]; cbn; lia. }
    assert (List.length (sellers_filter o) <= 1)%nat.
    { unfold sellers_filter. destruct (opt o sellers) as [[|c cs]|]; cbn; lia. }
    assert (List.length (age_filter daysAgo o) <= 1)%nat.
    { unfold age_filter. cbv zeta.
      destruct (is_truthy _ && above _ 0); cbn; lia. }
    lia. }
  destruct (join_last (js ",") (js "buyingOptions:{FIXED_PRICE}") restrictions)
    as (prefix & Ej).
  assert (Hfilter : filter (searchEbayBooks daysAgo query o)
                    = Some (prefix ++ js "buyingOptions:{FIXED_PRICE}")).
  { unfold searchEbayBooks. cbn [filter]. rewrite Hf, Ej, length_app.
    cbn [List.length]. rewrite Nat.add_1_r. reflexivity. }
  split; [exists restrictions, prefix; now repeat split|].
  unfold queryParams. rewrite Hfilter.
  assert (Hne : nonempty_string (Some (prefix ++ js "buyingOptions:{FIXED_PRICE}"))
                = Some (prefix ++ js "buyingOptions:{FIXED_PRICE}")).
  { destruct (prefix ++ js "buyingOptions:{FIXED_PRICE}") eqn:E; [|reflexivity].
    exfalso. revert E. apply app_nonempty_r. discriminate. }
  rewrite Hne. unfold searchEbayBooks.
  cbn [category_ids sort Search.offset params_limit Search.query].
  repeat split.
  cbn [map snd app nth_error truthy_num].
  destruct (truthy_num (opt o limit)) as [n|] eqn:En; cbn [truthy_num].
  - unfold truthy_num in En. destruct (opt o limit) as [l|]; [|discriminate].
    destruct (l =? 0) eqn:El; [discriminate|]. injection En as <-. now rewrite El.
  - reflexivity.
Qed.

(** X24: an option whose value is zero, an empty list of conditions or
    sellers, an upper price of 100000 or more and an age that is not
    positive have the effect of an option that is absent; and no options
    at all have the effect of options that are all absent. *)
Theorem searchEbayBooks_ignores_falsy_options (query : jsstring) (o : options) :
  searchEbayBooks daysAgo query (Some o)
  = searchEbayBooks daysAgo query (Some (significant o))
  /\ searchEbayBooks daysAgo query None
     = searchEbayBooks daysAgo query (Some no_options).
Proof.
  split; [|reflexivity].
  assert (Hp : price_filter (Some o) = price_filter (Some (significant o))).
  { unfold price_filter, is_truthy, below, text, truthy_num. cbv zeta.
    cbn [opt significant minPrice maxPrice]. unfold truthy_num.
    destruct (minPrice o) as [lo|]; destruct (maxPrice o) as [hi|]; cbn [andb];
      try destruct (lo =? 0) eqn:Elo; try destruct (hi =? 0) eqn:Ehi;
      cbn [andb]; try destruct (hi <? 100000) eqn:Eh; cbn [andb];
      rewrite ?Elo, ?Ehi, ?Eh; reflexivity. }
  assert (Hc : conditions_filter (Some o) = conditions_filter (Some (significant o))).
  { unfold conditions_filter. cbn [opt significant conditions].
    destruct (conditions o) as [[|c cs]|]; reflexivity. }
  assert (Hs : sellers_filter (Some o) = sellers_filter (Some (significant o))).
  { unfold sellers_filter. cbn [opt significant sellers].
    destruct (sellers o) as [[|c cs]|]; reflexivity. }
  assert (Ha : age_filter daysAgo (Some o) = age_filter daysAgo (Some (significant o))).
  { unfold age_filter, is_truthy, above. cbv zeta.
    cbn [opt significant maxListingAgeDays]. unfold truthy_num.
    destruct (maxListingAgeDays o) as [d|]; [|reflexivity].
    destruct (d =? 0) eqn:Ed; cbn [andb]; [reflexivity|].
    destruct (0 <? d) eqn:Ep; [now rewrite Ed, Ep | reflexivity]. }
  assert (Hl : truthy_num (opt (Some o) limit)
               = truthy_num (opt (Some (significant o)) limit)).
  { cbn [opt significant limit]. unfold truthy_num.
    destruct (limit o) as [l|]; [|reflexivity].
    destruct (l =? 0) eqn:El; [reflexivity | now rewrite El]. }
  unfold searchEbayBooks, filters. now rewrite Hp, Hc, Hs, Ha, Hl.
Qed.

End SearchFacts.

(** ** Scoring a deal in the routes *)

Import Analysis.

Lemma truthy_of_Z (x : Z) :
  Z.abs x < 2 ^ 53 -> Decision.truthy (of_Z x) = negb (x =? 0).
Proof.
  intros Hx. unfold Decision.truthy, is_zero, is_nan.
  change zero with (of_Z 0).
  rewrite !of_Z_eqb by (first [exact Hx | reflexivity]).
  rewrite Z.eqb_refl. cbn [negb]. now rewrite orb_false_r.
Qed.

Ltac integer_comparisons :=
  repeat match goal with
         | |- context [(of_Z ?a <? ?c)%float] =>
             lazymatch c with
             | of_Z _ => fail
             | _ => let z := eval vm_compute in (Math_round c) in
                    change c with (of_Z z)
             end
         | |- context [(of_Z ?a <=? ?c)%float] =>
             lazymatch c with
             | of_Z _ => fail
             | _ => let z := eval vm_compute in (Math_round c) in
                    change c with (of_Z z)
             end
         | |- context [(?c <? of_Z ?a)%float] =>
             lazymatch c with
             | of_Z _ => fail
             | _ => let z := eval vm_compute in (Math_round c) in
                    change c with (of_Z z)
             end
         | |- context [(?c <=? of_Z ?a)%float] =>
             lazymatch c with
             | of_Z _ => fail
             | _ => let z := eval vm_compute in (Math_round c) in
                    change c with (of_Z z)
             end
         end;
  rewrite ?of_Z_ltb, ?of_Z_leb by (first [assumption | reflexivity]).

(** X26: on integers of magnitude below 2^53, which is what the routes
    hand over, every comparison that [makeDecision] makes in binary64 is
    the comparison of the integers, and a rank or a count is truthy
    exactly when it is not 0: the decision is the one of the same rules
    read on integers. *)
Theorem makeDecision_on_integers
    (profit roi : Z) (salesRank salesDrops30 : option Z) (fbaCount : Z)
    (isAmazon : bool) :
  Z.abs profit < 2 ^ 53 -> Z.abs roi < 2 ^ 53 -> Z.abs fbaCount < 2 ^ 53 ->
  (forall r, salesRank = Some r -> Z.abs r < 2 ^ 53) ->
  (forall d, salesDrops30 = Some d -> Z.abs d < 2 ^ 53) ->
  Decision.makeDecision (of_Z profit) (of_Z roi) (option_map of_Z salesRank)
    (option_map of_Z salesDrops30) (of_Z fbaCount) isAmazon
  = makeDecision_int profit roi salesRank salesDrops30 fbaCount isAmazon.
Proof.
  intros Hp Hr Hf Hsr Hsd.
  unfold Decision.makeDecision, makeDecision_int, Decision.scoring, score_int,
    Decision.profit_bonus, Decision.roi_bonus, Decision.rank_bonus,
    Decision.velocity_bonus, Decision.competition_penalty,
    Decision.truthy_and, Decision.present_and, truthy_and, present_and.
  destruct salesRank as [r|]; destruct salesDrops30 as [d|]; cbn [option_map];
    try (pose proof (Hsr r eq_refl) as Hr'); try (pose proof (Hsd d eq_refl) as Hd');
    rewrite ?truthy_of_Z by assumption;
    integer_comparisons; reflexivity.
Qed.

Lemma knocked_out_amazon
    (profit roi : float) (salesRank salesDrops30 : option float) (fbaCount : float) :
  let r := Decision.makeDecision profit roi salesRank salesDrops30 fbaCount true in
  Decision.decision r = Decision.REJECT /\ Decision.score r = 0.
Proof.
  cbv zeta. unfold Decision.makeDecision.
  destruct (profit <? 300)%float; [split; reflexivity|].
  destruct (roi <? 30)%float; [split; reflexivity|].
  destruct (Decision.truthy_and salesRank _); [split; reflexivity|].
  destruct (Decision.present_and salesDrops30 _); split; reflexivity.
Qed.

(** X27: a listing is never recommended when Amazon itself has an
    offer: for every payload whose normalized Amazon price is positive,
    the decision that the routes compute is REJECT with score 0, whatever
    the prices and the other numbers are. And for prices of magnitude
    below 2^45 the reason is "Profit below $3" exactly when the FBA
    profit is under 300 cents. *)
Theorem deal_decision_knockouts
    (ebayPrice buyBoxPrice : Z) (raw : Keepa.KeepaProductRaw) :
  let product := Keepa.parseKeepaProduct raw in
  let fees := fst (decide_deal ebayPrice buyBoxPrice product) in
  let decision := snd (decide_deal ebayPrice buyBoxPrice product) in
  ((exists a, Keepa.amazonPrice product = Some a /\ 0 < a) ->
   Decision.decision decision = Decision.REJECT /\ Decision.score decision = 0)
  /\ (Z.abs ebayPrice < 2 ^ 45 -> Z.abs buyBoxPrice < 2 ^ 45 ->
      (Decision.reason decision = js "Profit below $3"
       <-> Fees.fbaProfit fees < 300)).
Proof.
  cbv zeta. unfold decide_deal. cbn [fst snd]. split.
  - intros (a & Ha & Hpos).
    assert (Ham : Keepa.isAmazon (Keepa.parseKeepaProduct raw) = true).
    { unfold Keepa.parseKeepaProduct in *. cbn [Keepa.isAmazon Keepa.amazonPrice] in *.
      rewrite Ha. now apply Z.ltb_lt. }
    rewrite Ham. apply knocked_out_amazon.
  - intros Hb Hs.
    destruct (fbaProfit_gap ebayPrice buyBoxPrice) as [_ Hmax]. rewrite Hmax.
    assert (Hbound : Z.abs (Fees.fbaProfit (Fees.calculateFees ebayPrice buyBoxPrice))
                     < 2 ^ 53).
    { unfold Fees.calculateFees. cbn [Fees.fbaProfit].
      rewrite (referralFee_exact _ Hs), (ebayFee_exact _ Hb).
      destruct (fee_bounds _ Hb) as [_ Hfb]. destruct (fee_bounds _ Hs) as [Hfs _].
      change (2 ^ 45) with 35184372088832 in *.
      change (2 ^ 53) with 9007199254740992. lia. }
    unfold Decision.makeDecision.
    change 300%float with (of_Z 300). rewrite of_Z_ltb by (first [exact Hbound | reflexivity]).
    destruct (Z.ltb_spec (Fees.fbaProfit (Fees.calculateFees ebayPrice buyBoxPrice)) 300)
      as [Hlt | Hge].
    + split; [intros _; exact Hlt | reflexivity].
    + split; [|lia]. intros Hreason. exfalso.
      revert Hreason.
      destruct (_ <? 30)%float; [vm_compute; discriminate|].
      destruct (Decision.truthy_and _ _); [vm_compute; discriminate|].
      destruct (Decision.present_and _ _); [vm_compute; discriminate|].
      destruct (Keepa.isAmazon _); [vm_compute; discriminate|].
      unfold Decision.scoring.
      match goal with
      | |- Decision.reason (if ?b then _ else if ?c then _ else _) = _ -> _ =>
          destruct b; [vm_compute; discriminate|];
          destruct c; vm_compute; discriminate
      end.
Qed.

Lemma deal_decision_knockouts_witness :
  let raw :=
    Keepa.mkRaw (js "0441172717") (Some (js "Dune")) None
      (Some (Keepa.mkStats (Some [1299; 1350]) None None (Some 30) (Some 12)
               (Some 1500) None None None None))
      None in
  Keepa.amazonPrice (Keepa.parseKeepaProduct raw) = Some 1299
  /\ Decision.decision (snd (decide_deal 400 1500 (Keepa.parseKeepaProduct raw)))
     = Decision.REJECT
  /\ (Decision.reason (snd (decide_deal 1000 1500 (Keepa.parseKeepaProduct raw)))
      = js "Profit below $3"
      <-> Fees.fbaProfit (fst (decide_deal 1000 1500 (Keepa.parseKeepaProduct raw)))
          < 300).
Proof.
  cbv zeta. split; [reflexivity|]. split.
  - refine (proj1 (proj1 (deal_decision_knockouts 400 1500 _) _)).
    exists 1299. split; [reflexivity | lia].
  - refine (proj2 (deal_decision_knockouts 1000 1500 _) _ _);
      vm_compute; reflexivity.
Defined.

Lemma makeDecision_on_integers_witness :
  Decision.makeDecision (of_Z 1016) (of_Z 90) (Some (of_Z 52000)) (Some (of_Z 12))
    (of_Z 3) false
  = makeDecision_int 1016 90 (Some 52000) (Some 12) 3 false
  /\ makeDecision_int 1016 90 (Some 52000) (Some 12) 3 false
     = Decision.mkResult Decision.BUY (js "Strong opportunity") 100.
Proof.
  split; [|reflexivity].
  apply (makeDecision_on_integers 1016 90 (Some 52000) (Some 12) 3 false);
    try reflexivity.
  - intros r H. injection H as <-. reflexivity.
  - intros d H. injection H as <-. reflexivity.
Defined.

(** ** Reporting a failure *)

Import Errors.

Lemma startsWith_app (p s : jsstring) : startsWith p (p ++ s) = true.
Proof.
  induction p as [|c p IH]; [reflexivity|]. cbn [app startsWith].
  now rewrite Ascii.eqb_refl, IH.
Qed.

Lemma includes_here (needle hay : jsstring) :
  startsWith needle hay = true -> Extract.includes needle hay = true.
Proof. intros H. destruct hay; cbn [Extract.includes]; now rewrite H. Qed.

Lemma includes_app (needle before after : jsstring) :
  Extract.includes needle (before ++ needle ++ after) = true.
Proof.
  induction before as [|c before IH]; cbn [app].
  - apply includes_here, startsWith_app.
  - cbn [Extract.includes]. rewrite IH. apply orb_true_r.
Qed.

Lemma includes_app_r (needle before hay : jsstring) :
  Extract.includes needle hay = true ->
  Extract.includes needle (before ++ hay) = true.
Proof.
  intros H. induction before as [|c before IH]; cbn [app]; [exact H|].
  cbn [Extract.includes]. rewrite IH. apply orb_true_r.
Qed.

Example classify_samples :
  classify (search_message 401 (js "{}")) = AUTH_ERROR
  /\ classify (search_message 403 (js "{}")) = UNKNOWN_ERROR
  /\ classify (search_message 401 (js "item 4290 not visible")) = RATE_LIMIT.
Proof. vm_compute. repeat split; reflexivity. Qed.

(** ** The featured deals *)

Import Featured.

Lemma In_firstn {A : Type} (n : nat) (l : list A) (x : A) :
  In x (firstn n l) -> In x l.
Proof.
  intros H. rewrite <- (firstn_skipn n l). apply in_or_app. now left.
Qed.

Lemma insert_In (a x : FeaturedDeal) (l : list FeaturedDeal) :
  In x (insert a l) <-> x = a \/ In x l.
Proof.
  induction l as [|b l IH]; cbn [insert In].
  - split; [intros [H | []]; now left | intros [H | []]; now left].
  - destruct (score_or_0 a <? score_or_0 b); cbn [In].
    + rewrite IH. split; [intros [H | [H | H]] | intros [H | [H | H]]]; auto.
    + split; [intros [H | H] | intros [H | H]]; auto.
Qed.

Lemma sort_by_score_In (x : FeaturedDeal) (l : list FeaturedDeal) :
  In x (sort_by_score l) <-> In x l.
Proof.
  unfold sort_by_score. induction l as [|a l IH]; cbn [fold_right In]; [tauto|].
  rewrite insert_In, IH. split; [intros [H | H] | intros [H | H]]; auto.
Qed.

Lemma insert_length (a : FeaturedDeal) (l : list FeaturedDeal) :
  List.length (insert a l) = S (List.length l).
Proof.
  induction l as [|b l IH]; cbn [insert List.length]; [reflexivity|].
  destruct (score_or_0 a <? score_or_0 b); cbn [List.length]; [now rewrite IH | reflexivity].
Qed.

Lemma sort_by_score_length (l : list FeaturedDeal) :
  List.length (sort_by_score l) = List.length l.
Proof.
  unfold sort_by_score. induction l as [|a l IH]; cbn [fold_right List.length];
    [reflexivity|].
  now rewrite insert_length, IH.
Qed.

Lemma insert_descending (a : FeaturedDeal) (l : list FeaturedDeal) :
  descending l -> descending (insert a l).
Proof.
  induction l as [|b l IH]; cbn [insert descending].
  - intros _. split; [intros b [] | exact I].
  - intros [Hb Hl]. destruct (Z.ltb_spec (score_or_0 a) (score_or_0 b)) as [Hlt | Hge];
      cbn [descending].
    + split; [|now apply IH].
      intros x Hx. apply insert_In in Hx as [-> | Hx]; [lia | now apply Hb].
    + split; [|split; assumption].
      intros x [<- | Hx]; [lia|]. specialize (Hb x Hx). lia.
Qed.

Lemma sort_by_score_descending (l : list FeaturedDeal) :
  descending (sort_by_score l).
Proof.
  unfold sort_by_score. induction l as [|a l IH]; cbn [fold_right]; [exact I|].
  now apply insert_descending.
Qed.

Lemma firstn_descending (n : nat) (l : list FeaturedDeal) :
  descending l -> descending (firstn n l).
Proof.
  revert l. induction n as [|n IH]; intros [|a l]; cbn [firstn descending]; auto.
  intros [Ha Hl]. split; [|now apply IH].
  intros b Hb. apply Ha. eapply In_firstn, Hb.
Qed.

Lemma select_spec (scoredDeals dealsWithIsbn : list FeaturedDeal) :
  exists top fill,
    select scoredDeals dealsWithIsbn = top ++ fill
    /\ (List.length (top ++ fill) <= 3)%nat
    /\ descending top
    /\ (forall d, In d top -> In d scoredDeals)
    /\ (forall d, In d fill -> In d dealsWithIsbn /\ listed top d = false)
    /\ ((3 <= List.length scoredDeals)%nat -> List.length top = 3%nat).
Proof.
  unfold select. cbv zeta.
  set (top := firstn 3 (sort_by_score scoredDeals)).
  assert (Htop : (List.length top <= 3)%nat) by apply firstn_le_length.
  assert (Hdesc : descending top)
    by apply firstn_descending, sort_by_score_descending.
  assert (Hin : forall d, In d top -> In d scoredDeals).
  { intros d Hd. apply sort_by_score_In. eapply In_firstn, Hd. }
  assert (Hfull : (3 <= List.length scoredDeals)%nat -> List.length top = 3%nat).
  { intros H. unfold top. rewrite length_firstn, sort_by_score_length. lia. }
  destruct (Nat.ltb_spec (List.length top) 3) as [Hlt | Hge].
  - exists top,
      (firstn (3 - List.length top)
         (List.filter (fun d => negb (listed top d)) dealsWithIsbn)).
    split; [reflexivity|]. split.
    { rewrite length_app.
      pose proof (firstn_le_length (3 - List.length top)
                    (List.filter (fun d => negb (listed top d)) dealsWithIsbn)). lia. }
    split; [exact Hdesc|]. split; [exact Hin|]. split; [|exact Hfull].
    intros d Hd. apply In_firstn in Hd. apply filter_In in Hd as [Hd Hl].
    split; [exact Hd|]. now apply negb_true_iff.
  - exists top, []. rewrite app_nil_r.
    split; [reflexivity|]. split; [exact Htop|]. split; [exact Hdesc|].
    split; [exact Hin|]. split; [intros d []|exact Hfull].
Qed.

Section FeaturedFacts.

Variable details : nat -> detail.
Variable products : nat -> option Keepa.KeepaProduct.

Lemma collect_spec (items : list Listing) :
  forall (i : nat) (acc : list FeaturedDeal) (fetched : list nat),
  exists new more,
    collect details i items acc fetched = (acc ++ new, fetched ++ more)
    /\ Forall (fun d => scoring d = None
                       /\ In (ebayItemId d) (map itemId items)
                       /\ nonempty_string (Featured.isbn d) <> None) new
    /\ (List.length more <= List.length items)%nat
    /\ Forall (fun k => (i <= k < i + List.length items)%nat) more.
Proof.
  induction items as [|item rest IH]; intros i acc fetched.
  - exists [], []. cbn [collect]. rewrite !app_nil_r.
    repeat split; constructor.
  - assert (Hcont : forall (isbn1 : option jsstring) (f' called : list nat),
               f' = fetched ++ called ->
               called = [] \/ called = [i] ->
               exists new more,
                 match nonempty_string isbn1 with
                 | Some isbn =>
                     let deal := convertToDeal (with_isbn item isbn) in
                     let dealsWithIsbn :=
                       acc ++ [{| ebayItemId := ebayItemId deal;
                                  ebayPrice := ebayPrice deal;
                                  isbn := Some isbn; scoring := scoring deal |}] in
                     if (10 <=? List.length dealsWithIsbn)%nat
                     then (dealsWithIsbn, f')
                     else collect details (S i) rest dealsWithIsbn f'
                 | None => collect details (S i) rest acc f'
                 end = (acc ++ new, fetched ++ more)
                 /\ Forall (fun d => scoring d = None
                                    /\ In (ebayItemId d) (map itemId (item :: rest))
                                    /\ nonempty_string (Featured.isbn d) <> None) new
                 /\ (List.length more <= List.length (item :: rest))%nat
                 /\ Forall (fun k => (i <= k < i + List.length (item :: rest))%nat) more).
    { intros isbn1 f' called -> Hcalled.
      assert (Hc1 : (List.length called <= 1)%nat
                    /\ Forall (fun k => (i <= k < i + S (List.length rest))%nat) called).
      { destruct Hcalled as [-> | ->]; cbn [List.length]; split; try lia;
          repeat constructor; lia. }
      destruct Hc1 as [Hlen1 Hrange1].
      assert (Hwiden : forall more,
                 Forall (fun k => (S i <= k < S i + List.length rest)%nat) more ->
                 Forall (fun k => (i <= k < i + S (List.length rest))%nat) more).
      { intros more H. eapply Forall_impl; [|exact H]. cbn. intros k Hk. lia. }
      assert (Hids : forall new,
                 Forall (fun d => scoring d = None
                                  /\ In (ebayItemId d) (map itemId rest)
                                  /\ nonempty_string (Featured.isbn d) <> None) new ->
                 Forall (fun d => scoring d = None
                                  /\ In (ebayItemId d) (map itemId (item :: rest))
                                  /\ nonempty_string (Featured.isbn d) <> None) new).
      { intros new H. eapply Forall_impl; [|exact H]. cbn [map In].
        intros d (H1 & H2 & H3). repeat split; auto. }
      cbn [List.length].
      destruct (nonempty_string isbn1) as [isbn|] eqn:E1.
      + cbv zeta. unfold convertToDeal, with_isbn.
        cbn [ebayItemId ebayPrice scoring itemId total_cents].
        set (deal := {| ebayItemId := itemId item; ebayPrice := total_cents item;
                        isbn := Some isbn; scoring := None |}).
        assert (Hdeal : scoring deal = None
                        /\ In (ebayItemId deal) (map itemId (item :: rest))
                        /\ nonempty_string (Featured.isbn deal) <> None).
        { subst deal. cbn [scoring ebayItemId Featured.isbn map In].
          repeat split; [now left|].
          unfold nonempty_string in E1 |- *.
          destruct isbn1 as [[|c s]|]; try discriminate E1.
          injection E1 as <-. discriminate. }
        destruct (10 <=? List.length (acc ++ [deal]))%nat.
        * exists [deal], called. split; [reflexivity|].
          split; [repeat constructor; apply Hdeal|].
          split; [lia | exact Hrange1].
        * destruct (IH (S i) (acc ++ [deal]) (fetched ++ called))
            as (new & more & E & Hnew & Hlen & Hrange).
          exists (deal :: new), (called ++ more).
          rewrite E, <- !app_assoc. split; [reflexivity|].
          split; [constructor; [exact Hdeal | now apply Hids]|].
          split; [rewrite length_app; lia|].
          apply Forall_app. split; [exact Hrange1 | now apply Hwiden].
      + destruct (IH (S i) acc (fetched ++ called))
          as (new & more & E & Hnew & Hlen & Hrange).
        exists new, (called ++ more).
        rewrite E, <- !app_assoc. split; [reflexivity|].
        split; [now apply Hids|].
        split; [rewrite length_app; lia|].
        apply Forall_app. split; [exact Hrange1 | now apply Hwiden]. }
    cbn [collect].
    destruct (nonempty_string (Extract.extractISBN (summary item))) eqn:E0.
    + apply (Hcont _ fetched []); [now rewrite app_nil_r | now left].
    + apply (Hcont _ (fetched ++ [i]) [i]); [reflexivity | now right].
Qed.

Lemma scored_fields (deal : FeaturedDeal) (product : Keepa.KeepaProduct) (p : Z) :
  ebayItemId (scored deal product p) = ebayItemId deal
  /\ scoring (scored deal product p) <> None.
Proof.
  unfold scored. destruct (Analysis.decide_deal (ebayPrice deal) p product) as [fees dec].
  split; [reflexivity | discriminate].
Qed.

Lemma evaluate_spec (candidates : list FeaturedDeal) :
  forall (j : nat) (acc : list FeaturedDeal) (looked_up : list nat),
  exists new more,
    evaluate products j candidates acc looked_up = (acc ++ new, looked_up ++ more)
    /\ Forall (fun d => scoring d <> None
                       /\ In (ebayItemId d) (map ebayItemId candidates)) new
    /\ (List.length more <= List.length candidates)%nat
    /\ Forall (fun k => (j <= k < j + List.length candidates)%nat) more.
Proof.
  induction candidates as [|deal rest IH]; intros j acc looked_up.
  - exists [], []. cbn [evaluate]. rewrite !app_nil_r. repeat split; constructor.
  - assert (Hwiden : forall more,
               Forall (fun k => (S j <= k < S j + List.length rest)%nat) more ->
               Forall (fun k => (j <= k < j + S (List.length rest))%nat) more).
    { intros more H. eapply Forall_impl; [|exact H]. cbn. intros k Hk. lia. }
    assert (Hids : forall new,
               Forall (fun d => scoring d <> None
                                /\ In (ebayItemId d) (map ebayItemId rest)) new ->
               Forall (fun d => scoring d <> None
                                /\ In (ebayItemId d) (map ebayItemId (deal :: rest))) new).
    { intros new H. eapply Forall_impl; [|exact H]. cbn [map In].
      intros d (H1 & H2). split; auto. }
    cbn [evaluate List.length].
    destruct (nonempty_string (Featured.isbn deal)) as [isbn|].
    + cbv zeta.
      assert (Hpush : exists pushed,
                 match products j with
                 | Some product =>
                     match Analysis.truthy_price (Keepa.buyBoxPrice product) with
                     | Some buyBoxPrice => acc ++ [scored deal product buyBoxPrice]
                     | None => acc
                     end
                 | None => acc
                 end = acc ++ pushed
                 /\ Forall (fun d => scoring d <> None
                                    /\ In (ebayItemId d)
                                         (map ebayItemId (deal :: rest))) pushed).
      { destruct (products j) as [product|];
          [|exists []; rewrite app_nil_r; split; [reflexivity | constructor]].
        destruct (Analysis.truthy_price (Keepa.buyBoxPrice product)) as [p|];
          [|exists []; rewrite app_nil_r; split; [reflexivity | constructor]].
        exists [scored deal product p]. split; [reflexivity|].
        destruct (scored_fields deal product p) as [Eid Hsc].
        constructor; [split; [exact Hsc | rewrite Eid; now left] | constructor]. }
      destruct Hpush as (pushed & -> & Hpushed).
      destruct (3 <=? List.length (acc ++ pushed))%nat.
      * exists pushed, [j]. split; [reflexivity|]. split; [exact Hpushed|].
        split; [cbn; lia | repeat constructor; lia].
      * destruct (IH (S j) (acc ++ pushed) (looked_up ++ [j]))
          as (new & more & E & Hnew & Hlen & Hrange).
        exists (pushed ++ new), (j :: more).
        rewrite E, <- !app_assoc. split; [reflexivity|].
        split; [apply Forall_app; split; [exact Hpushed | now apply Hids]|].
        split; [cbn [List.length]; lia|].
        constructor; [lia | now apply Hwiden].
    + destruct (IH (S j) acc looked_up) as (new & more & E & Hnew & Hlen & Hrange).
      exists new, more. split; [exact E|]. split; [now apply Hids|].
      split; [lia | now apply Hwiden].
Qed.

Lemma firstn_range (n : nat) (more : list nat) (l : nat) :
  Forall (fun k => (0 <= k < 0 + l)%nat) more -> (l <= n)%nat ->
  Forall (fun k => (k < n)%nat) more.
Proof.
  intros H Hl. eapply Forall_impl; [|exact H]. cbn. intros k Hk. lia.
Qed.

(** What a run of the featured route is made of. *)
Lemma GET_anatomy (itemSummaries : option (list Listing)) :
  let items := match itemSummaries with Some items => items | None => [] end in
  let r := GET details products itemSummaries in
  exists top fill,
    deals r = top ++ fill
    /\ (List.length (top ++ fill) <= 3)%nat
    /\ descending top
    /\ Forall (fun d => scoring d <> None) top
    /\ Forall (fun d => scoring d = None /\ listed top d = false) fill
    /\ (forall d, In d (top ++ fill) ->
                  In (ebayItemId d) (map itemId (firstn 20 items)))
    /\ (List.length (detail_calls r) <= 20)%nat
    /\ Forall (fun k => (k < 20)%nat) (detail_calls r)
    /\ (List.length (product_calls r) <= 6)%nat
    /\ Forall (fun k => (k < 6)%nat) (product_calls r).
Proof.
  cbv zeta. unfold GET.
  destruct itemSummaries as [[|item0 items0]|];
    try (exists [], []; cbn; repeat split; try constructor; try lia;
         intros d []).
  set (items := item0 :: items0).
  destruct (collect_spec (firstn 20 items) 0 [] [])
    as (cands & fetched & Ec & Hcands & Hflen & Hfrange).
  rewrite Ec. cbn [app].
  pose proof (firstn_le_length 20 items) as H20.
  assert (Hfetched : (List.length fetched <= 20)%nat
                     /\ Forall (fun k => (k < 20)%nat) fetched).
  { split; [lia|]. eapply firstn_range; [exact Hfrange | exact H20]. }
  destruct Hfetched as [Hf1 Hf2].
  destruct (Nat.eqb_spec (List.length cands) 0) as [Hz | Hnz].
  - exists [], (map convertToDeal (firstn 3 items)).
    cbn [deals detail_calls product_calls app List.length].
    split; [reflexivity|].
    split; [rewrite length_map; apply firstn_le_length|].
    split; [exact I|]. split; [constructor|].
    split.
    { apply Forall_forall. intros d Hd. apply in_map_iff in Hd as (it & <- & _).
      split; reflexivity. }
    split.
    { intros d Hd. apply in_map_iff in Hd as (it & <- & Hit).
      cbn [convertToDeal ebayItemId]. apply in_map.
      assert (E : firstn 3 items = firstn 3 (firstn 20 items))
        by (rewrite firstn_firstn; reflexivity).
      rewrite E in Hit. eapply In_firstn, Hit. }
    repeat split; try assumption; try constructor; lia.
  - destruct (evaluate_spec (firstn 6 cands) 0 [] [])
      as (scoredDeals & looked & Ee & Hscored & Hllen & Hlrange).
    rewrite Ee. cbn [app deals detail_calls product_calls].
    pose proof (firstn_le_length 6 cands) as H6.
    destruct (select_spec scoredDeals cands)
      as (top & fill & Es & Hlen & Hdesc & Htop & Hfill & _).
    exists top, fill. split; [exact Es|]. split; [exact Hlen|].
    split; [exact Hdesc|].
    rewrite Forall_forall in Hscored, Hcands.
    split.
    { apply Forall_forall. intros d Hd. apply Hscored, Htop, Hd. }
    split.
    { apply Forall_forall. intros d Hd. destruct (Hfill d Hd) as [Hin Hl].
      split; [apply (Hcands d Hin) | exact Hl]. }
    split.
    { intros d Hd. apply in_app_or in Hd as [Hd | Hd].
      - destruct (Hscored d (Htop d Hd)) as [_ Hid].
        apply in_map_iff in Hid as (c & Eid & Hc). apply In_firstn in Hc.
        rewrite <- Eid. apply (Hcands c Hc).
      - destruct (Hfill d Hd) as [Hin _]. apply (Hcands d Hin). }
    split; [exact Hf1|]. split; [exact Hf2|].
    split; [lia|]. eapply firstn_range; [exact Hlrange | exact H6].
Qed.

End FeaturedFacts.

(** X29: whatever the search returned and whatever the two services
    answer, one request for the featured deals calls [getEbayItem] at most
    20 times, and only for the first 20 listings, calls [getProductByIsbn]
    at most 6 times, and only for the first 6 candidates, and returns at
    most 3 deals, each of them one of the first 20 listings. *)
Theorem featured_bounded_work
    (details : nat -> detail) (products : nat -> option Keepa.KeepaProduct)
    (itemSummaries : option (list Listing)) :
  let items := match itemSummaries with Some items => items | None => [] end in
  let r := GET details products itemSummaries in
  (List.length (deals r) <= 3)%nat
  /\ (forall d, In d (deals r) -> In (ebayItemId d) (map itemId (firstn 20 items)))
  /\ (List.length (detail_calls r) <= 20)%nat
  /\ Forall (fun k => (k < 20)%nat) (detail_calls r)
  /\ (List.length (product_calls r) <= 6)%nat
  /\ Forall (fun k => (k < 6)%nat) (product_calls r).
Proof.
  cbv zeta.
  destruct (GET_anatomy details products itemSummaries)
    as (top & fill & -> & Hlen & _ & _ & _ & Hids & Hd1 & Hd2 & Hp1 & Hp2).
  repeat split; assumption.
Qed.


(** A sample run: three listings, the second without ISBN until its
    details are fetched; the first and the third have Amazon data. *)
Example featured_sample :
  let listing (id title : string) (cents : Z) :=
    mkListing (js id) (Extract.mkItem (js title) None None None) cents in
  let product rank buyBox :=
    Keepa.parseKeepaProduct
      (Keepa.mkRaw (js "B0") None (Some [None; None; None; Some [100; rank]])
         (Some (Keepa.mkStats None None None (Some 36) None (Some buyBox)
                  None None (Some 2) None)) None) in
  let r :=
    GET (fun i => match i with
                  | 1%nat => FullItem (Extract.mkItem (js "Dune") (Some [js "9780441172719"])
                                         None None)
                  | _ => Rejects
                  end)
        (fun j => match j with
                  | 0%nat => Some (product 90000 1800)
                  | 2%nat => Some (product 40000 4000)
                  | _ => None
                  end)
        (Some [listing "v1|1|0"%string "Algebra 9780306406157"%string 500;
               listing "v1|2|0"%string "Dune"%string 400;
               listing "v1|3|0"%string "Physics 0306406152"%string 600]) in
  map (fun d => (ebayItemId d, score_or_0 d)) (deals r)
  = [(js "v1|3|0", 100); (js "v1|1|0", 95); (js "v1|2|0", 0)]
  /\ detail_calls r = [1%nat]
  /\ product_calls r = [0%nat; 1%nat; 2%nat].
Proof. vm_compute. repeat split; reflexivity. Qed.
(** ** The errors that the featured route reports *)

Import FeaturedRoute.

Lemma search_includes_429 (status : Z) (body : jsstring) :
  Extract.includes (js "429") body = true ->
  classify (search_message status body) = RATE_LIMIT.
Proof.
  intros Hbody. unfold classify, search_message.
  rewrite !app_assoc. rewrite (includes_app_r _ _ body Hbody). reflexivity.
Qed.

Lemma search_401 (body : jsstring) :
  Extract.includes (js "429") body = false ->
  Extract.includes (js "Rate limit") body = false ->
  classify (search_message 401 body) = AUTH_ERROR.
Proof.
  intros H429 Hrate. unfold classify, search_message.
  change (js "eBay search failed: " ++ to_string (Some 401) ++ js " - " ++ body)
    with (js "eBay search failed: " ++ js "401" ++ js " - " ++ body).
  assert (E429 : Extract.includes (js "429")
                   (js "eBay search failed: " ++ js "401" ++ js " - " ++ body)
                 = Extract.includes (js "429") body).
  { destruct body as [|c body]; [reflexivity|].
    cbn in *. reflexivity. }
  assert (Erate : Extract.includes (js "Rate limit")
                    (js "eBay search failed: " ++ js "401" ++ js " - " ++ body)
                  = Extract.includes (js "Rate limit") body).
  { destruct body as [|c body]; [reflexivity|].
    cbn in *. reflexivity. }
  rewrite E429, Erate, H429, Hrate. cbn [orb].
  assert (E401 : Extract.includes (js "401")
                   (js "eBay search failed: " ++ js "401" ++ js " - " ++ body) = true).
  { apply (includes_app (js "401") (js "eBay search failed: ") (js " - " ++ body)). }
  now rewrite E401.
Qed.

Lemma not_includes (needle hay : jsstring) :
  Extract.includes needle hay = false <->
  forall pre post, hay <> pre ++ needle ++ post.
Proof.
  split.
  - intros H pre post E.
    assert (Extract.includes needle hay = true)
      by (apply includes_iff; now exists pre, post).
    congruence.
  - intros H. destruct (Extract.includes needle hay) eqn:E; [|reflexivity].
    apply includes_iff in E as (pre & post & E). now elim (H pre post).
Qed.

Section FeaturedRouteFacts.

Variable parse : jsstring -> jsstring + option (list Featured.Listing).
Variable details : nat -> Featured.detail.
Variable products : nat -> option Keepa.KeepaProduct.

Lemma search_exhausted (net : Retry.transport) :
  (forall i, (i <= 2)%nat -> Retry.retryable (net i) = true) ->
  forall accessToken,
    snd (searchEbayListings parse (Token.Fulfilled accessToken) net)
    = inl (NoResponse
             (Retry.final_error Retry.RATE_LIMIT_CONFIG (js "eBay Search")
                (net 2%nat))).
Proof.
  intros Hall accessToken.
  assert (E : Retry.fetchWithRetry Retry.RATE_LIMIT_CONFIG (js "eBay Search") net
              = (Retry.rounds Retry.RATE_LIMIT_CONFIG net 0 2 ++ [Retry.Fetch],
                 Retry.Throw
                   (Retry.final_error Retry.RATE_LIMIT_CONFIG (js "eBay Search")
                      (net 2%nat))))
    by exact (attempts_exhaust Retry.RATE_LIMIT_CONFIG (js "eBay Search") net 2 0
                None eq_refl Hall).
  unfold searchEbayListings. rewrite E. reflexivity.
Qed.

Lemma search_not_ok (net : Retry.transport) (j : nat) (r : Retry.response) :
  (j <= 2)%nat ->
  (forall i, (i < j)%nat -> Retry.retryable (net i) = true) ->
  net j = Retry.Responded r ->
  Retry.retryable (Retry.Responded r) = false ->
  ItemCache.ok r = false ->
  forall accessToken,
    snd (searchEbayListings parse (Token.Fulfilled accessToken) net)
    = inl (SearchFailed (Retry.status r) (Retry.payload r)).
Proof.
  intros Hj Hpre Hnet Hfinal Hok accessToken.
  assert (E : Retry.fetchWithRetry Retry.RATE_LIMIT_CONFIG (js "eBay Search") net
              = (Retry.rounds Retry.RATE_LIMIT_CONFIG net 0 j ++ [Retry.Fetch],
                 Retry.Return r)).
  { unfold Retry.fetchWithRetry.
    cbn [Retry.maxRetries Retry.initialDelayMs Retry.RATE_LIMIT_CONFIG].
    replace 3%nat with (S (j + (2 - j)))%nat by lia.
    apply (attempts_return Retry.RATE_LIMIT_CONFIG (js "eBay Search") net j (2 - j)
             0 None r);
      cbn [Retry.maxRetries Retry.RATE_LIMIT_CONFIG Nat.add]; assumption. }
  unfold searchEbayListings. rewrite E, Hok. reflexivity.
Qed.

(** X28: which failures the featured route reports, and how. The
    response is an error exactly when the search fails: what
    [getEbayItem] and [getProductByIsbn] do never turns it into one.
    Missing credentials are reported as CONFIG_ERROR. When all three
    attempts of the search are retried, a last 429 is reported as
    RATE_LIMIT and a last 5xx as UNKNOWN_ERROR. A search response that
    is not ok is reported as RATE_LIMIT when its body contains 429,
    whatever its status, and as AUTH_ERROR when its status is 401 and its
    body contains neither 429 nor "Rate limit". *)
Theorem featured_error_codes (token : Token.settlement) (net : Retry.transport) :
  let response := snd (GET parse details products token net) in
  ((exists code, response = Failure code) <->
   (exists e, snd (searchEbayListings parse token net) = inl e))
  /\ (token = Token.Failed Token.NotConfigured -> response = Failure CONFIG_ERROR)
  /\ (forall (accessToken : jsstring) (r : Retry.response),
         token = Token.Fulfilled accessToken ->
         (forall i, (i <= 2)%nat -> Retry.retryable (net i) = true) ->
         net 2%nat = Retry.Responded r ->
         (Retry.status r = 429 -> response = Failure RATE_LIMIT)
         /\ (500 <= Retry.status r < 600 -> response = Failure UNKNOWN_ERROR))
  /\ (forall (accessToken : jsstring) (j : nat) (r : Retry.response),
         token = Token.Fulfilled accessToken ->
         (j <= 2)%nat ->
         (forall i, (i < j)%nat -> Retry.retryable (net i) = true) ->
         net j = Retry.Responded r ->
         Retry.status r <> 429 ->
         ~ 500 <= Retry.status r < 600 ->
         ~ 200 <= Retry.status r <= 299 ->
         (forall pre post,
             Retry.payload r = pre ++ js "429" ++ post ->
             response = Failure RATE_LIMIT)
         /\ (Retry.status r = 401 ->
             (forall pre post, Retry.payload r <> pre ++ js "429" ++ post) ->
             (forall pre post, Retry.payload r <> pre ++ js "Rate limit" ++ post) ->
             response = Failure AUTH_ERROR)).
Proof.
  cbv zeta. unfold GET. split; [|split; [|split]].
  - destruct (searchEbayListings parse token net) as [events [e | items]];
      cbn [snd]; split.
    + intros _. now exists e.
    + intros _. now eexists.
    + intros (code & H). discriminate H.
    + intros (e & H). discriminate H.
  - intros ->. reflexivity.
  - intros accessToken r -> Hall Hlast.
    pose proof (search_exhausted net Hall accessToken) as Hs.
    destruct (searchEbayListings parse (Token.Fulfilled accessToken) net)
      as [events results].
    cbn [snd] in *. subst results. cbn [message_of].
    unfold Retry.final_error. rewrite Hlast. split.
    + intros H429. rewrite H429. reflexivity.
    + intros H5xx.
      assert (Hne : (Retry.status r =? 429) = false) by (apply Z.eqb_neq; lia).
      rewrite Hne.
      assert (Hall5 : forallb
                        (fun k =>
                           match classify
                                   (retry_message
                                      (Retry.ServerError (js "eBay Search")
                                         (500 + Z.of_nat k))) with
                           | UNKNOWN_ERROR => true
                           | _ => false
                           end)
                        (seq 0 100) = true) by (vm_compute; reflexivity).
      rewrite forallb_forall in Hall5.
      specialize (Hall5 (Z.to_nat (Retry.status r - 500)) ltac:(apply in_seq; lia)).
      replace (500 + Z.of_nat (Z.to_nat (Retry.status r - 500)))
        with (Retry.status r) in Hall5 by lia.
      destruct (classify _); first [reflexivity | discriminate Hall5].
  - intros accessToken j r -> Hj Hpre Hnet H429 H5xx H2xx.
    assert (Hfinal : Retry.retryable (Retry.Responded r) = false).
    { unfold Retry.retryable. apply orb_false_iff. split.
      - now apply Z.eqb_neq.
      - apply andb_false_iff.
        destruct (Z.leb_spec 500 (Retry.status r)); [right | now left].
        apply Z.ltb_ge. lia. }
    assert (Hok : ItemCache.ok r = false).
    { unfold ItemCache.ok. apply andb_false_iff.
      destruct (Z.leb_spec 200 (Retry.status r)); [right | now left].
      apply Z.leb_gt. lia. }
    pose proof (search_not_ok net j r Hj Hpre Hnet Hfinal Hok accessToken) as Hs.
    destruct (searchEbayListings parse (Token.Fulfilled accessToken) net)
      as [events results].
    cbn [snd] in *. subst results. cbn [message_of]. split.
    + intros pre post Hbody. rewrite search_includes_429; [reflexivity|].
      apply includes_iff. now exists pre, post.
    + intros H401 Hno429 Hrate. rewrite H401.
      apply not_includes in Hno429. apply not_includes in Hrate.
      now rewrite search_401.
Qed.

End FeaturedRouteFacts.

Lemma featured_error_codes_witness :
  let parse := fun _ : jsstring => inr None in
  let details := fun _ : nat => Featured.Rejects in
  let products := fun _ : nat => None in
  snd (GET parse details products (Token.Fulfilled (js "t")) Retry.net_always_429)
  = Failure RATE_LIMIT
  /\ snd (GET parse details products (Token.Fulfilled (js "t"))
            (fun _ => Retry.Responded (Retry.mkResponse 401 None (js "{}"))))
     = Failure AUTH_ERROR.
Proof.
  cbv zeta. split.
  - destruct (featured_error_codes (fun _ : jsstring => inr None)
                (fun _ : nat => Featured.Rejects) (fun _ : nat => None)
                (Token.Fulfilled (js "t")) Retry.net_always_429)
      as (_ & _ & H & _).
    refine (proj1 (H (js "t") (Retry.busy429 None) eq_refl _ eq_refl) eq_refl).
    intros i _. reflexivity.
  - destruct (featured_error_codes (fun _ : jsstring => inr None)
                (fun _ : nat => Featured.Rejects) (fun _ : nat => None)
                (Token.Fulfilled (js "t"))
                (fun _ => Retry.Responded (Retry.mkResponse 401 None (js "{}"))))
      as (_ & _ & _ & H).
    refine (proj2 (H (js "t") 0%nat (Retry.mkResponse 401 None (js "{}"))
                     eq_refl (Nat.le_0_l 2) _ eq_refl _ _ _)
              eq_refl _ _).
    + intros i Hi. exfalso. lia.
    + cbn [Retry.status]. lia.
    + cbn [Retry.status]. lia.
    + cbn [Retry.status]. lia.
    + apply not_includes. reflexivity.
    + apply not_includes. reflexivity.
Defined.

Example featured_route_samples :
  let parse := fun _ : jsstring => inr None in
  let details := fun _ : nat => Featured.Rejects in
  let products := fun _ : nat => None in
  snd (GET parse details products (Token.Failed Token.NotConfigured)
         Retry.net_always_429)
  = Failure CONFIG_ERROR
  /\ GET parse details products (Token.Fulfilled (js "t")) Retry.net_recovers
     = ([Retry.Fetch; Retry.Sleep 1000; Retry.Fetch; Retry.Sleep 2000; Retry.Fetch],
        Deals (Featured.mkRun [] (Some (js "No books found")) [] [])).
Proof. vm_compute. split; reflexivity. Qed.
